(** * Socratic: model invocation, response parsing and dialogue-state folding

    A shallow embedding of the browser-side JavaScript of the Socratic
    learning assistant:

    - [Js]        the string built-ins the code calls ([trim], [startsWith],
                  [indexOf], [substring], [endsWith], [slice], [includes],
                  [toLowerCase]);
    - [Json]      the platform's [JSON.parse], as a lexer automaton followed
                  by a push-down parser;
    - [Parser]    [_parseJSON] (fence stripping, then [JSON.parse]);
    - [Invoker]   [_isRateLimitError], [_callAPI] (OpenRouter client, retry
                  with back-off) and [_callGemini] (probing Gemini client,
                  skip to the next model), and [validateApiKey] of both;
    - [Scheduler] [_enqueue] over a simulated clock;
    - [Session]   the record store, [loadSession], [handleResponse] and
                  [handleEndSession] (each in two halves, up to the awaited
                  call and from it on, with the answers that can be pending
                  at once), [handleHint], [updateUI], [handleStartSession]
                  and [renderSessions];
    - [Client]    [continueDialogue], [getHint], [generateSessionSummary].

    Text is a [string] of 8-bit code units.  Time is in milliseconds, in [Z]. *)

From Stdlib Require Import ZArith List Bool String Ascii Lia.
From Stdlib Require Import Numbers.DecimalString.
From Stdlib Require Import Sorting.Permutation.
Import ListNotations.

#[local] Set Warnings "-register-all".

Open Scope string_scope.
Open Scope Z_scope.

(* ================================================================== *)
(** ** JavaScript string built-ins *)
(* ================================================================== *)

Module Js.

(** [String.prototype.trim] removes white space and line terminators; in the
    8-bit range these are TAB, LF, VT, FF, CR, SPACE and NBSP. *)
Definition isWhiteSpace (c : ascii) : bool :=
  let n := nat_of_ascii c in
  ((9 <=? n) && (n <=? 13))%nat || (n =? 32)%nat || (n =? 160)%nat.

Fixpoint trimStart (s : string) : string :=
  match s with
  | String c r => if isWhiteSpace c then trimStart r else s
  | EmptyString => EmptyString
  end.

Fixpoint trimEnd (s : string) : string :=
  match s with
  | String c r =>
      match trimEnd r with
      | EmptyString => if isWhiteSpace c then EmptyString else String c EmptyString
      | r' => String c r'
      end
  | EmptyString => EmptyString
  end.

Definition trim (s : string) : string := trimEnd (trimStart s).

Definition startsWith (s p : string) : bool := String.prefix p s.

(** [s.indexOf(needle)]: position of the first occurrence, [-1] when there is
    none. *)
Fixpoint indexOf (s needle : string) : Z :=
  if String.prefix needle s then 0
  else match s with
       | EmptyString => -1
       | String _ r => let i := indexOf r needle in if i <? 0 then -1 else i + 1
       end.

Definition includes (s needle : string) : bool := 0 <=? indexOf s needle.

Fixpoint drop (n : nat) (s : string) : string :=
  match n, s with
  | O, _ => s
  | S _, EmptyString => EmptyString
  | S k, String _ r => drop k r
  end.

Fixpoint take (n : nat) (s : string) : string :=
  match n, s with
  | O, _ => EmptyString
  | S _, EmptyString => EmptyString
  | S k, String c r => String c (take k r)
  end.

Definition len (s : string) : Z := Z.of_nat (String.length s).

(** [s.substring(start)]: a negative [start] counts as 0, one beyond the end
    as the length. *)
Definition substring (s : string) (start : Z) : string :=
  drop (Z.to_nat (Z.max 0 start)) s.

(** [s.slice(0, stop)]: a negative [stop] counts from the end. *)
Definition slice0 (s : string) (stop : Z) : string :=
  take (Z.to_nat (if stop <? 0 then Z.max 0 (len s + stop) else stop)) s.

Definition endsWith (s suffix : string) : bool :=
  (len suffix <=? len s) && String.eqb (substring s (len s - len suffix)) suffix.

(** [toLowerCase] on 8-bit code units: A-Z, and the Latin-1 capitals
    U+00C0..U+00DE other than the multiplication sign U+00D7. *)
Definition lowerChar (c : ascii) : ascii :=
  let n := nat_of_ascii c in
  if ((65 <=? n) && (n <=? 90))%nat
     || ((192 <=? n) && (n <=? 222) && negb (n =? 215))%nat
  then ascii_of_nat (n + 32) else c.

Fixpoint toLowerCase (s : string) : string :=
  match s with
  | EmptyString => EmptyString
  | String c r => String (lowerChar c) (toLowerCase r)
  end.

(** Decimal rendering of an integer inside a template literal. *)
Definition ofInt (z : Z) : string := NilZero.string_of_int (Z.to_int z).

(** Every code unit of the text is white space for [trim]. *)
Fixpoint allWhiteSpace (s : string) : bool :=
  match s with
  | EmptyString => true
  | String c r => isWhiteSpace c && allWhiteSpace r
  end.

End Js.

(* ================================================================== *)
(** ** JSON.parse *)
(* ================================================================== *)

Module Json.

(** A parsed JSON value.  A number literal is kept as the exact decimal
    [mantissa * 10 ^ exponent] it denotes (rounding to a double is not
    modelled); a string keeps the characters between its quotes as written,
    escape sequences validated but not decoded; an object keeps its members
    in source order. *)
Inductive json : Type :=
| JNull
| JBool (b : bool)
| JNumber (mantissa exponent : Z)
| JString (raw : string)
| JArray (items : list json)
| JObject (members : list (string * json)).

Inductive token : Type :=
| TLBrace | TRBrace | TLBracket | TRBracket | TColon | TComma
| TScalar (v : json).

(** *** Lexer: one automaton step per code unit *)

Inductive numPhase : Type :=
| NMinus | NZero | NInt | NFracStart | NFrac | NExpStart | NExpSign | NExp.

Record numAcc : Type := mkNum
  { negative : bool; digits : Z; fracLen : Z; expNegative : bool; expDigits : Z }.

Inductive lstate : Type :=
| LIdle
| LStr (acc : string)
| LEsc (acc : string)
| LHex (acc : string) (todo : nat)
| LWord (acc : string)
| LNum (ph : numPhase) (a : numAcc).

Definition quoteChar : ascii := ascii_of_nat 34.

Definition snoc (s : string) (c : ascii) : string := s ++ String c EmptyString.

Definition isDigit (c : ascii) : bool :=
  let n := nat_of_ascii c in ((48 <=? n) && (n <=? 57))%nat.

Definition digitVal (c : ascii) : Z := Z.of_nat (nat_of_ascii c) - 48.

Definition isHex (c : ascii) : bool :=
  let n := nat_of_ascii c in
  (isDigit c || ((65 <=? n) && (n <=? 70)) || ((97 <=? n) && (n <=? 102)))%nat.

Definition isLower (c : ascii) : bool :=
  let n := nat_of_ascii c in ((97 <=? n) && (n <=? 122))%nat.

(** JSON white space is SPACE, TAB, LF and CR only. *)
Definition isJsonSpace (c : ascii) : bool :=
  let n := nat_of_ascii c in
  ((n =? 32) || (n =? 9) || (n =? 10) || (n =? 13))%nat.

Definition numberOf (a : numAcc) : json :=
  JNumber (if negative a then - digits a else digits a)
          ((if expNegative a then - expDigits a else expDigits a) - fracLen a).

Definition wordToken (w : string) : option token :=
  if String.eqb w "true" then Some (TScalar (JBool true))
  else if String.eqb w "false" then Some (TScalar (JBool false))
  else if String.eqb w "null" then Some (TScalar JNull)
  else None.

Definition stepIdle (c : ascii) : option (list token * lstate) :=
  if isJsonSpace c then Some ([], LIdle)
  else if Ascii.eqb c "{" then Some ([TLBrace], LIdle)
  else if Ascii.eqb c "}" then Some ([TRBrace], LIdle)
  else if Ascii.eqb c "[" then Some ([TLBracket], LIdle)
  else if Ascii.eqb c "]" then Some ([TRBracket], LIdle)
  else if Ascii.eqb c ":" then Some ([TColon], LIdle)
  else if Ascii.eqb c "," then Some ([TComma], LIdle)
  else if Ascii.eqb c quoteChar then Some ([], LStr EmptyString)
  else if Ascii.eqb c "-" then Some ([], LNum NMinus (mkNum true 0 0 false 0))
  else if Ascii.eqb c "0" then Some ([], LNum NZero (mkNum false 0 0 false 0))
  else if isDigit c then Some ([], LNum NInt (mkNum false (digitVal c) 0 false 0))
  else if isLower c then Some ([], LWord (String c EmptyString))
  else None.

(** A token that ends because of the next code unit: emit it, then read that
    code unit from the idle state. *)
Definition emitThen (t : token) (c : ascii) : option (list token * lstate) :=
  match stepIdle c with
  | Some (ts, st) => Some (t :: ts, st)
  | None => None
  end.

Definition isExpMark (c : ascii) : bool := Ascii.eqb c "e" || Ascii.eqb c "E".

Definition pushDigit (a : numAcc) (c : ascii) : numAcc :=
  mkNum (negative a) (digits a * 10 + digitVal c) (fracLen a) (expNegative a) (expDigits a).

Definition pushFrac (a : numAcc) (c : ascii) : numAcc :=
  mkNum (negative a) (digits a * 10 + digitVal c) (fracLen a + 1) (expNegative a) (expDigits a).

Definition pushExp (a : numAcc) (c : ascii) : numAcc :=
  mkNum (negative a) (digits a) (fracLen a) (expNegative a) (expDigits a * 10 + digitVal c).

Definition setExpNeg (a : numAcc) : numAcc :=
  mkNum (negative a) (digits a) (fracLen a) true (expDigits a).

Definition stepNum (ph : numPhase) (a : numAcc) (c : ascii)
  : option (list token * lstate) :=
  match ph with
  | NMinus =>
      if Ascii.eqb c "0" then Some ([], LNum NZero a)
      else if isDigit c then Some ([], LNum NInt (pushDigit a c))
      else None
  | NZero =>
      if Ascii.eqb c "." then Some ([], LNum NFracStart a)
      else if isExpMark c then Some ([], LNum NExpStart a)
      else emitThen (TScalar (numberOf a)) c
  | NInt =>
      if isDigit c then Some ([], LNum NInt (pushDigit a c))
      else if Ascii.eqb c "." then Some ([], LNum NFracStart a)
      else if isExpMark c then Some ([], LNum NExpStart a)
      else emitThen (TScalar (numberOf a)) c
  | NFracStart =>
      if isDigit c then Some ([], LNum NFrac (pushFrac a c)) else None
  | NFrac =>
      if isDigit c then Some ([], LNum NFrac (pushFrac a c))
      else if isExpMark c then Some ([], LNum NExpStart a)
      else emitThen (TScalar (numberOf a)) c
  | NExpStart =>
      if Ascii.eqb c "+" then Some ([], LNum NExpSign a)
      else if Ascii.eqb c "-" then Some ([], LNum NExpSign (setExpNeg a))
      else if isDigit c then Some ([], LNum NExp (pushExp a c))
      else None
  | NExpSign =>
      if isDigit c then Some ([], LNum NExp (pushExp a c)) else None
  | NExp =>
      if isDigit c then Some ([], LNum NExp (pushExp a c))
      else emitThen (TScalar (numberOf a)) c
  end.

Definition isSimpleEscape (c : ascii) : bool :=
  Ascii.eqb c quoteChar || Ascii.eqb c "\" || Ascii.eqb c "/" || Ascii.eqb c "b"
  || Ascii.eqb c "f" || Ascii.eqb c "n" || Ascii.eqb c "r" || Ascii.eqb c "t".

Definition lexStep (st : lstate) (c : ascii) : option (list token * lstate) :=
  match st with
  | LIdle => stepIdle c
  | LStr acc =>
      if Ascii.eqb c quoteChar then Some ([TScalar (JString acc)], LIdle)
      else if Ascii.eqb c "\" then Some ([], LEsc (snoc acc c))
      else if (nat_of_ascii c <? 32)%nat then None
      else Some ([], LStr (snoc acc c))
  | LEsc acc =>
      if isSimpleEscape c then Some ([], LStr (snoc acc c))
      else if Ascii.eqb c "u" then Some ([], LHex (snoc acc c) 4)
      else None
  | LHex acc todo =>
      if isHex c then
        match todo with
        | S (S k) => Some ([], LHex (snoc acc c) (S k))
        | _ => Some ([], LStr (snoc acc c))
        end
      else None
  | LWord acc =>
      if isLower c then Some ([], LWord (snoc acc c))
      else match wordToken acc with
           | Some t => emitThen t c
           | None => None
           end
  | LNum ph a => stepNum ph a c
  end.

Definition lexEnd (st : lstate) : option (list token) :=
  match st with
  | LIdle => Some []
  | LWord acc => option_map (fun t => [t]) (wordToken acc)
  | LNum (NZero | NInt | NFrac | NExp) a => Some [TScalar (numberOf a)]
  | _ => None
  end.

Fixpoint lex (st : lstate) (s : string) : option (list token) :=
  match s with
  | EmptyString => lexEnd st
  | String c r =>
      match lexStep st c with
      | Some (ts, st') => option_map (app ts) (lex st' r)
      | None => None
      end
  end.

(** *** Parser: a push-down automaton over the tokens *)

Inductive frame : Type :=
| InArray (done : list json)
| InObject (done : list (string * json)) (key : string).

Inductive pstate : Type :=
| PValue (stack : list frame)
| PArrayOpen (stack : list frame)
| PArrayNext (done : list json) (stack : list frame)
| PObjectOpen (stack : list frame)
| PObjectKey (done : list (string * json)) (stack : list frame)
| PColon (done : list (string * json)) (key : string) (stack : list frame)
| PObjectNext (done : list (string * json)) (stack : list frame)
| PDone (v : json).

(** A value is complete: hand it to the enclosing container. *)
Definition complete (v : json) (stack : list frame) : pstate :=
  match stack with
  | [] => PDone v
  | InArray done :: stack' => PArrayNext (v :: done) stack'
  | InObject done key :: stack' => PObjectNext ((key, v) :: done) stack'
  end.

Definition parseValue (stack : list frame) (t : token) : option pstate :=
  match t with
  | TScalar v => Some (complete v stack)
  | TLBracket => Some (PArrayOpen stack)
  | TLBrace => Some (PObjectOpen stack)
  | _ => None
  end.

Definition parseStep (st : pstate) (t : token) : option pstate :=
  match st, t with
  | PValue stack, _ => parseValue stack t
  | PArrayOpen stack, TRBracket => Some (complete (JArray []) stack)
  | PArrayOpen stack, _ => parseValue (InArray [] :: stack) t
  | PArrayNext done stack, TComma => Some (PValue (InArray done :: stack))
  | PArrayNext done stack, TRBracket => Some (complete (JArray (rev done)) stack)
  | PObjectOpen stack, TRBrace => Some (complete (JObject []) stack)
  | PObjectOpen stack, TScalar (JString k) => Some (PColon [] k stack)
  | PObjectKey done stack, TScalar (JString k) => Some (PColon done k stack)
  | PColon done k stack, TColon => Some (PValue (InObject done k :: stack))
  | PObjectNext done stack, TComma => Some (PObjectKey done stack)
  | PObjectNext done stack, TRBrace => Some (complete (JObject (rev done)) stack)
  | _, _ => None
  end.

Fixpoint parseTokens (st : pstate) (ts : list token) : option json :=
  match ts with
  | [] => match st with PDone v => Some v | _ => None end
  | t :: ts' =>
      match parseStep st t with
      | Some st' => parseTokens st' ts'
      | None => None
      end
  end.

(** [JSON.parse(text)]; [None] stands for the [SyntaxError] it throws. *)
Definition parse (text : string) : option json :=
  match lex LIdle text with
  | Some ts => parseTokens (PValue []) ts
  | None => None
  end.

End Json.

(* ================================================================== *)
(** ** ResponseParser: [_parseJSON] *)
(* ================================================================== *)

Module Parser.

Import Json.

Definition backtick : ascii := ascii_of_nat 96.

Definition newlineChar : ascii := ascii_of_nat 10.

Definition fence : string := "```".

Definition newline : string := String newlineChar EmptyString.

(** [_parseJSON(text)], the same in every variant of the API client:
<<
    let c = text.trim();
    if (c.startsWith('```')) c = c.substring(c.indexOf('\n') + 1);
    if (c.endsWith('```')) c = c.slice(0, -3).trim();
    return JSON.parse(c);
>> *)
Definition stripLeading (c : string) : string :=
  if Js.startsWith c fence then Js.substring c (Js.indexOf c newline + 1) else c.

Definition stripTrailing (c : string) : string :=
  if Js.endsWith c fence then Js.trim (Js.slice0 c (-3)) else c.

Definition normalize (text : string) : string :=
  stripTrailing (stripLeading (Js.trim text)).

Definition _parseJSON (text : string) : option json :=
  Json.parse (normalize text).

End Parser.

Module ParserSamples.

Definition dq : string := String Json.quoteChar EmptyString.

(** The text [{"a":1}]. *)
Definition object_a_1 : string := "{" ++ dq ++ "a" ++ dq ++ ":1}".

(** The same text inside a Markdown code fence labelled [json]. *)
Definition fenced_object_a_1 : string :=
  "```json" ++ Parser.newline ++ object_a_1 ++ Parser.newline ++ "```".

End ParserSamples.

(* ================================================================== *)
(** ** ModelFallbackInvoker *)
(* ================================================================== *)

Module Invoker.

Import Json.

(** What one [_rawFetch], and the reading of the response body that follows
    it, come to. *)
Inductive Reply : Type :=
| Threw (message : string)
    (** the [try] block threw before [JSON.parse] was reached: [fetch] or
        [res.json()] rejected, or the content found was not a string;
        [message] is [e.message] *)
| Ok2xx (text : string)
    (** [res.ok]; [text] is the model text found in the body, or [''] *)
| Failed (status : Z) (message : string).
    (** [!res.ok]; [message] is [errData?.error?.message], [''] when absent *)

(** [{ success: true, data }] or [{ success: false, error }]. *)
Inductive Result : Type :=
| Success (data : json)
| Failure (error : string).

(** What the invoker does to the outside, in order. *)
Inductive Event : Type :=
| Fetch (model : string)
| Notify (waitSeconds : Z) (model : string) (attempt : Z)
    (** the ['gemini-rate-limit'] CustomEvent *)
| Sleep (ms : Z).
    (** [await new Promise(r => setTimeout(r, ms))] *)

(** How a [for] loop body over one model ends. *)
Inductive Exit : Type :=
| Return (r : Result)
| Break.

(** [a || b] on strings: the empty string is falsy. *)
Definition orElse (a b : string) : string :=
  match a with EmptyString => b | _ => a end.

Definition nl : string := Parser.newline.

(** <<
    _isRateLimitError(status, msg) {
        if (status === 429) return true;
        if (typeof msg === 'string') {
            const l = msg.toLowerCase();
            return l.includes('quota') || l.includes('rate') || l.includes('resource_exhausted');
        }
        return false;
    }
>> *)
Definition _isRateLimitError (status : Z) (msg : string) : bool :=
  if status =? 429 then true
  else
    let l := Js.toLowerCase msg in
    Js.includes l "quota" || Js.includes l "rate" || Js.includes l "resource_exhausted".

(** [errData?.error?.message || `API error (${res.status})`] *)
Definition errMsgOf (status : Z) (message : string) : string :=
  orElse message ("API error (" ++ Js.ofInt status ++ ")").

(** [Math.ceil(a / b)] for a positive divisor. *)
Definition ceilDiv (a b : Z) : Z := - ((- a) / b).

Section Environment.

(** The HTTP collaborator: the reply to the [n]-th request of a run, sent to
    [model]. *)
Variable fetch : nat -> string -> Reply.

(** The engine's message for the [SyntaxError] of [JSON.parse] on a text. *)
Variable syntaxErrorMessage : string -> string.

(** The engine's message for the [TypeError] of setting a property on [null]. *)
Variable typeErrorMessage : string.

(** *** Policy A: the OpenRouter client, [_callAPI] *)

Definition _maxRetries : Z := 3.
Definition _baseBackoff : Z := 2000.

Definition ALL_MODELS_A : list string :=
  [ "google/gemini-2.5-flash";
    "meta-llama/llama-3.3-70b-instruct:free";
    "mistralai/mistral-small-3.1-24b-instruct:free";
    "google/gemma-3-27b-it:free" ].

(** [this._baseBackoff * Math.pow(2, attempt - 1)] *)
Definition backoff (attempt : Z) : Z := _baseBackoff * 2 ^ (attempt - 1).

Definition exhaustedA (lastError : string) : string :=
  "All models are rate-limited or unavailable." ++ nl ++ nl
  ++ "Fix options:" ++ nl
  ++ "1. Wait a minute and try again" ++ nl
  ++ "2. Check your credits at openrouter.ai" ++ nl
  ++ "3. Try a different API key" ++ nl ++ nl
  ++ "Last error: " ++ lastError.

(** The inner loop
    [for (let attempt = 1; attempt <= this._maxRetries; attempt++)] for one
    model, from the iteration numbered [attempt]; [todo] counts the
    iterations the loop condition still admits.  [n] is the number of
    requests sent so far.  The result is how the loop ends, the value of
    [lastError], the new request count and the events, oldest first. *)
Fixpoint attempts (todo : nat) (attempt : Z) (model : string)
                  (n : nat) (lastError : string)
  : Exit * string * nat * list Event :=
  match todo with
  | O => (Break, lastError, n, [])
  | S todo' =>
      (* catch (e) { lastError = e.message || 'Network error.'; ... } *)
      let caught (message : string) :=
        let lastError := orElse message "Network error." in
        if attempt <? _maxRetries then
          let wait := backoff attempt in
          let '(ex, le, n', evs) := attempts todo' (attempt + 1) model (S n) lastError in
          (ex, le, n', Fetch model :: Sleep wait :: evs)
        else (Break, lastError, S n, [Fetch model]) in
      match fetch n model with
      | Threw message => caught message
      | Ok2xx text =>
          match Parser._parseJSON text with
          | Some parsed => (Return (Success parsed), lastError, S n, [Fetch model])
          | None => caught (syntaxErrorMessage text)
          end
      | Failed status message =>
          let errMsg := errMsgOf status message in
          if _isRateLimitError status errMsg then
            let lastError := errMsg in
            if attempt <? _maxRetries then
              let wait := backoff attempt in
              let '(ex, le, n', evs) := attempts todo' (attempt + 1) model (S n) lastError in
              (ex, le, n',
               Fetch model :: Notify (ceilDiv wait 1000) model attempt :: Sleep wait :: evs)
            else (Break, lastError, S n, [Fetch model])
          else (Return (Failure errMsg), lastError, S n, [Fetch model])
      end
  end.

(** The outer loop [for (const model of modelsToTry)] and the aggregated
    failure after it. *)
Fixpoint tryModelsA (modelsToTry : list string) (n : nat) (lastError : string)
  : Result * nat * list Event :=
  match modelsToTry with
  | [] => (Failure (exhaustedA lastError), n, [])
  | model :: rest =>
      match attempts (Z.to_nat _maxRetries) 1 model n lastError with
      | (Return r, _, n', evs) => (r, n', evs)
      | (Break, lastError', n', evs) =>
          let '(r, n'', evs') := tryModelsA rest n' lastError' in
          (r, n'', (evs ++ evs')%list)
      end
  end.

(** [_callAPI]: the task it hands to [_enqueue], run from its first request.
    [apiKey] is [Storage.getApiKey()], [modelsToTry] a copy of [ALL_MODELS]. *)
Definition _callAPI (apiKey : string) (modelsToTry : list string)
  : Result * list Event :=
  match apiKey with
  | EmptyString => (Failure "API key not configured.", [])
  | _ => let '(r, _, evs) := tryModelsA modelsToTry 0 "" in (r, evs)
  end.

(** *** Policy B: the probing Gemini client, [_callGemini] *)

Definition ALL_MODELS_B : list string :=
  [ "gemini-2.5-flash-lite"; "gemini-2.5-flash"; "gemini-2.0-flash-lite"; "gemini-2.0-flash" ].

(** [[preferred, ...working.filter(m => m !== preferred)]] *)
Definition modelsToTryB (preferred : string) (working : list string) : list string :=
  preferred :: filter (fun m => negb (String.eqb m preferred)) working.

Fixpoint setMember (k : string) (v : json) (members : list (string * json))
  : list (string * json) :=
  match members with
  | [] => [(k, v)]
  | (k', v') :: rest =>
      if String.eqb k' k then (k, v) :: rest else (k', v') :: setMember k v rest
  end.

(** [parsed._usedModel = model].  On [null] the assignment throws a
    [TypeError] ([None]); on an object it sets the member; on a primitive it
    does nothing (the scripts are not in strict mode); a property set on an
    array is not part of its JSON value. *)
Definition setUsedModel (parsed : json) (model : string) : option json :=
  match parsed with
  | JNull => None
  | JObject members => Some (JObject (setMember "_usedModel" (JString model) members))
  | other => Some other
  end.

Definition exhaustedB (lastError : string) : string :=
  "All models are rate-limited. This usually means your daily free-tier quota is used up."
  ++ nl ++ nl
  ++ "Fix options:" ++ nl
  ++ "1. Wait until your quota resets (midnight Pacific time)" ++ nl
  ++ "2. Create a new API key at aistudio.google.com/apikey" ++ nl
  ++ "3. Enable billing on your Google Cloud project for higher limits" ++ nl ++ nl
  ++ "Last error: " ++ lastError.

(** The loop [for (const model of modelsToTry)] of [_callGemini]. *)
Fixpoint tryModelsB (preferred : string) (modelsToTry : list string)
                    (n : nat) (lastError : string)
  : Result * nat * list Event :=
  match modelsToTry with
  | [] => (Failure (exhaustedB lastError), n, [])
  | model :: rest =>
      let continue (lastError : string) (evs : list Event) :=
        let '(r, n', evs') := tryModelsB preferred rest (S n) lastError in
        (r, n', (evs ++ evs')%list) in
      match fetch n model with
      | Threw message => continue (orElse message "Network error.") [Fetch model]
      | Ok2xx text =>
          match Parser._parseJSON text with
          | Some parsed =>
              if String.eqb model preferred
              then (Success parsed, S n, [Fetch model])
              else match setUsedModel parsed model with
                   | Some parsed' => (Success parsed', S n, [Fetch model])
                   | None => continue (orElse typeErrorMessage "Network error.") [Fetch model]
                   end
          | None => continue (orElse (syntaxErrorMessage text) "Network error.") [Fetch model]
          end
      | Failed status message =>
          let errMsg := errMsgOf status message in
          if _isRateLimitError status errMsg
          then continue errMsg [Fetch model; Notify 0 model 1]
          else (Failure errMsg, S n, [Fetch model])
      end
  end.

(** [_callGemini]: [preferred] is [Storage.getModel()], [working] is
    [_getWorkingModels()]. *)
Definition _callGemini (apiKey preferred : string) (working : list string)
  : Result * list Event :=
  match apiKey with
  | EmptyString => (Failure "API key not configured.", [])
  | _ => let '(r, _, evs) := tryModelsB preferred (modelsToTryB preferred working) 0 "" in
         (r, evs)
  end.

(** *** The first client: one model, no fallback

    [continueDialogue] of [js/gemini-api.js], from the request on:
<<
        if (!res.ok) { ... return { success: false, error: ... || `API error (${res.status})` }; }
        ...
        const parsed = this._parseJSON(text);
        return { success: true, data: parsed };
    } catch (e) {
        if (e instanceof SyntaxError) {
            return { success: false, error: 'Failed to parse AI response as JSON: ' + e.message };
        }
        return { success: false, error: e.message || 'Network error.' };
    }
>> *)
Definition continueDialogue_single (apiKey model : string) : Result * list Event :=
  match apiKey with
  | EmptyString => (Failure "API key not configured.", [])
  | _ =>
      match fetch 0 model with
      | Threw message => (Failure (orElse message "Network error."), [Fetch model])
      | Ok2xx text =>
          match Parser._parseJSON text with
          | Some parsed => (Success parsed, [Fetch model])
          | None =>
              (Failure ("Failed to parse AI response as JSON: " ++ syntaxErrorMessage text),
               [Fetch model])
          end
      | Failed status message => (Failure (errMsgOf status message), [Fetch model])
      end
  end.

End Environment.

(** The models requested, in order. *)
Fixpoint fetched (evs : list Event) : list string :=
  match evs with
  | [] => []
  | Fetch m :: rest => m :: fetched rest
  | _ :: rest => fetched rest
  end.

(** The waits, in order. *)
Fixpoint slept (evs : list Event) : list Z :=
  match evs with
  | [] => []
  | Sleep ms :: rest => ms :: slept rest
  | _ :: rest => slept rest
  end.

(** A reply the invoker classifies as a throttle signal: a failed response
    whose status and message [_isRateLimitError] accepts. *)
Definition throttled (r : Reply) : bool :=
  match r with
  | Failed status message => _isRateLimitError status (errMsgOf status message)
  | _ => false
  end.

(** A reply the invoker turns into a success: a 2xx whose text parses. *)
Definition parsedData (r : Reply) : option json :=
  match r with
  | Ok2xx text => Parser._parseJSON text
  | _ => None
  end.

(** What policy A does with a model that is throttled on every attempt. *)
Definition throttledBlockA (model : string) : list Event :=
  [ Fetch model; Notify 2 model 1; Sleep 2000;
    Fetch model; Notify 4 model 2; Sleep 4000;
    Fetch model ].

(** What policy B does with a throttled model. *)
Definition throttledBlockB (model : string) : list Event :=
  [ Fetch model; Notify 0 model 1 ].

(** The requests of a run follow the list of models: each model of a prefix
    of the list in turn, one to [most] times. *)
Inductive InOrder (most : nat) : list string -> list string -> Prop :=
| InOrder_nil (models : list string) : InOrder most [] models
| InOrder_cons (model : string) (k : nat) (trace models : list string) :
    (1 <= k <= most)%nat ->
    InOrder most trace models ->
    InOrder most (repeat model k ++ trace)%list (model :: models).

(** The HTTP collaborator with every 2xx reply whose text does not parse
    replaced by a network failure of the same message. *)
Definition asNetworkFailure (fetch : nat -> string -> Reply)
    (syntaxErrorMessage : string -> string) : nat -> string -> Reply :=
  fun n model =>
    match fetch n model with
    | Ok2xx text =>
        match Parser._parseJSON text with
        | Some _ => Ok2xx text
        | None => Threw (syntaxErrorMessage text)
        end
    | r => r
    end.

(** Sample collaborators: one that answers every request with status 429 and
    no message; one that answers every request with a 2xx whose text is
    [not json]; one whose first reply is a 429, whose second is a 2xx with
    the text [null], and whose later replies are a 2xx with [{"a":1}]. *)
Definition alwaysThrottled : nat -> string -> Reply :=
  fun _ _ => Failed 429 EmptyString.

Definition alwaysNotJson : nat -> string -> Reply :=
  fun _ _ => Ok2xx "not json".

Definition throttledThenNull : nat -> string -> Reply :=
  fun n _ =>
    match n with
    | O => Failed 429 EmptyString
    | S O => Ok2xx "null"
    | _ => Ok2xx ParserSamples.object_a_1
    end.

(** *** Replies by what the loops do with them *)

(** A reply after which the fallback clients go on (to the next attempt or
    the next model): an exception, a 2xx whose text does not parse, or a
    throttle signal. *)
Definition retryable (r : Reply) : bool :=
  match r with
  | Threw _ => true
  | Ok2xx text => match Parser._parseJSON text with Some _ => false | None => true end
  | Failed status message => _isRateLimitError status (errMsgOf status message)
  end.

(** A failed response that is not a throttle signal, and its message. *)
Definition hardFailure (r : Reply) : option string :=
  match r with
  | Failed status message =>
      if _isRateLimitError status (errMsgOf status message) then None
      else Some (errMsgOf status message)
  | _ => None
  end.

(** What [lastError] becomes after a reply the loops go on from. *)
Definition caughtMessage (syntaxErrorMessage : string -> string) (r : Reply) : string :=
  match r with
  | Threw message => orElse message "Network error."
  | Ok2xx text => orElse (syntaxErrorMessage text) "Network error."
  | Failed status message => errMsgOf status message
  end.

Fixpoint sumZ (l : list Z) : Z :=
  match l with
  | [] => 0
  | x :: rest => x + sumZ rest
  end.

(** *** [validateApiKey] *)

(** [{ success: true }], with the working models when they were probed, or
    [{ success: false, error }]. *)
Inductive Validation : Type :=
| Valid (workingModels : option (list string))
| Invalid (error : string).

(** [validateApiKey] of the OpenRouter client, from the reply to its one
    request:
<<
    if (res.ok) return { success: true };
    ...
    if (res.status === 401) return { success: false, error: 'Invalid API key. ...' };
    if (res.status === 402) return { success: false, error: 'No credits remaining. ...' };
    // Rate limit during validation is fine -- key is valid
    if (res.status === 429) return { success: true };
    return { success: false, error: errMsg };
  } catch (e) { return { success: false, error: 'Network error. Check your connection.' }; }
>> *)
Definition validateApiKey_A (reply : Reply) : Validation :=
  match reply with
  | Ok2xx _ => Valid None
  | Failed status message =>
      if status =? 401 then Invalid "Invalid API key. Check your key at openrouter.ai/keys"
      else if status =? 402 then Invalid "No credits remaining. Add credits at openrouter.ai"
      else if status =? 429 then Valid None
      else Invalid (errMsgOf status message)
  | Threw _ => Invalid "Network error. Check your connection."
  end.

(** The test of the probing loop for a failed probe:
    [!msg.toLowerCase().includes('limit: 0') && !msg.toLowerCase().includes('quota')
     && probeRes.status !== 429] *)
Definition mightWorkLater (status : Z) (msg : string) : bool :=
  negb (Js.includes (Js.toLowerCase msg) "limit: 0")
  && negb (Js.includes (Js.toLowerCase msg) "quota")
  && negb (status =? 429).

Definition noQuotaError : string :=
  "Your API key is valid but all models have zero quota. Try creating a new API key at aistudio.google.com/apikey, or wait for your daily quota to reset (midnight Pacific time).".

Section Probing.

(** The reply to the probe of the [i]-th model. *)
Variable probe : nat -> string -> Reply.

(** The loop [for (const model of this.ALL_MODELS)] of [validateApiKey] in
    the Gemini client, from the model of position [i]: the working models, in
    the order they were pushed, and the events.  The pause of 1500 ms stands
    inside the [try], after the test of the reply: a probe that throws skips
    it. *)
Fixpoint probeModels (models : list string) (i : nat) : list string * list Event :=
  match models with
  | [] => ([], [])
  | model :: rest =>
      let '(working, evs) := probeModels rest (S i) in
      match probe i model with
      | Ok2xx _ => (model :: working, Fetch model :: Sleep 1500 :: evs)
      | Failed status msg =>
          if mightWorkLater status msg
          then (model :: working, Fetch model :: Sleep 1500 :: evs)
          else (working, Fetch model :: Sleep 1500 :: evs)
      | Threw _ => (model :: working, Fetch model :: evs)
      end
  end.

(** [validateApiKey] of the Gemini client; [keyCheck] is the reply to the
    listing of the models.  A valid result carries the list it stores under
    ['socratic_working_models']. *)
Definition validateApiKey_B (keyCheck : Reply) (models : list string)
  : Validation * list Event :=
  match keyCheck with
  | Failed _ message => (Invalid (orElse message "Invalid API key"), [])
  | Threw _ => (Invalid "Network error. Check your connection.", [])
  | Ok2xx _ =>
      let '(working, evs) := probeModels models 0 in
      match working with
      | [] => (Invalid noQuotaError, evs)
      | _ => (Valid (Some working), evs)
      end
  end.

End Probing.

(** A reply that ends a run of policy A, and the result it ends with: a 2xx
    whose text parses, or a failed response that is not a throttle signal. *)
Definition terminalOf (r : Reply) : option Result :=
  match r with
  | Threw _ => None
  | Ok2xx text => option_map Success (Parser._parseJSON text)
  | Failed _ _ => option_map Failure (hardFailure r)
  end.

(** [lastError] after policy A has gone through [models] from request [n]
    on with three requests each, and after policy B has with one each. *)
Fixpoint finalErrorA (fetch : nat -> string -> Reply)
    (syntaxErrorMessage : string -> string)
    (models : list string) (n : nat) (lastError : string) : string :=
  match models with
  | [] => lastError
  | model :: rest =>
      finalErrorA fetch syntaxErrorMessage rest (3 + n)
        (caughtMessage syntaxErrorMessage (fetch (2 + n)%nat model))
  end.

Fixpoint finalErrorB (fetch : nat -> string -> Reply)
    (syntaxErrorMessage : string -> string)
    (models : list string) (n : nat) (lastError : string) : string :=
  match models with
  | [] => lastError
  | model :: rest =>
      finalErrorB fetch syntaxErrorMessage rest (S n)
        (caughtMessage syntaxErrorMessage (fetch n model))
  end.

(** Sample collaborators: one whose every request fails at the network; one
    that answers the first request with status 500 and a message. *)
Definition alwaysOffline : nat -> string -> Reply :=
  fun _ _ => Threw "Failed to fetch".

Definition serverError : nat -> string -> Reply :=
  fun _ _ => Failed 500 "Internal error".

(** Whether the probing loop keeps a model, by the reply to its probe. *)
Definition probeKeeps (r : Reply) : bool :=
  match r with
  | Ok2xx _ => true
  | Failed status msg => mightWorkLater status msg
  | Threw _ => true
  end.

(** A sample probe: the second model answers 429, the others 2xx. *)
Definition secondThrottled : nat -> string -> Reply :=
  fun i _ => match i with S O => Failed 429 EmptyString | _ => Ok2xx EmptyString end.

End Invoker.

(* ================================================================== *)
(** ** RequestScheduler: [_enqueue] over a simulated clock *)
(* ================================================================== *)

Module Scheduler.

(** <<
    _enqueue(fn) {
        this._requestQueue = this._requestQueue.then(async () => {
            const now = Date.now();
            const wait = this._minRequestGap - (now - this._lastRequestTime);
            if (wait > 0) await new Promise(r => setTimeout(r, wait));
            this._lastRequestTime = Date.now();
            return fn();
        });
        return this._requestQueue;
    }
>>
    The promise chain [_requestQueue] is the list of the callbacks chained on
    it that have not run yet, oldest first: a callback runs when the promise
    before it has settled, that is, when the task before it has returned.
    Every task handed to [_enqueue] is the invoker's closure, which catches
    the errors of its requests and always resolves.

    The clock is simulated: [Date.now()] reads [now], which only moves
    forward, and a timer set for [wait] ms fires [wait] ms later or later
    still. *)

Definition _minRequestGap_A : Z := 1000.   (* the OpenRouter client *)

(** One run of a task: which one, when it started ([_lastRequestTime] as the
    callback set it) and when [fn()] returned. *)
Record Run : Type := mkRun { task : nat; started : Z; returned : Z }.

Record State : Type := mkState
  { now : Z;
    _lastRequestTime : Z;
    _requestQueue : list nat;
    runs : list Run }.

(** What happens to the scheduler. *)
Inductive Action : Type :=
| Enqueue (fn : nat)
    (** some caller calls [_enqueue(fn)] *)
| Elapse (dt : N)
    (** [dt] ms pass with nothing running *)
| RunNext (late : N) (duration : N).
    (** the oldest pending callback runs: its second reading of the clock
        comes [late] ms after the earliest possible moment, and the task
        returns [duration] ms after it started *)

Definition init (t0 : Z) : State :=
  mkState t0 0 [] [].

(** [_enqueue(fn)]: the callback for [fn] is chained on [_requestQueue]. *)
Definition _enqueue (fn : nat) (s : State) : State :=
  mkState (now s) (_lastRequestTime s) (_requestQueue s ++ [fn])%list (runs s).

(** The callback chained for [fn], from its first reading of the clock to the
    return of [fn()]. *)
Definition callback (minRequestGap : Z) (late duration : N) (fn : nat)
                    (pending : list nat) (s : State) : State :=
  let now0 := now s in
  let wait := minRequestGap - (now0 - _lastRequestTime s) in
  let start := (if 0 <? wait then now0 + wait else now0) + Z.of_N late in
  let finish := start + Z.of_N duration in
  mkState finish start pending (runs s ++ [mkRun fn start finish])%list.

Definition step (minRequestGap : Z) (s : State) (a : Action) : State :=
  match a with
  | Enqueue fn => _enqueue fn s
  | Elapse dt =>
      mkState (now s + Z.of_N dt) (_lastRequestTime s) (_requestQueue s) (runs s)
  | RunNext late duration =>
      match _requestQueue s with
      | [] => s
      | fn :: pending => callback minRequestGap late duration fn pending s
      end
  end.

Definition exec (minRequestGap : Z) (s : State) (acts : list Action) : State :=
  fold_left (step minRequestGap) acts s.

(** The tasks submitted, in submission order. *)
Fixpoint submitted (acts : list Action) : list nat :=
  match acts with
  | [] => []
  | Enqueue fn :: rest => fn :: submitted rest
  | _ :: rest => submitted rest
  end.

(** Consecutive runs do not overlap and start at least [gap] ms apart. *)
Definition Paced (gap : Z) (rs : list Run) : Prop :=
  forall before r1 r2 after,
    rs = (before ++ r1 :: r2 :: after)%list ->
    returned r1 <= started r2 /\ gap <= started r2 - started r1.

(** What the scheduler keeps true: the runs are paced, and the latest of them
    started at [_lastRequestTime] and has returned. *)
Definition Inv (gap : Z) (s : State) : Prop :=
  Paced gap (runs s)
  /\ forall before r, runs s = (before ++ [r])%list ->
                      started r = _lastRequestTime s /\ returned r <= now s.

End Scheduler.

(* ================================================================== *)
(** ** Session store, dialogue-state reducer and the session page *)
(* ================================================================== *)

Module Session.

Inductive Role : Type := User | Assistant.

(** [understanding_signals] of a turn; each list may be absent. *)
Record Signals : Type := mkSignals
  { correct_insights : option (list string);
    misconceptions : option (list string);
    gaps : option (list string) }.

(** The per-turn object the model is asked for; every field may be absent.
    Scores are integers. *)
Record AiData : Type := mkAiData
  { question : option string;
    encouragement : option string;
    understanding_signals : option Signals;
    understanding_score : option Z;
    difficulty_level : option string }.

(** The end-of-session summary object. *)
Record Summary : Type := mkSummary
  { topic_summary : option string;
    overall_understanding : option Z;
    time_well_spent_score : option Z }.

(** [content] of a turn: a string, or the per-turn object. *)
Inductive Content : Type :=
| Text (s : string)
| Data (d : AiData).

Record Turn : Type := mkTurn { role : Role; content : Content }.

Record SessionRec : Type := mkSession
  { id : string;
    topic : string;
    context : string;
    started_at : string;
    ended_at : option string;
    is_active : bool;
    total_exchanges : Z;
    final_understanding_score : Z;
    highest_difficulty : string;
    hints_used : Z;
    summary : option Summary;
    conversation_history : list Turn }.

(** The object literal passed to [Storage.updateSession]: the fields it
    carries. *)
Record Updates : Type := mkUpdates
  { u_conversation_history : option (list Turn);
    u_total_exchanges : option Z;
    u_final_understanding_score : option Z;
    u_highest_difficulty : option string;
    u_hints_used : option Z;
    u_is_active : option bool;
    u_ended_at : option string;
    u_summary : option Summary }.

Definition noUpdates : Updates :=
  mkUpdates None None None None None None None None.

(** The sessions array kept under ['socratic_sessions']. *)
Definition Store : Type := list SessionRec.

Definition orDefault {A : Type} (o : option A) (d : A) : A :=
  match o with Some a => a | None => d end.

(** [Object.assign(session, updates)] *)
Definition assign (s : SessionRec) (u : Updates) : SessionRec :=
  mkSession (id s) (topic s) (context s) (started_at s)
    (match u_ended_at u with Some e => Some e | None => ended_at s end)
    (orDefault (u_is_active u) (is_active s))
    (orDefault (u_total_exchanges u) (total_exchanges s))
    (orDefault (u_final_understanding_score u) (final_understanding_score s))
    (orDefault (u_highest_difficulty u) (highest_difficulty s))
    (orDefault (u_hints_used u) (hints_used s))
    (match u_summary u with Some m => Some m | None => summary s end)
    (orDefault (u_conversation_history u) (conversation_history s)).

(** [Storage.createSession(id, topic, context)], at the time [startedAt]. *)
Definition createSession (sid topic context startedAt : string) (store : Store)
  : SessionRec * Store :=
  let session :=
    mkSession sid topic context startedAt None true 0 0 "foundational" 0 None [] in
  (session, session :: store).

(** [Storage.getSession(id)]: [sessions.find(s => s.id === id) || null] *)
Definition getSession (sid : string) (store : Store) : option SessionRec :=
  find (fun s => String.eqb (id s) sid) store.

(** [Storage.updateSession(id, updates)]: the first session of that id is
    merged with the updates; nothing changes when there is none. *)
Fixpoint updateSession (sid : string) (u : Updates) (store : Store) : Store :=
  match store with
  | [] => []
  | s :: rest =>
      if String.eqb (id s) sid then assign s u :: rest
      else s :: updateSession sid u rest
  end.

(** The variables of the session page. *)
Record Page : Type := mkPage
  { exchangeCount : Z;
    currentDifficulty : string;
    hintsUsed : Z;
    allCorrectInsights : list string;
    allMisconceptions : list string;
    allGaps : list string }.

Definition initialPage : Page := mkPage 0 "foundational" 0 [] [] [].

(** [array.includes(x)] and [array.indexOf(x)] on strings. *)
Definition arrIncludes (l : list string) (x : string) : bool :=
  existsb (String.eqb x) l.

Fixpoint arrIndexOf (l : list string) (x : string) : Z :=
  match l with
  | [] => -1
  | y :: rest =>
      if String.eqb y x then 0
      else let i := arrIndexOf rest x in if i <? 0 then -1 else i + 1
  end.

(** [a || b] on strings and on optional strings: absent and [''] are falsy. *)
Definition strOr (a : string) (b : string) : string :=
  match a with EmptyString => b | _ => a end.

Definition optStrOr (a : option string) (b : string) : string :=
  match a with Some s => strOr s b | None => b end.

(** [a || b] on optional numbers: absent and [0] are falsy. *)
Definition optNumOr (a : option Z) (b : Z) : Z :=
  match a with
  | Some n => if n =? 0 then b else n
  | None => b
  end.

(** [items.forEach(i => { if (!all.includes(i)) all.push(i); })] *)
Definition pushNew (all : list string) (items : list string) : list string :=
  fold_left (fun acc i => if arrIncludes acc i then acc else (acc ++ [i])%list) items all.

(** [updateUI(aiData)], as far as the page variables go. *)
Definition updateUI (aiData : AiData) (p : Page) : Page :=
  let difficulty := optStrOr (difficulty_level aiData) "foundational" in
  let signals := orDefault (understanding_signals aiData) (mkSignals None None None) in
  mkPage (exchangeCount p) difficulty (hintsUsed p)
    (match correct_insights signals with
     | Some items => pushNew (allCorrectInsights p) items
     | None => allCorrectInsights p
     end)
    (match misconceptions signals with
     | Some items => pushNew (allMisconceptions p) items
     | None => allMisconceptions p
     end)
    (match gaps signals with
     | Some items => items
     | None => allGaps p
     end).

Definition difficultyOrder : list string :=
  [ "foundational"; "intermediate"; "advanced"; "mastery" ].

(** What a call of the API client comes to for the page: a result object, or
    a rejected promise. *)
Inductive Outcome (A : Type) : Type :=
| Succeeded (data : A)
| Failed (error : string)
| Rejected.

Arguments Succeeded {A} data.
Arguments Failed {A} error.
Arguments Rejected {A}.

(** The arguments of a call of [GeminiAPI.continueDialogue] or
    [GeminiAPI.generateSessionSummary], and the store as it is persisted at
    the moment of the call. *)
Record Call : Type := mkCall
  { sentTopic : string;
    sentHistory : list Turn;
    sentResponse : string;
    storeAtCall : Store }.

(** The object literal of the success branch of [handleResponse]. *)
Definition responseUpdates (session : SessionRec) (exchanges : Z)
                           (convHistory : list Turn) (aiData : AiData) : Updates :=
  let score := optNumOr (understanding_score aiData) 0 in
  let difficulty := optStrOr (difficulty_level aiData) "foundational" in
  let currentIdx := arrIndexOf difficultyOrder (strOr (highest_difficulty session) "foundational") in
  let newIdx := arrIndexOf difficultyOrder difficulty in
  mkUpdates (Some convHistory) (Some exchanges)
    (Some (Z.max (final_understanding_score session) score))
    (Some (if currentIdx <? newIdx then difficulty else highest_difficulty session))
    None None None None.

(** What a suspended handler holds on to across its [await]: [session] as it
    was read before the call, and the call, whose history is [convHistory]
    with the answer pushed. *)
Record Held : Type := mkHeld
  { heldSession : SessionRec;
    heldCall : Call }.

(** The session page with the calls of [handleResponse] that are pending:
    its variables, the store, and what each suspended handler holds, in the
    order the answers were submitted. *)
Record Running : Type := mkRunning
  { page : Page;
    stored : Store;
    pending : list Held }.

(** What happens on the page: an answer is submitted (the form's [submit],
    which the Enter key dispatches whether or not a call is pending), or the
    call of the [k]-th suspended handler settles.  [data] of a success is the
    per-turn object, or [null] ([None]): the clients hand on whatever
    [JSON.parse] gives, and the text [null] parses. *)
Inductive Happening : Type :=
| Submit (input : string)
| Settle (k : nat) (outcome : Outcome (option AiData)).

(** [array.splice(k, 1)] *)
Fixpoint dropNth {A : Type} (k : nat) (l : list A) : list A :=
  match l, k with
  | [], _ => []
  | _ :: rest, O => rest
  | x :: rest, S k' => x :: dropNth k' rest
  end.

Section Page.

(** [SESSION_ID], from the page's URL. *)
Variable SESSION_ID : string.

(** [handleResponse] up to its [await], for the text in the input box: what
    the handler holds while the call of [GeminiAPI.continueDialogue] is
    pending, if a call is made.  [Storage.getSession] parses the sessions
    anew, so [session] and [convHistory] are copies: pushing onto
    [convHistory] leaves the store alone. *)
Definition handleResponse_submit (input : string) (store : Store) : option Held :=
  let response := Js.trim input in
  match response with
  | EmptyString => None                                     (* if (!response) return; *)
  | _ =>
      match getSession SESSION_ID store with
      | None => None                                        (* TypeError, caught *)
      | Some session =>
          let convHistory := (conversation_history session ++ [mkTurn User (Text response)])%list in
          Some (mkHeld session (mkCall (topic session) convHistory response store))
      end
  end.

(** [handleResponse] from its [await] on, once the call has settled; [p] and
    [store] are the page variables and the store of that moment, [session]
    and [convHistory] are the copies from before the call. *)
Definition handleResponse_settle (held : Held) (outcome : Outcome (option AiData))
                                 (p : Page) (store : Store) : Page * Store :=
  let session := heldSession held in
  let convHistory := sentHistory (heldCall held) in
  match outcome with
  | Succeeded data =>
      (* exchangeCount++ *)
      let p1 := mkPage (exchangeCount p + 1) (currentDifficulty p) (hintsUsed p)
                  (allCorrectInsights p) (allMisconceptions p) (allGaps p) in
      match data with
      | None => (p1, store)               (* aiData.understanding_score: TypeError, caught *)
      | Some aiData =>
          let convHistory' := (convHistory ++ [mkTurn Assistant (Data aiData)])%list in
          let store' :=
            updateSession SESSION_ID
              (responseUpdates session (exchangeCount p1) convHistory' aiData) store in
          (updateUI aiData p1, store')
      end
  | Failed _ =>
      (* Still save the student message *)
      let store' :=
        updateSession SESSION_ID
          (mkUpdates (Some convHistory) None None None None None None None) store in
      (p, store')
  | Rejected => (p, store)                                  (* catch (err) *)
  end.

(** One happening on the page. *)
Definition pageStep (r : Running) (h : Happening) : Running :=
  match h with
  | Submit input =>
      match handleResponse_submit input (stored r) with
      | Some held => mkRunning (page r) (stored r) (pending r ++ [held])%list
      | None => r
      end
  | Settle k outcome =>
      match nth_error (pending r) k with
      | Some held =>
          let '(p', store') := handleResponse_settle held outcome (page r) (stored r) in
          mkRunning p' store' (dropNth k (pending r))
      | None => r
      end
  end.

Definition pageRun (r : Running) (hs : list Happening) : Running :=
  fold_left pageStep hs r.

(** [handleResponse] run from the submit to its end with nothing else
    happening on the page while the call is pending.  [api] is what the call
    comes to.  The result is the page, the store, and the call if one was
    made. *)
Definition handleResponse (api : Call -> Outcome (option AiData)) (input : string)
                          (p : Page) (store : Store)
  : Page * Store * option Call :=
  match handleResponse_submit input store with
  | None => (p, store, None)
  | Some held =>
      let '(p', store') := handleResponse_settle held (api (heldCall held)) p store in
      (p', store', Some (heldCall held))
  end.

(** [handleEndSession] up to its [await]. *)
Definition handleEndSession_submit (store : Store) : option Held :=
  match getSession SESSION_ID store with
  | None => None                                            (* TypeError, caught *)
  | Some session =>
      let convHistory := conversation_history session in
      Some (mkHeld session (mkCall (topic session) convHistory EmptyString store))
  end.

(** [handleEndSession] from its [await] on, at the time [endedAt]; [store] is
    the store of that moment.  A summary that is [null] throws at
    [summaryResult.data.overall_understanding], before the store is written.
    (The statistics record and the redirect to the review page are left
    out.) *)
Definition handleEndSession_settle (held : Held) (outcome : Outcome (option Summary))
                                   (endedAt : string) (store : Store) : Store :=
  let session := heldSession held in
  match outcome with
  | Rejected => store                                       (* catch (err) *)
  | Succeeded None => store                                 (* TypeError, caught *)
  | Succeeded (Some data) =>
      updateSession SESSION_ID
        (mkUpdates None None
           (Some (optNumOr (overall_understanding data) (final_understanding_score session)))
           None None (Some false) (Some endedAt) (Some data))
        store
  | Failed _ =>
      updateSession SESSION_ID
        (mkUpdates None None None None None (Some false) (Some endedAt) None) store
  end.

(** [handleEndSession] run to its end with nothing else happening on the
    page while the call of [GeminiAPI.generateSessionSummary] is pending. *)
Definition handleEndSession (api : Call -> Outcome (option Summary)) (endedAt : string)
                            (store : Store) : Store * option Call :=
  match handleEndSession_submit store with
  | None => (store, None)
  | Some held =>
      (handleEndSession_settle held (api (heldCall held)) endedAt store,
       Some (heldCall held))
  end.

(** A session in which each call settles before the next answer is
    submitted: each turn is the text submitted and what the call comes to. *)
Fixpoint playTurns (turns : list (string * Outcome (option AiData))) (p : Page) (store : Store)
  : Page * Store :=
  match turns with
  | [] => (p, store)
  | (input, outcome) :: rest =>
      let '(p', store', _) := handleResponse (fun _ => outcome) input p store in
      playTurns rest p' store'
  end.

(** The same session as happenings on the page. *)
Definition oneAtATime (turns : list (string * Outcome (option AiData))) : list Happening :=
  flat_map (fun turn => [Submit (fst turn); Settle 0 (snd turn)]) turns.

End Page.

(** Position of a session's [highest_difficulty] in [difficultyOrder], read
    the way [handleResponse] reads it. *)
Definition rank (s : SessionRec) : Z :=
  arrIndexOf difficultyOrder (strOr (highest_difficulty s) "foundational").

(** The user turn with this text is in the persisted history of the session
    at the moment of the call. *)
Definition userTurnPersistedAtCall (sid response : string) (c : Call) : Prop :=
  exists s, getSession sid (storeAtCall c) = Some s
            /\ In (mkTurn User (Text response)) (conversation_history s).


(** Sample data: a store with one fresh session on recursion; per-turn
    objects with a score and a difficulty; a summary with a score. *)
Definition sampleStore : Store :=
  snd (createSession "s1" "Recursion" EmptyString "2024-01-01T00:00:00.000Z" []).

Definition turnData (score : Z) (difficulty : string) : AiData :=
  mkAiData (Some "Why?") None None (Some score) (Some difficulty).

Definition summaryData (score : Z) : Summary :=
  mkSummary (Some "Recursion.") (Some score) None.

(** The sample session after one answer [a] met with a turn of score 20 at
    the advanced level. *)
Definition sampleAfterAdvanced : SessionRec :=
  mkSession "s1" "Recursion" EmptyString "2024-01-01T00:00:00.000Z" None true
    1 20 "advanced" 0 None
    [ mkTurn User (Text "a"); mkTurn Assistant (Data (turnData 20 "advanced")) ].





(** The sample session after two turns, of scores 20 and 65. *)
Definition sampleStore65 : Store :=
  snd (playTurns "s1"
         [ ("a", Succeeded (Some (turnData 20 "foundational")));
           ("b", Succeeded (Some (turnData 65 "intermediate"))) ]
         initialPage sampleStore).

(** Score and activity of the sample session in a store. *)
Definition scoreAndActivity (store : Store) : option (Z * bool) :=
  option_map (fun s => (final_understanding_score s, is_active s)) (getSession "s1" store).

(** *** More of the storage service and of the pages *)

(** [Storage.deleteSession(id)]: [sessions.filter(s => s.id !== id)] *)
Definition deleteSession (sid : string) (store : Store) : Store :=
  filter (fun s => negb (String.eqb (id s) sid)) store.

Definition placeholderKey : string := "your_gemini_api_key_here".

(** [Storage.isApiKeyConfigured()]:
    [!!key && key !== 'your_gemini_api_key_here'] *)
Definition isApiKeyConfigured (key : string) : bool :=
  match key with
  | EmptyString => false
  | _ => negb (String.eqb key placeholderKey)
  end.

(** [handleStartSession] of the landing page; [apiKey] is the stored key,
    [api] what the call of [GeminiAPI.startSession(topic, context)] comes to,
    [sessionId] the fresh identifier and [startedAt] the time.  The result is
    the store and the session the page navigates to, if any. *)
Definition handleStartSession (apiKey : string)
    (api : string -> string -> Outcome AiData) (sessionId startedAt : string)
    (topicInput contextInput : string) (store : Store) : Store * option string :=
  if negb (isApiKeyConfigured apiKey) then (store, None)
  else
    let topic := Js.trim topicInput in
    let context := Js.trim contextInput in
    match topic with
    | EmptyString => (store, None)                          (* if (!topic) return; *)
    | _ =>
        match api topic context with
        | Succeeded aiData =>
            let '(_, store1) := createSession sessionId topic context startedAt store in
            (updateSession sessionId
               (mkUpdates (Some [mkTurn Assistant (Data aiData)])
                          None None None None None None None) store1,
             Some sessionId)
        | _ => (store, None)
        end
    end.

(** A per-turn object without any field: what [updateUI] reads off a content
    that is a string. *)
Definition noData : AiData := mkAiData None None None None None.

Definition isAssistant (t : Turn) : bool :=
  match role t with Assistant => true | User => false end.

(** [[...history].reverse().find(e => e.role === 'assistant')] *)
Definition lastAssistant (history : list Turn) : option Turn :=
  find isAssistant (rev history).

(** The question of a turn's content, as [handleHint] reads it:
    [typeof content === 'object' ? (content.question || '') : content] *)
Definition questionOf (c : Content) : string :=
  match c with
  | Data d => optStrOr (question d) EmptyString
  | Text s => s
  end.

(** What a successful hint call carries in [data]: an object with its [hint],
    or something falsy. *)
Definition HintData : Type := option (option string).

Section MorePage.

Variable SESSION_ID : string.

(** [loadSession()], as far as the page variables go. *)
Definition loadSession (p : Page) (store : Store) : Page :=
  match getSession SESSION_ID store with
  | None => p
  | Some session =>
      let p1 := mkPage (total_exchanges session) (currentDifficulty p) (hints_used session)
                  (allCorrectInsights p) (allMisconceptions p) (allGaps p) in
      match lastAssistant (conversation_history session) with
      | Some lastAI =>
          match content lastAI with
          | Text EmptyString => p1                          (* falsy content *)
          | Text _ => updateUI noData p1
          | Data d => updateUI d p1
          end
      | None => p1
      end
  end.

(** [handleHint()]; [api] is what the call of [GeminiAPI.getHint] comes to,
    the current question going in [sentResponse]. *)
Definition handleHint (api : Call -> Outcome HintData) (p : Page) (store : Store)
  : Page * Store * option Call :=
  match getSession SESSION_ID store with
  | None => (p, store, None)
  | Some session =>
      let convHistory := conversation_history session in
      let currentQuestion :=
        match lastAssistant convHistory with
        | Some t => questionOf (content t)
        | None => EmptyString
        end in
      let call := mkCall (topic session) convHistory currentQuestion store in
      match api call with
      | Succeeded (Some _) =>
          let p1 := mkPage (exchangeCount p) (currentDifficulty p) (hintsUsed p + 1)
                      (allCorrectInsights p) (allMisconceptions p) (allGaps p) in
          (p1,
           updateSession SESSION_ID
             (mkUpdates None None None None (Some (hintsUsed p1)) None None None) store,
           Some call)
      | _ => (p, store, Some call)
      end
  end.

End MorePage.

(** Whether a turn of [playTurns] is a completed exchange (a non-blank
    answer met with an object), a success that carries [null], or an answer
    whose call failed. *)
Definition isBlank (input : string) : bool :=
  match Js.trim input with EmptyString => true | _ => false end.

Definition completed (turn : string * Outcome (option AiData)) : bool :=
  match turn with
  | (input, Succeeded (Some _)) => negb (isBlank input)
  | _ => false
  end.

Definition nullSuccess (turn : string * Outcome (option AiData)) : bool :=
  match turn with
  | (input, Succeeded None) => negb (isBlank input)
  | _ => false
  end.

Definition failedTurn (turn : string * Outcome (option AiData)) : bool :=
  match turn with
  | (input, Failed _) => negb (isBlank input)
  | _ => false
  end.

Definition countZ {A : Type} (f : A -> bool) (l : list A) : Z :=
  Z.of_nat (List.length (filter f l)).

(** The running maximum of the scores of the completed exchanges. *)
Definition bestScore (turns : list (string * Outcome (option AiData))) (start : Z) : Z :=
  fold_left
    (fun best turn =>
       match turn with
       | (input, Succeeded (Some aiData)) =>
           if isBlank input then best
           else Z.max best (optNumOr (understanding_score aiData) 0)
       | _ => best
       end)
    turns start.

(** The filter buttons of the history page: [renderSessions(filter)] keeps
    the active sessions for ['active'], the ended ones for ['completed'], and
    all of them otherwise. *)
Definition renderSessions (filterName : string) (allSessions : list SessionRec)
  : list SessionRec :=
  let sessions := allSessions in
  let sessions :=
    if String.eqb filterName "active" then filter is_active allSessions else sessions in
  let sessions :=
    if String.eqb filterName "completed"
    then filter (fun s => negb (is_active s)) allSessions else sessions in
  sessions.

End Session.

(* ================================================================== *)
(** ** What the API client sends: [continueDialogue], [generateSessionSummary] *)
(* ================================================================== *)

Module Client.

Import Session.

(** One entry of the outbound [messages] (OpenRouter) or [contents] (Gemini,
    where the text sits in [parts: [{ text }]]). *)
Record Message : Type := mkMessage { m_role : string; m_text : string }.

Definition _maxHistory : nat := 10.

(** [array.slice(-k)]: the last [k] elements, all of them when there are
    fewer. *)
Definition sliceLast {A : Type} (k : nat) (l : list A) : list A :=
  skipn (List.length l - k) l.

Definition dq : string := ParserSamples.dq.

(** The text [{"question":"Let's explore this."}]. *)
Definition openingStub : string :=
  "{" ++ dq ++ "question" ++ dq ++ ":" ++ dq ++ "Let's explore this." ++ dq ++ "}".

Definition nl : string := Parser.newline.

Section Stringify.

(** [JSON.stringify] on a per-turn object. *)
Variable JSON_stringify : AiData -> string.

(** [String(entry.content)] *)
Definition stringOf (c : Content) : string :=
  match c with
  | Text s => s
  | Data _ => "[object Object]"
  end.

(** The body of the loop [for (const entry of trimmed)] of
    [continueDialogue]; [assistantRole] is ['assistant'] for OpenRouter and
    ['model'] for Gemini. *)
Definition renderEntry (assistantRole : string) (entry : Turn) : Message :=
  match role entry with
  | Assistant =>
      let q := match content entry with
               | Data d => optStrOr (question d) (JSON_stringify d)
               | Text s => s
               end in
      mkMessage assistantRole q
  | User => mkMessage "user" (stringOf (content entry))
  end.

(** [continueDialogue(topic, conversationHistory, studentResponse)]: the
    messages it hands to [_callAPI] or [_callGemini]. *)
Definition continueDialogueWith (assistantRole : string) (topic : string)
    (conversationHistory : list Turn) (studentResponse : string) : list Message :=
  let trimmed := sliceLast _maxHistory conversationHistory in
  ([ mkMessage "user" ("Topic: " ++ topic);
     mkMessage assistantRole openingStub ]
   ++ map (renderEntry assistantRole) trimmed
   ++ [ mkMessage "user" studentResponse ])%list.

Definition continueDialogue_A := continueDialogueWith "assistant".
Definition continueDialogue_B := continueDialogueWith "model".

(** [_buildMessages(systemPrompt, contents)] for an array of turns. *)
Definition _buildMessages (systemPrompt : string) (contents : list Message)
  : list Message :=
  ((match systemPrompt with
    | EmptyString => []
    | _ => [ mkMessage "system" systemPrompt ]
    end) ++ contents)%list.

(** One line of the summary prompt:
    [`${r}: ${c}\n`] with [r] = ['Q'] or ['A'] and
    [c = typeof e.content === 'object' ? (e.content.question || '') : String(e.content)] *)
Definition summaryLine (e : Turn) : string :=
  let r := match role e with Assistant => "Q" | User => "A" end in
  let c := match content e with
           | Data d => optStrOr (question d) EmptyString
           | Text s => s
           end in
  r ++ ": " ++ c ++ nl.

(** [generateSessionSummary(topic, conversationHistory)]: the prompt [ctx],
    the same in both clients. *)
Definition generateSessionSummary (topic : string) (conversationHistory : list Turn)
  : string :=
  let trimmed := sliceLast 12 conversationHistory in
  fold_left (fun ctx e => ctx ++ summaryLine e) trimmed ("Topic: " ++ topic ++ nl).

End Stringify.

(** Sample data: fifteen turns, alternately an assistant's question and a
    user's answer, and the last ten and the first five of them. *)
Definition sampleTurn (n : nat) : Session.Turn :=
  if Nat.even n
  then Session.mkTurn Session.Assistant (Session.Text "Why?")
  else Session.mkTurn Session.User (Session.Text "Because.").

Definition sampleRecent : list Session.Turn := map sampleTurn (seq 5 10).
Definition sampleOlder : list Session.Turn := map sampleTurn (seq 0 5).

(** [getHint(topic, conversationHistory, currentQuestion)] of the two
    fallback clients: the prompt [ctx].  Its lines read the content with
    [typeof e.content === 'string' ? e.content : (e.content.question || '')]. *)
Definition hintLine (e : Session.Turn) : string :=
  let r := match Session.role e with Session.Assistant => "Q" | Session.User => "A" end in
  let c := match Session.content e with
           | Session.Text s => s
           | Session.Data d => Session.optStrOr (Session.question d) EmptyString
           end in
  r ++ ": " ++ c ++ nl.

Definition getHint (topic : string) (conversationHistory : list Session.Turn)
                   (currentQuestion : string) : string :=
  let recent := sliceLast 4 conversationHistory in
  fold_left (fun ctx e => ctx ++ hintLine e) recent
            ("Topic: " ++ topic ++ nl ++ "Question: " ++ currentQuestion ++ nl).

End Client.

(* ================================================================== *)
(** * Properties *)
(* ================================================================== *)

(** ** Strings *)

Module JsFacts.

Import Js.

Lemma append_assoc (a b c : string) : (a ++ b) ++ c = a ++ (b ++ c).
Proof. induction a as [|x a IH]; simpl; [reflexivity | now rewrite IH]. Qed.

Lemma append_empty_r (a : string) : a ++ EmptyString = a.
Proof. induction a as [|x a IH]; simpl; [reflexivity | now rewrite IH]. Qed.

Lemma length_append (a b : string) :
  String.length (a ++ b) = (String.length a + String.length b)%nat.
Proof. induction a as [|x a IH]; simpl; [reflexivity | now rewrite IH]. Qed.

Lemma len_append (a b : string) : len (a ++ b) = len a + len b.
Proof. unfold len. rewrite length_append. lia. Qed.

Lemma len_nonneg (a : string) : 0 <= len a.
Proof. unfold len. lia. Qed.

Lemma drop_append (a b : string) : drop (String.length a) (a ++ b) = b.
Proof. induction a as [|x a IH]; simpl; [now destruct b | exact IH]. Qed.

Lemma take_append (a b : string) : take (String.length a) (a ++ b) = a.
Proof. induction a as [|x a IH]; simpl; [reflexivity | now rewrite IH]. Qed.

Lemma substring_append (a b : string) : substring (a ++ b) (len a) = b.
Proof.
  unfold substring, len. rewrite Z.max_r by lia.
  rewrite Nat2Z.id. apply drop_append.
Qed.

Lemma endsWith_append (a suffix : string) : endsWith (a ++ suffix) suffix = true.
Proof.
  unfold endsWith. rewrite len_append.
  replace (len a + len suffix - len suffix) with (len a) by lia.
  rewrite substring_append, String.eqb_refl.
  pose proof (len_nonneg a).
  rewrite andb_true_r. apply Z.leb_le. lia.
Qed.

Lemma slice0_append (a b : string) :
  slice0 (a ++ b) (Z.opp (len b)) = a \/ b = EmptyString.
Proof.
  destruct b as [|c b]; [now right | left].
  unfold slice0. rewrite len_append.
  assert (H : (- len (String c b) <? 0) = true).
  { apply Z.ltb_lt. unfold len. simpl String.length. lia. }
  rewrite H. pose proof (len_nonneg a).
  rewrite Z.max_r by lia.
  replace (len a + len (String c b) + - len (String c b)) with (len a) by lia.
  unfold len. rewrite Nat2Z.id. apply take_append.
Qed.

Lemma trimEnd_snoc (s : string) (c : ascii) :
  isWhiteSpace c = false ->
  trimEnd (s ++ String c EmptyString) = s ++ String c EmptyString.
Proof.
  intros Hc. induction s as [|x s IH]; simpl.
  - now rewrite Hc.
  - rewrite IH. destruct s; reflexivity.
Qed.

(** A text that neither starts nor ends with white space is its own trim. *)
Lemma trim_solid (c d : ascii) (s : string) :
  isWhiteSpace c = false -> isWhiteSpace d = false ->
  trim (String c (s ++ String d EmptyString)) = String c (s ++ String d EmptyString).
Proof.
  intros Hc Hd. unfold trim. simpl trimStart. rewrite Hc.
  change (String c (s ++ String d EmptyString))
    with (String c s ++ String d EmptyString).
  now apply trimEnd_snoc.
Qed.

Lemma prefix_empty (s : string) : String.prefix EmptyString s = true.
Proof. now destruct s. Qed.

Lemma indexOf_skip (c n : ascii) (r : string) :
  c <> n ->
  indexOf (String c r) (String n EmptyString)
  = (let i := indexOf r (String n EmptyString) in if i <? 0 then -1 else i + 1).
Proof.
  intros Hne. simpl.
  destruct (ascii_dec n c) as [E|_]; [now subst|]. reflexivity.
Qed.

Lemma indexOf_here (n : ascii) (r : string) :
  indexOf (String n r) (String n EmptyString) = 0.
Proof.
  simpl. destruct (ascii_dec n n) as [_|E]; [|now elim E].
  now rewrite prefix_empty.
Qed.

Lemma indexOf_unfold (s needle : string) :
  indexOf s needle
  = if String.prefix needle s then 0
    else match s with
         | EmptyString => -1
         | String _ r => let i := indexOf r needle in if i <? 0 then -1 else i + 1
         end.
Proof. destruct s; reflexivity. Qed.

Lemma indexOf_lower_bound (s needle : string) : -1 <= indexOf s needle.
Proof.
  induction s as [|c s IH]; rewrite indexOf_unfold.
  - destruct (String.prefix needle EmptyString); lia.
  - destruct (String.prefix needle (String c s)); [lia|]. cbv zeta.
    destruct (indexOf s needle <? 0) eqn:E; [lia|].
    apply Z.ltb_ge in E. lia.
Qed.

(** The first occurrence of a character after a prefix that is free of it. *)
Lemma indexOf_after (n : ascii) (info rest : string) :
  includes info (String n EmptyString) = false ->
  indexOf (info ++ String n rest) (String n EmptyString) = len info.
Proof.
  induction info as [|c info IH]; intros Hfree.
  - simpl append. now rewrite indexOf_here.
  - destruct (ascii_dec c n) as [->|Hne].
    + unfold includes in Hfree. now rewrite indexOf_here in Hfree.
    + unfold includes in Hfree. rewrite indexOf_skip in Hfree by exact Hne.
      simpl append. rewrite indexOf_skip by exact Hne.
      cbv zeta in *.
      destruct (indexOf info (String n EmptyString) <? 0) eqn:Hneg.
      * rewrite IH.
        -- pose proof (len_nonneg info).
           destruct (len info <? 0) eqn:Hl; [apply Z.ltb_lt in Hl; lia|].
           unfold len. simpl String.length. lia.
        -- unfold includes. apply Z.leb_gt. now apply Z.ltb_lt.
      * apply Z.ltb_ge in Hneg. apply Z.leb_gt in Hfree. lia.
Qed.

End JsFacts.

(** ** ResponseParser *)

Module ParserFacts.

Import Js JsFacts Json Parser ParserSamples.

Lemma trim_fenced (x : string) : trim (fence ++ x ++ fence) = fence ++ x ++ fence.
Proof.
  replace (fence ++ x ++ fence)
    with (String backtick (("``" ++ x ++ "``") ++ String backtick EmptyString)).
  - apply trim_solid; reflexivity.
  - rewrite !append_assoc. reflexivity.
Qed.

(** The opening fence line -- the fence, an info string and the line break --
    is dropped. *)
Lemma stripLeading_fenced (info rest : string) :
  includes info newline = false ->
  stripLeading (fence ++ info ++ newline ++ rest) = rest.
Proof.
  intros Hinfo. unfold stripLeading.
  assert (Hstart : startsWith (fence ++ info ++ newline ++ rest) fence = true).
  { unfold startsWith, fence. simpl.
    repeat (destruct (ascii_dec _ _) as [_|E]; [|now elim E]).
    apply prefix_empty. }
  rewrite Hstart.
  assert (Hidx : indexOf (fence ++ info ++ newline ++ rest) newline
                 = len (fence ++ info)).
  { rewrite <- append_assoc.
    change (newline ++ rest) with (String newlineChar rest).
    apply (indexOf_after newlineChar).
    unfold includes in *. apply Z.leb_gt. apply Z.leb_gt in Hinfo.
    unfold fence. simpl append.
    change newline with (String newlineChar EmptyString) in *.
    rewrite !indexOf_skip by discriminate. cbv zeta.
    destruct (indexOf info (String newlineChar EmptyString) <? 0) eqn:Hneg;
      [reflexivity | apply Z.ltb_ge in Hneg; lia]. }
  rewrite Hidx.
  replace (fence ++ info ++ newline ++ rest)
    with (((fence ++ info) ++ newline) ++ rest)
    by now rewrite !append_assoc.
  replace (len (fence ++ info) + 1) with (len ((fence ++ info) ++ newline))
    by (rewrite len_append; reflexivity).
  apply substring_append.
Qed.

(** A text that starts with a fence and has no line break has no fence line
    to drop: it is left as it is. *)
Lemma stripLeading_one_line (c : string) :
  includes c newline = false -> stripLeading c = c.
Proof.
  intros H. unfold stripLeading. destruct (startsWith c fence); [|reflexivity].
  unfold includes in H. apply Z.leb_gt in H.
  pose proof (indexOf_lower_bound c newline).
  replace (indexOf c newline + 1) with 0 by lia. reflexivity.
Qed.

(** The closing fence is dropped and what is before it trimmed. *)
Lemma stripTrailing_fenced (body : string) :
  stripTrailing (body ++ fence) = trim body.
Proof.
  unfold stripTrailing. rewrite endsWith_append.
  destruct (slice0_append body fence) as [H|H]; [|discriminate H].
  change (Z.opp (len fence)) with (-3) in H. now rewrite H.
Qed.

(** Normalisation of a fenced block. *)
Lemma normalize_fenced (info body : string) :
  includes info newline = false ->
  normalize (fence ++ info ++ newline ++ body ++ fence) = trim body.
Proof.
  intros Hinfo. unfold normalize.
  replace (fence ++ info ++ newline ++ body ++ fence)
    with (fence ++ (info ++ newline ++ body) ++ fence)
    by now rewrite !append_assoc.
  rewrite (trim_fenced (info ++ newline ++ body)).
  replace (fence ++ (info ++ newline ++ body) ++ fence)
    with (fence ++ info ++ newline ++ body ++ fence)
    by now rewrite !append_assoc.
  rewrite (stripLeading_fenced info (body ++ fence) Hinfo).
  apply stripTrailing_fenced.
Qed.

(** C8. [_parseJSON] trims the text, strips a leading fence, strips a
    trailing fence, and hands the rest to [JSON.parse].  Stripping a leading
    fence drops the opening fence line (fence, info string, line break) and
    leaves a text that does not start with a fence alone; stripping a
    trailing fence drops the closing fence, trims what is before it, and
    leaves a text that does not end with a fence alone.  So of a fenced block
    the trimmed body is parsed.  On the three sample texts [_parseJSON]
    returns the object [{a:1}], the same object, and fails. *)
Theorem C8_parseJSON_strips_fences :
  (forall text,
      _parseJSON text = Json.parse (stripTrailing (stripLeading (trim text))))
  /\ (forall info rest,
         includes info newline = false ->
         stripLeading (fence ++ info ++ newline ++ rest) = rest)
  /\ (forall c, startsWith c fence = false -> stripLeading c = c)
  /\ (forall body, stripTrailing (body ++ fence) = trim body)
  /\ (forall c, endsWith c fence = false -> stripTrailing c = c)
  /\ (forall info body,
         includes info newline = false ->
         _parseJSON (fence ++ info ++ newline ++ body ++ fence) = Json.parse (trim body))
  /\ _parseJSON fenced_object_a_1 = Some (JObject [("a", JNumber 1 0)])
  /\ _parseJSON object_a_1 = Some (JObject [("a", JNumber 1 0)])
  /\ _parseJSON "not json" = None.
Proof.
  repeat apply conj.
  - reflexivity.
  - apply stripLeading_fenced.
  - intros c H. unfold stripLeading. now rewrite H.
  - apply stripTrailing_fenced.
  - intros c H. unfold stripTrailing. now rewrite H.
  - intros info body H. unfold _parseJSON. now rewrite normalize_fenced.
  - vm_compute. reflexivity.
  - vm_compute. reflexivity.
  - vm_compute. reflexivity.
Qed.

Lemma C8_parseJSON_witness :
  includes "json" newline = false
  /\ _parseJSON (fence ++ "json" ++ newline ++ ("  [1, 2] " ++ newline) ++ fence)
     = Json.parse (trim ("  [1, 2] " ++ newline))
  /\ startsWith "[true]" fence = false
  /\ stripLeading "[true]" = "[true]".
Proof.
  split; [reflexivity|].
  split; [apply (proj1 (proj2 (proj2 (proj2 (proj2 (proj2 C8_parseJSON_strips_fences))))));
          reflexivity|].
  split; [reflexivity|].
  apply (proj1 (proj2 (proj2 C8_parseJSON_strips_fences))). reflexivity.
Defined.

End ParserFacts.

(** ** RequestScheduler *)

Module SchedulerFacts.

Import Scheduler.

(** The runs so far followed by the pending callbacks are the tasks in the
    order they were submitted. *)
Lemma exec_fifo (gap : Z) (acts : list Action) (s : State) :
  (map task (runs (exec gap s acts)) ++ _requestQueue (exec gap s acts)
   = map task (runs s) ++ _requestQueue s ++ submitted acts)%list.
Proof.
  revert s. induction acts as [|a acts IH]; intros s; simpl.
  - now rewrite app_nil_r.
  - unfold exec in *. rewrite IH. destruct a as [fn|dt|late duration]; simpl.
    + now rewrite <- !app_assoc.
    + reflexivity.
    + destruct (_requestQueue s) as [|fn pending] eqn:E; simpl; [now rewrite E|].
      rewrite map_app. simpl. now rewrite <- !app_assoc.
Qed.

Lemma Inv_init (gap t0 : Z) : Inv gap (init t0).
Proof.
  split.
  - intros before r1 r2 after H. now destruct before.
  - intros before r H. now destruct before.
Qed.

Lemma Inv_step (gap : Z) (s : State) (a : Action) :
  Inv gap s -> Inv gap (step gap s a).
Proof.
  intros [Hpaced Hlast]. destruct a as [fn|dt|late duration]; simpl.
  - split; [exact Hpaced | exact Hlast].
  - split; [exact Hpaced|]. intros before r H. simpl in *.
    destruct (Hlast before r H) as [H1 H2]. split; [exact H1 | lia].
  - destruct (_requestQueue s) as [|fn pending]; [now split|].
    split; simpl.
    + intros before r1 r2 after H.
      destruct (exists_last (l := r1 :: r2 :: after)) as [front [x Hx]]; [discriminate|].
      rewrite Hx, app_assoc in H. apply app_inj_tail in H. destruct H as [H <-].
      destruct after as [|y after].
      * assert (front = [r1]) as ->.
        { change [r1; r2] with ([r1] ++ [r2])%list in Hx.
          now apply app_inj_tail in Hx. }
        change [r1; r2] with ([r1] ++ [r2])%list in Hx.
        apply app_inj_tail in Hx. destruct Hx as [_ ->].
        destruct (Hlast before r1 H) as [H1 H2]. simpl.
        rewrite H1.
        destruct (0 <? gap - (now s - _lastRequestTime s)) eqn:Hw;
          [apply Z.ltb_lt in Hw | apply Z.ltb_ge in Hw]; lia.
      * destruct (exists_last (l := y :: after)) as [front' [x' Hx']]; [discriminate|].
        rewrite Hx' in Hx.
        change (r1 :: r2 :: front' ++ [x'])%list
          with ((r1 :: r2 :: front') ++ [x'])%list in Hx.
        apply app_inj_tail in Hx. destruct Hx as [<- _].
        apply (Hpaced before r1 r2 front'). now rewrite H.
    + intros before r H. apply app_inj_tail in H. destruct H as [_ <-].
      simpl. lia.
Qed.

Lemma Inv_exec (gap : Z) (acts : list Action) (s : State) :
  Inv gap s -> Inv gap (exec gap s acts).
Proof.
  revert s. induction acts as [|a acts IH]; intros s H; simpl; [exact H|].
  apply IH. now apply Inv_step.
Qed.


(** Three tasks submitted at once at time 5000 to the OpenRouter client: the
    first starts at once, the second a full gap after the first although the
    first returned after 200 ms, the third as soon as the second returns. *)
Example three_tasks :
  runs (exec _minRequestGap_A (init 5000)
          [Enqueue 7; Enqueue 8; Enqueue 9; RunNext 0 200; RunNext 0 3000; RunNext 0 10])
  = [mkRun 7 5000 5200; mkRun 8 6000 9000; mkRun 9 9000 9010].
Proof. reflexivity. Qed.

End SchedulerFacts.

(** ** ModelFallbackInvoker *)

Module InvokerFacts.

Import Json Invoker.

Lemma throttled_inv (r : Reply) :
  throttled r = true ->
  exists status message,
    r = Failed status message
    /\ _isRateLimitError status (errMsgOf status message) = true.
Proof.
  destruct r as [m|t|status message]; simpl; try discriminate.
  intros H. now exists status, message.
Qed.

Lemma isRateLimitError_429 (msg : string) : _isRateLimitError 429 msg = true.
Proof. reflexivity. Qed.

Lemma isRateLimitError_vocabulary (status : Z) (msg : string) :
  Js.includes (Js.toLowerCase msg) "quota" = true
  \/ Js.includes (Js.toLowerCase msg) "rate" = true
  \/ Js.includes (Js.toLowerCase msg) "resource_exhausted" = true ->
  _isRateLimitError status msg = true.
Proof.
  intros H. unfold _isRateLimitError.
  destruct (status =? 429); [reflexivity|].
  destruct H as [H|[H|H]]; rewrite H.
  - reflexivity.
  - now rewrite orb_true_r.
  - now rewrite orb_true_r.
Qed.

Section Runs.

Variable fetch : nat -> string -> Reply.
Variable syntaxErrorMessage : string -> string.
Variable typeErrorMessage : string.

#[local] Abbreviation attemptsA := (attempts fetch syntaxErrorMessage).
#[local] Abbreviation runA := (tryModelsA fetch syntaxErrorMessage).
#[local] Abbreviation runB := (tryModelsB fetch syntaxErrorMessage typeErrorMessage).

Lemma tryModelsA_cons (model : string) (rest : list string) (n : nat) (lastError : string) :
  runA (model :: rest) n lastError
  = match attemptsA (Z.to_nat _maxRetries) 1 model n lastError with
    | (Return r, _, n', evs) => (r, n', evs)
    | (Break, lastError', n', evs) =>
        let '(r, n'', evs') := runA rest n' lastError' in
        (r, n'', (evs ++ evs')%list)
    end.
Proof. reflexivity. Qed.

(** One throttled attempt of policy A that is not the last: the event is
    published, the invoker waits [backoff attempt] ms and asks the same model
    again. *)
Lemma attempts_throttled_retry (todo : nat) (attempt : Z) (model : string)
      (n : nat) (lastError : string) (status : Z) (message : string) :
  fetch n model = Failed status message ->
  _isRateLimitError status (errMsgOf status message) = true ->
  attempt < _maxRetries ->
  attemptsA (S todo) attempt model n lastError
  = (let '(ex, le, n', evs) :=
       attemptsA todo (attempt + 1) model (S n) (errMsgOf status message) in
     (ex, le, n',
      Fetch model :: Notify (ceilDiv (backoff attempt) 1000) model attempt
        :: Sleep (backoff attempt) :: evs)).
Proof.
  intros Hf Hr Ha. simpl. rewrite Hf, Hr.
  apply Z.ltb_lt in Ha. now rewrite Ha.
Qed.

(** The last throttled attempt: on to the next model, without a wait. *)
Lemma attempts_throttled_last (todo : nat) (attempt : Z) (model : string)
      (n : nat) (lastError : string) (status : Z) (message : string) :
  fetch n model = Failed status message ->
  _isRateLimitError status (errMsgOf status message) = true ->
  _maxRetries <= attempt ->
  attemptsA (S todo) attempt model n lastError
  = (Break, errMsgOf status message, S n, [Fetch model]).
Proof.
  intros Hf Hr Ha. simpl. rewrite Hf, Hr.
  apply Z.ltb_ge in Ha. now rewrite Ha.
Qed.

(** A model throttled on three attempts in a row under policy A. *)
Lemma attempts_all_throttled (model : string) (n : nat) (lastError : string) :
  throttled (fetch n model) = true ->
  throttled (fetch (S n) model) = true ->
  throttled (fetch (S (S n)) model) = true ->
  exists lastError',
    attemptsA (Z.to_nat _maxRetries) 1 model n lastError
    = (Break, lastError', S (S (S n)), throttledBlockA model).
Proof.
  intros H1 H2 H3.
  apply throttled_inv in H1. destruct H1 as (s1 & m1 & F1 & R1).
  apply throttled_inv in H2. destruct H2 as (s2 & m2 & F2 & R2).
  apply throttled_inv in H3. destruct H3 as (s3 & m3 & F3 & R3).
  exists (errMsgOf s3 m3).
  change (Z.to_nat _maxRetries) with 3%nat.
  rewrite (attempts_throttled_retry _ _ _ _ _ _ _ F1 R1) by reflexivity.
  change (1 + 1) with 2.
  rewrite (attempts_throttled_retry _ _ _ _ _ _ _ F2 R2) by reflexivity.
  change (2 + 1) with 3.
  rewrite (attempts_throttled_last _ _ _ _ _ _ _ F3 R3) by reflexivity.
  reflexivity.
Qed.

(** Every reply a throttle signal: policy A works through the whole list,
    three attempts and two waits per model. *)
Lemma tryModelsA_all_throttled (models : list string) (n : nat) (lastError : string) :
  (forall k model, throttled (fetch k model) = true) ->
  exists lastError',
    runA models n lastError
    = (Failure (exhaustedA lastError'), (n + 3 * List.length models)%nat,
       flat_map throttledBlockA models).
Proof.
  intros Hall. revert n lastError.
  induction models as [|model rest IH]; intros n lastError.
  - exists lastError. simpl. f_equal. f_equal. lia.
  - destruct (attempts_all_throttled model n lastError) as [le Hle]; try apply Hall.
    destruct (IH (S (S (S n))) le) as [le' Hle'].
    exists le'. rewrite tryModelsA_cons, Hle, Hle'. simpl flat_map.
    f_equal. f_equal. simpl List.length. lia.
Qed.

(** One throttled model under policy B: the event is published with a wait of
    zero and the next model is asked at once. *)
Lemma tryModelsB_throttled (preferred model : string) (rest : list string)
      (n : nat) (lastError : string) (status : Z) (message : string) :
  fetch n model = Failed status message ->
  _isRateLimitError status (errMsgOf status message) = true ->
  runB preferred (model :: rest) n lastError
  = (let '(r, n', evs) := runB preferred rest (S n) (errMsgOf status message) in
     (r, n', throttledBlockB model ++ evs)%list).
Proof. intros Hf Hr. simpl. now rewrite Hf, Hr. Qed.

Lemma tryModelsB_all_throttled (preferred : string) (models : list string)
      (n : nat) (lastError : string) :
  (forall k model, throttled (fetch k model) = true) ->
  exists lastError',
    runB preferred models n lastError
    = (Failure (exhaustedB lastError'), (n + List.length models)%nat,
       flat_map throttledBlockB models).
Proof.
  intros Hall. revert n lastError.
  induction models as [|model rest IH]; intros n lastError.
  - exists lastError. simpl. f_equal. f_equal. lia.
  - destruct (throttled_inv _ (Hall n model)) as (s & m & F & R).
    destruct (IH (S n) (errMsgOf s m)) as [le' Hle'].
    exists le'. rewrite (tryModelsB_throttled _ _ _ _ _ _ _ F R), Hle'.
    simpl. f_equal. f_equal. lia.
Qed.

(** Policy B never waits. *)
Lemma tryModelsB_never_sleeps (preferred : string) (models : list string)
      (n : nat) (lastError : string) :
  slept (snd (runB preferred models n lastError)) = [].
Proof.
  revert n lastError. induction models as [|model rest IH]; intros n lastError.
  - reflexivity.
  - simpl.
    assert (Hcont : forall le evs,
               slept evs = [] ->
               slept (snd (let '(r, n', evs') := runB preferred rest (S n) le in
                           (r, n', (evs ++ evs')%list))) = []).
    { intros le evs Hevs. specialize (IH (S n) le).
      destruct (runB preferred rest (S n) le) as [[r n'] evs']. simpl in *.
      clear - Hevs IH. induction evs as [|e evs IHe]; [exact IH|].
      destruct e; simpl in *; try discriminate; auto. }
    destruct (fetch n model) as [m|text|status message].
    + exact (Hcont _ [Fetch model] eq_refl).
    + destruct (Parser._parseJSON text) as [parsed|];
        [|exact (Hcont _ [Fetch model] eq_refl)].
      destruct (String.eqb model preferred); [reflexivity|].
      destruct (setUsedModel parsed model);
        [reflexivity | exact (Hcont _ [Fetch model] eq_refl)].
    + destruct (_isRateLimitError status (errMsgOf status message));
        [exact (Hcont _ [Fetch model; Notify 0 model 1] eq_refl) | reflexivity].
Qed.

(** *** Order of the requests and short-circuit on success *)

Lemma fetched_app (a b : list Event) :
  fetched (a ++ b) = (fetched a ++ fetched b)%list.
Proof.
  induction a as [|e a IH]; [reflexivity|].
  destruct e; simpl; now rewrite IH.
Qed.

Lemma nth_error_repeat (model m : string) (k i : nat) :
  nth_error (repeat model k) i = Some m -> m = model /\ (i < k)%nat.
Proof.
  revert i. induction k as [|k IH]; intros [|i] H; simpl in H; try discriminate.
  - injection H as <-. split; [reflexivity | lia].
  - destruct (IH i H). split; [assumption | lia].
Qed.

(** The inner loop of policy A asks the one model [k] times in a row, at
    least once and at most [todo] times, and a reply that parses ends it at
    once with that data. *)
Lemma attempts_run (todo : nat) : forall attempt model n lastError ex le n' evs,
  attemptsA todo attempt model n lastError = (ex, le, n', evs) ->
  exists k,
    (k <= todo)%nat /\ (todo <> 0 -> 1 <= k)%nat
    /\ fetched evs = repeat model k /\ n' = (n + k)%nat
    /\ forall i d, (i < k)%nat ->
                   parsedData (fetch (n + i) model) = Some d ->
                   S i = k /\ ex = Return (Success d).
Proof.
  induction todo as [|todo IH]; intros attempt model n lastError ex le n' evs H.
  - injection H as <- <- <- <-. exists 0%nat.
    split; [lia|]. split; [lia|]. split; [reflexivity|]. split; [lia|].
    intros i d Hi. lia.
  - assert (Hone : forall ex0 le0,
               parsedData (fetch n model) = None ->
               (ex0, le0, S n, [Fetch model]) = (ex, le, n', evs) ->
               exists k,
                 (k <= S todo)%nat /\ (S todo <> 0 -> 1 <= k)%nat
                 /\ fetched evs = repeat model k /\ n' = (n + k)%nat
                 /\ forall i d, (i < k)%nat ->
                                parsedData (fetch (n + i) model) = Some d ->
                                S i = k /\ ex = Return (Success d)).
    { intros ex0 le0 Hp E. injection E as <- <- <- <-. exists 1%nat.
      split; [lia|]. split; [lia|]. split; [reflexivity|]. split; [lia|].
      intros i d Hi Hd. assert (i = 0)%nat as -> by lia.
      rewrite Nat.add_0_r in Hd. congruence. }
    assert (Hmore : forall le0 between,
               parsedData (fetch n model) = None ->
               fetched between = [] ->
               (let '(ex1, le1, n1, evs1) :=
                  attemptsA todo (attempt + 1) model (S n) le0 in
                (ex1, le1, n1, (Fetch model :: between ++ evs1)%list))
               = (ex, le, n', evs) ->
               exists k,
                 (k <= S todo)%nat /\ (S todo <> 0 -> 1 <= k)%nat
                 /\ fetched evs = repeat model k /\ n' = (n + k)%nat
                 /\ forall i d, (i < k)%nat ->
                                parsedData (fetch (n + i) model) = Some d ->
                                S i = k /\ ex = Return (Success d)).
    { intros le0 between Hp Hb E.
      destruct (attemptsA todo (attempt + 1) model (S n) le0)
        as [[[ex1 le1] n1] evs1] eqn:E1.
      injection E as <- <- <- <-.
      destruct (IH _ _ _ _ _ _ _ _ E1) as (k & Hk & _ & Hf & Hn & Hs).
      exists (S k). split; [lia|]. split; [lia|].
      split; [simpl; now rewrite fetched_app, Hb, Hf|]. split; [lia|].
      intros [|i] d Hi Hd.
      - rewrite Nat.add_0_r in Hd. congruence.
      - replace (n + S i)%nat with (S n + i)%nat in Hd by lia.
        destruct (Hs i d) as [Hk' Hex]; [lia | assumption|].
        split; [lia | exact Hex]. }
    simpl in H. destruct (fetch n model) as [m|text|status message] eqn:F.
    + destruct (attempt <? _maxRetries).
      * apply (Hmore (orElse m "Network error.") [Sleep (backoff attempt)]);
          [reflexivity | reflexivity | exact H].
      * apply (Hone Break (orElse m "Network error.")); [reflexivity | exact H].
    + destruct (Parser._parseJSON text) as [parsed|] eqn:P.
      * injection H as <- <- <- <-. exists 1%nat.
        split; [lia|]. split; [lia|]. split; [reflexivity|]. split; [lia|].
        intros i d Hi Hd. assert (i = 0)%nat as -> by lia.
        rewrite Nat.add_0_r, F in Hd. simpl in Hd.
        split; [reflexivity | congruence].
      * destruct (attempt <? _maxRetries).
        -- apply (Hmore (orElse (syntaxErrorMessage text) "Network error.")
                        [Sleep (backoff attempt)]);
             [exact P | reflexivity | exact H].
        -- apply (Hone Break (orElse (syntaxErrorMessage text) "Network error."));
             [exact P | exact H].
    + destruct (_isRateLimitError status (errMsgOf status message)).
      * destruct (attempt <? _maxRetries).
        -- apply (Hmore (errMsgOf status message)
                        [Notify (ceilDiv (backoff attempt) 1000) model attempt;
                         Sleep (backoff attempt)]);
             [reflexivity | reflexivity | exact H].
        -- apply (Hone Break (errMsgOf status message)); [reflexivity | exact H].
      * apply (Hone (Return (Failure (errMsgOf status message))) lastError);
          [reflexivity | exact H].
Qed.

(** Policy A asks the models in the order of the list, each one to three
    times, and the first reply that parses is the last request of the run and
    is what the run returns. *)
Lemma tryModelsA_run (models : list string) : forall n lastError r n' evs,
  runA models n lastError = (r, n', evs) ->
  n' = (n + List.length (fetched evs))%nat
  /\ InOrder 3 (fetched evs) models
  /\ forall i m d, nth_error (fetched evs) i = Some m ->
                   parsedData (fetch (n + i) m) = Some d ->
                   S i = List.length (fetched evs) /\ r = Success d.
Proof.
  induction models as [|model rest IH]; intros n lastError r n' evs H.
  - injection H as <- <- <-. simpl. split; [lia|]. split; [constructor|].
    intros [|i]; discriminate.
  - rewrite tryModelsA_cons in H.
    destruct (attemptsA (Z.to_nat _maxRetries) 1 model n lastError)
      as [[[ex le1] n1] evs1] eqn:E.
    destruct (attempts_run _ _ _ _ _ _ _ _ _ E) as (k & Hk & Hk1 & Hf & Hn & Hs).
    change (Z.to_nat _maxRetries) with 3%nat in Hk, Hk1.
    assert (1 <= k)%nat by (apply Hk1; discriminate).
    destruct ex as [r0|].
    + injection H as <- <- <-. rewrite Hf, repeat_length.
      split; [exact Hn|]. split.
      * rewrite <- (app_nil_r (repeat model k)). constructor; [lia | constructor].
      * intros i m d Hi Hd. apply nth_error_repeat in Hi. destruct Hi as [-> Hi].
        destruct (Hs i d Hi Hd) as [H1 H2]. split; [exact H1 | congruence].
    + destruct (runA rest n1 le1) as [[r2 n2] evs2] eqn:E2.
      injection H as <- <- <-.
      destruct (IH _ _ _ _ _ E2) as (Hn2 & Hord & Hs2).
      rewrite fetched_app, Hf, length_app, repeat_length.
      split; [lia|]. split; [constructor; [lia | exact Hord]|].
      intros i m d Hi Hd.
      destruct (Nat.lt_ge_cases i k) as [Hlt|Hge].
      * rewrite nth_error_app1 in Hi by (now rewrite repeat_length).
        apply nth_error_repeat in Hi. destruct Hi as [-> _].
        destruct (Hs i d Hlt Hd) as [_ Hex]. discriminate Hex.
      * rewrite nth_error_app2 in Hi by (now rewrite repeat_length).
        rewrite repeat_length in Hi.
        replace (n + i)%nat with (n1 + (i - k))%nat in Hd by lia.
        destruct (Hs2 _ _ _ Hi Hd) as [H1 H2]. split; [lia | exact H2].
Qed.

(** Policy B asks the models of a prefix of the list, once each, and a reply
    that parses -- to something other than [null], or from the preferred
    model -- is the last request of the run and the run succeeds. *)
Lemma tryModelsB_run (preferred : string) (models : list string) :
  forall n lastError r n' evs,
  runB preferred models n lastError = (r, n', evs) ->
  n' = (n + List.length (fetched evs))%nat
  /\ (exists rest, models = (fetched evs ++ rest)%list)
  /\ forall i m d, nth_error (fetched evs) i = Some m ->
                   parsedData (fetch (n + i) m) = Some d ->
                   m = preferred \/ d <> JNull ->
                   S i = List.length (fetched evs) /\ exists d', r = Success d'.
Proof.
  induction models as [|model rest IH]; intros n lastError r n' evs H.
  - injection H as <- <- <-. simpl. split; [lia|]. split; [now exists []|].
    intros [|i]; discriminate.
  - assert (Hstop : forall r0,
               (forall d, parsedData (fetch n model) = Some d ->
                          model = preferred \/ d <> JNull -> exists d', r0 = Success d') ->
               (r0, S n, [Fetch model]) = (r, n', evs) ->
               n' = (n + List.length (fetched evs))%nat
               /\ (exists rest0, model :: rest = (fetched evs ++ rest0)%list)
               /\ forall i m d, nth_error (fetched evs) i = Some m ->
                     parsedData (fetch (n + i) m) = Some d ->
                     m = preferred \/ d <> JNull ->
                     S i = List.length (fetched evs) /\ exists d', r = Success d').
    { intros r0 Hr0 E. injection E as <- <- <-. simpl.
      split; [lia|]. split; [now exists rest|].
      intros [|i] m d Hi Hd Hok; simpl in Hi.
      - injection Hi as <-. rewrite Nat.add_0_r in Hd. split; [reflexivity | eauto].
      - destruct i; discriminate. }
    assert (Hgo : forall le0 between,
               (forall d, parsedData (fetch n model) = Some d ->
                          model = preferred \/ d <> JNull -> False) ->
               fetched between = [] ->
               (let '(r1, n1, evs1) := runB preferred rest (S n) le0 in
                (r1, n1, (Fetch model :: between ++ evs1)%list)) = (r, n', evs) ->
               n' = (n + List.length (fetched evs))%nat
               /\ (exists rest0, model :: rest = (fetched evs ++ rest0)%list)
               /\ forall i m d, nth_error (fetched evs) i = Some m ->
                     parsedData (fetch (n + i) m) = Some d ->
                     m = preferred \/ d <> JNull ->
                     S i = List.length (fetched evs) /\ exists d', r = Success d').
    { intros le0 between Hno Hb E.
      destruct (runB preferred rest (S n) le0) as [[r1 n1] evs1] eqn:E1.
      injection E as <- <- <-.
      destruct (IH _ _ _ _ _ E1) as (Hn1 & [rest0 Hrest] & Hs).
      simpl. rewrite fetched_app, Hb. simpl.
      split; [lia|]. split; [exists rest0; now rewrite Hrest at 1|].
      intros [|i] m d Hi Hd Hok; simpl in Hi.
      - injection Hi as <-. rewrite Nat.add_0_r in Hd. elim (Hno d Hd Hok).
      - replace (n + S i)%nat with (S n + i)%nat in Hd by lia.
        destruct (Hs _ _ _ Hi Hd Hok) as [H1 H2]. split; [lia | exact H2]. }
    simpl in H. destruct (fetch n model) as [msg|text|status message] eqn:F.
    + apply (Hgo (orElse msg "Network error.") []); [discriminate | reflexivity | exact H].
    + simpl in Hstop, Hgo.
      destruct (Parser._parseJSON text) as [parsed|] eqn:P.
      * destruct (String.eqb model preferred) eqn:Q.
        -- apply (Hstop (Success parsed)); [eauto | exact H].
        -- apply String.eqb_neq in Q.
           destruct parsed as [|b|ma ex|raw|items|members]; simpl in H;
             try (eapply Hstop; [eauto | exact H]).
           apply (Hgo (orElse typeErrorMessage "Network error.") []);
             [|reflexivity | exact H].
           intros d Hd [Hm|Hnn]; [contradiction | congruence].
      * apply (Hgo (orElse (syntaxErrorMessage text) "Network error.") []);
          [discriminate | reflexivity | exact H].
    + destruct (_isRateLimitError status (errMsgOf status message)).
      * apply (Hgo (errMsgOf status message) [Notify 0 model 1]);
          [discriminate | reflexivity | exact H].
      * apply (Hstop (Failure (errMsgOf status message))); [discriminate | exact H].
Qed.

End Runs.

(** C6. A reply with status 429, or whose message holds the quota, rate or
    resource-exhaustion vocabulary, is a throttle signal.  Under policy A a
    model that is throttled is asked up to three times, with a wait of 2000 ms
    after the first attempt and 4000 ms after the second, and then the next
    model is tried; under policy B a throttled model is followed at once by
    the next one, and no run of policy B ever waits. *)
Theorem C6_throttle_policies
    (fetch : nat -> string -> Reply) (syntaxErrorMessage : string -> string)
    (typeErrorMessage : string) :
  (forall status msg,
      _isRateLimitError 429 msg = true
      /\ (Js.includes (Js.toLowerCase msg) "quota" = true
          \/ Js.includes (Js.toLowerCase msg) "rate" = true
          \/ Js.includes (Js.toLowerCase msg) "resource_exhausted" = true ->
          _isRateLimitError status msg = true))
  /\ (forall model n lastError,
         throttled (fetch n model) = true ->
         throttled (fetch (S n) model) = true ->
         throttled (fetch (S (S n)) model) = true ->
         exists lastError',
           attempts fetch syntaxErrorMessage (Z.to_nat _maxRetries) 1 model n lastError
           = (Break, lastError', S (S (S n)),
              [ Fetch model; Notify 2 model 1; Sleep 2000;
                Fetch model; Notify 4 model 2; Sleep 4000;
                Fetch model ]))
  /\ (forall models n lastError,
         (forall k model, throttled (fetch k model) = true) ->
         exists lastError',
           tryModelsA fetch syntaxErrorMessage models n lastError
           = (Failure (exhaustedA lastError'), (n + 3 * List.length models)%nat,
              flat_map throttledBlockA models))
  /\ (forall preferred model rest n lastError,
         throttled (fetch n model) = true ->
         exists lastError',
           tryModelsB fetch syntaxErrorMessage typeErrorMessage preferred
                      (model :: rest) n lastError
           = (let '(r, n', evs) :=
                tryModelsB fetch syntaxErrorMessage typeErrorMessage preferred
                           rest (S n) lastError' in
              (r, n', Fetch model :: Notify 0 model 1 :: evs)))
  /\ (forall preferred models n lastError,
         slept (snd (tryModelsB fetch syntaxErrorMessage typeErrorMessage preferred
                                models n lastError)) = []).
Proof.
  split; [|split; [|split; [|split]]].
  - intros status msg. split;
      [apply isRateLimitError_429 | apply isRateLimitError_vocabulary].
  - apply attempts_all_throttled.
  - apply tryModelsA_all_throttled.
  - intros preferred model rest n lastError H.
    destruct (throttled_inv _ H) as (s & m & F & R).
    exists (errMsgOf s m).
    now rewrite (tryModelsB_throttled _ _ _ _ _ _ _ _ _ _ F R).
  - apply tryModelsB_never_sleeps.
Qed.

Lemma C6_throttle_policies_witness :
  (forall k model, throttled (alwaysThrottled k model) = true)
  /\ exists lastError',
       tryModelsA alwaysThrottled (fun _ => EmptyString) ALL_MODELS_A 0 EmptyString
       = (Failure (exhaustedA lastError'), 12%nat, flat_map throttledBlockA ALL_MODELS_A).
Proof.
  split; [reflexivity|].
  apply (proj1 (proj2 (proj2
           (C6_throttle_policies alwaysThrottled (fun _ => EmptyString) EmptyString)))).
  reflexivity.
Defined.

(** *** A 2xx reply that does not parse *)

Section Reclassified.

Variable fetch : nat -> string -> Reply.
Variable syntaxErrorMessage : string -> string.
Variable typeErrorMessage : string.

#[local] Abbreviation fetch' := (asNetworkFailure fetch syntaxErrorMessage).

Lemma attempts_asNetworkFailure (todo : nat) : forall attempt model n lastError,
  attempts fetch syntaxErrorMessage todo attempt model n lastError
  = attempts fetch' syntaxErrorMessage todo attempt model n lastError.
Proof.
  induction todo as [|todo IH]; intros attempt model n lastError; [reflexivity|].
  simpl. unfold asNetworkFailure at 1.
  destruct (fetch n model) as [m|text|status message].
  - now rewrite IH.
  - destruct (Parser._parseJSON text) eqn:P; [now rewrite P | now rewrite IH].
  - now rewrite IH.
Qed.

Lemma tryModelsA_asNetworkFailure (models : list string) : forall n lastError,
  tryModelsA fetch syntaxErrorMessage models n lastError
  = tryModelsA fetch' syntaxErrorMessage models n lastError.
Proof.
  induction models as [|model rest IH]; intros n lastError; [reflexivity|].
  rewrite !tryModelsA_cons, <- attempts_asNetworkFailure.
  destruct (attempts fetch syntaxErrorMessage (Z.to_nat _maxRetries) 1 model n lastError)
    as [[[[r|] le] n'] evs]; [reflexivity | now rewrite IH].
Qed.

Lemma tryModelsB_asNetworkFailure (preferred : string) (models : list string) :
  forall n lastError,
  tryModelsB fetch syntaxErrorMessage typeErrorMessage preferred models n lastError
  = tryModelsB fetch' syntaxErrorMessage typeErrorMessage preferred models n lastError.
Proof.
  induction models as [|model rest IH]; intros n lastError; [reflexivity|].
  simpl. unfold asNetworkFailure at 1.
  destruct (fetch n model) as [m|text|status message].
  - now rewrite IH.
  - destruct (Parser._parseJSON text) eqn:P; [rewrite P | now rewrite IH].
    destruct (String.eqb model preferred); [reflexivity|].
    destruct (setUsedModel _ model); [reflexivity | now rewrite IH].
  - now rewrite IH.
Qed.

End Reclassified.

(** C9 (what the code does). In the OpenRouter client and in the probing
    Gemini client a 2xx reply whose text is not JSON is handled exactly as a
    network failure with the same message: replacing every such reply by a
    network failure changes neither the result nor the events of any run.
    With a model that answers [not json] to every request, [_callAPI] retries
    it with the back-off waits, moves on to the next model and ends with the
    aggregated rate-limit failure.  The first client ([js/gemini-api.js])
    reports the same reply as a failure to parse. *)
Theorem C9_parse_failure_handled_as_network_failure
    (syntaxErrorMessage : string -> string) (typeErrorMessage : string) :
  (forall fetch apiKey models,
      _callAPI fetch syntaxErrorMessage apiKey models
      = _callAPI (asNetworkFailure fetch syntaxErrorMessage) syntaxErrorMessage apiKey models)
  /\ (forall fetch apiKey preferred working,
         _callGemini fetch syntaxErrorMessage typeErrorMessage apiKey preferred working
         = _callGemini (asNetworkFailure fetch syntaxErrorMessage) syntaxErrorMessage
                       typeErrorMessage apiKey preferred working)
  /\ _callAPI alwaysNotJson syntaxErrorMessage "key" ["m1"; "m2"]
     = (Failure (exhaustedA (orElse (syntaxErrorMessage "not json") "Network error.")),
        [ Fetch "m1"; Sleep 2000; Fetch "m1"; Sleep 4000; Fetch "m1";
          Fetch "m2"; Sleep 2000; Fetch "m2"; Sleep 4000; Fetch "m2" ])
  /\ _callAPI (fun _ _ => Threw (syntaxErrorMessage "not json")) syntaxErrorMessage
              "key" ["m1"; "m2"]
     = _callAPI alwaysNotJson syntaxErrorMessage "key" ["m1"; "m2"]
  /\ continueDialogue_single alwaysNotJson syntaxErrorMessage "key" "m1"
     = (Failure ("Failed to parse AI response as JSON: " ++ syntaxErrorMessage "not json"),
        [ Fetch "m1" ]).
Proof.
  split; [|split; [|split; [|split]]].
  - intros fetch apiKey models. unfold _callAPI.
    destruct apiKey; [reflexivity|]. now rewrite <- tryModelsA_asNetworkFailure.
  - intros fetch apiKey preferred working. unfold _callGemini.
    destruct apiKey; [reflexivity|]. now rewrite <- tryModelsB_asNetworkFailure.
  - reflexivity.
  - reflexivity.
  - reflexivity.
Qed.

(** C1 (what the code does). The probing Gemini client, with the first model
    preferred and all four models working: the first model is throttled, the
    second answers 2xx with the text [null], which parses, and the client
    goes on to ask the third model and returns the third model's data. *)
Theorem C1_gemini_calls_next_model_after_parsed_null
    (syntaxErrorMessage : string -> string) (typeErrorMessage : string) :
  parsedData (throttledThenNull 1 "gemini-2.5-flash") = Some JNull
  /\ _callGemini throttledThenNull syntaxErrorMessage typeErrorMessage
                 "key" "gemini-2.5-flash-lite" ALL_MODELS_B
     = (Success (JObject [ ("a", JNumber 1 0);
                           ("_usedModel", JString "gemini-2.0-flash-lite") ]),
        [ Fetch "gemini-2.5-flash-lite"; Notify 0 "gemini-2.5-flash-lite" 1;
          Fetch "gemini-2.5-flash";
          Fetch "gemini-2.0-flash-lite" ]).
Proof. split; reflexivity. Qed.

End InvokerFacts.

(** ** Session store and dialogue-state reducer *)

Module SessionFacts.

Import Session.

(** *** The store *)

Lemma assign_id (s : SessionRec) (u : Updates) : id (assign s u) = id s.
Proof. reflexivity. Qed.

Lemma getSession_updateSession (sid : string) (u : Updates) (store : Store) (s : SessionRec) :
  getSession sid store = Some s ->
  getSession sid (updateSession sid u store) = Some (assign s u).
Proof.
  unfold getSession. induction store as [|s0 rest IH]; simpl; [discriminate|].
  destruct (String.eqb (id s0) sid) eqn:E; simpl.
  - intros H. injection H as <-. now rewrite E.
  - rewrite E. exact IH.
Qed.

(** *** The difficulty ratchet *)

Lemma strOr_idem (a b : string) : strOr (strOr a b) b = strOr a b.
Proof. destruct a; [now destruct b | reflexivity]. Qed.

Lemma optStrOr_strOr (a : option string) (b : string) :
  strOr (optStrOr a b) b = optStrOr a b.
Proof. destruct a as [a|]; simpl; [apply strOr_idem | now destruct b]. Qed.

(** One successful turn: the rank afterwards is the larger of the rank before
    and the position of the reported difficulty. *)
Lemma rank_responseUpdates (s : SessionRec) (exchanges : Z) (h : list Turn) (aiData : AiData) :
  rank (assign s (responseUpdates s exchanges h aiData))
  = Z.max (rank s)
          (arrIndexOf difficultyOrder (optStrOr (difficulty_level aiData) "foundational")).
Proof.
  unfold rank, assign, responseUpdates.
  cbn [highest_difficulty u_highest_difficulty orDefault].
  set (cur := arrIndexOf difficultyOrder (strOr (highest_difficulty s) "foundational")).
  set (difficulty := optStrOr (difficulty_level aiData) "foundational").
  destruct (cur <? arrIndexOf difficultyOrder difficulty) eqn:E.
  - unfold difficulty at 1. rewrite optStrOr_strOr. fold difficulty.
    apply Z.ltb_lt in E. lia.
  - fold cur. apply Z.ltb_ge in E. lia.
Qed.

(** [handleResponse] run on its own keeps the session in the store and never
    lowers its rank. *)
Lemma handleResponse_rank (sid : string) (api : Call -> Outcome (option AiData))
      (input : string) (p : Page) (store : Store) (s : SessionRec) :
  getSession sid store = Some s ->
  exists s', getSession sid (snd (fst (handleResponse sid api input p store))) = Some s'
             /\ rank s <= rank s'.
Proof.
  intros Hs. unfold handleResponse, handleResponse_submit.
  destruct (Js.trim input) as [|c r]; [exists s; simpl; split; [exact Hs | lia]|].
  rewrite Hs. unfold handleResponse_settle. cbn [heldSession heldCall sentHistory].
  match goal with |- context [api ?c] => destruct (api c) as [[aiData|]|e|] end; simpl.
  - eexists. split; [exact (getSession_updateSession _ _ _ _ Hs)|].
    rewrite rank_responseUpdates. lia.
  - exists s. split; [exact Hs | lia].
  - eexists. split; [exact (getSession_updateSession _ _ _ _ Hs)|].
    unfold rank, assign. cbn [highest_difficulty u_highest_difficulty orDefault]. lia.
  - exists s. split; [exact Hs | lia].
Qed.

Lemma playTurns_app (sid : string) (turns more : list (string * Outcome (option AiData))) :
  forall p store,
  playTurns sid (turns ++ more) p store
  = playTurns sid more (fst (playTurns sid turns p store)) (snd (playTurns sid turns p store)).
Proof.
  induction turns as [|[input outcome] turns IH]; intros p store; [reflexivity|].
  simpl. destruct (handleResponse sid (fun _ => outcome) input p store) as [[p' store'] c].
  apply IH.
Qed.

Lemma playTurns_rank (sid : string) (turns : list (string * Outcome (option AiData))) :
  forall p store s,
  getSession sid store = Some s ->
  exists s', getSession sid (snd (playTurns sid turns p store)) = Some s'
             /\ rank s <= rank s'.
Proof.
  induction turns as [|[input outcome] turns IH]; intros p store s Hs.
  - exists s. split; [exact Hs | lia].
  - simpl.
    destruct (handleResponse_rank sid (fun _ => outcome) input p store s Hs)
      as (s1 & Hs1 & Hr1).
    destruct (handleResponse sid (fun _ => outcome) input p store) as [[p' store'] c].
    simpl in Hs1. destruct (IH p' store' s1 Hs1) as (s2 & Hs2 & Hr2).
    exists s2. split; [exact Hs2 | lia].
Qed.

(** An answer handled on its own is a [Submit] followed by [Settle 0] on a
    page with no call pending. *)
Lemma pageStep_alone (sid input : string) (outcome : Outcome (option AiData))
      (p : Page) (store : Store) :
  pageStep sid (pageStep sid (mkRunning p store []) (Submit input)) (Settle 0 outcome)
  = mkRunning (fst (fst (handleResponse sid (fun _ => outcome) input p store)))
              (snd (fst (handleResponse sid (fun _ => outcome) input p store))) [].
Proof.
  unfold handleResponse, pageStep at 2. cbn [stored pending page].
  destruct (handleResponse_submit sid input store) as [held|].
  - unfold pageStep. cbn [stored pending page app nth_error dropNth].
    now destruct (handleResponse_settle sid held outcome p store) as [p' store'].
  - reflexivity.
Qed.

Lemma pageRun_oneAtATime (sid : string) (turns : list (string * Outcome (option AiData))) :
  forall p store,
  pageRun sid (mkRunning p store []) (oneAtATime turns)
  = mkRunning (fst (playTurns sid turns p store)) (snd (playTurns sid turns p store)) [].
Proof.
  induction turns as [|[input outcome] turns IH]; intros p store; [reflexivity|].
  change (oneAtATime ((input, outcome) :: turns))
    with (Submit input :: Settle 0 outcome :: oneAtATime turns).
  unfold pageRun in *. cbn [fold_left]. rewrite pageStep_alone, IH.
  cbn [playTurns].
  now destruct (handleResponse sid (fun _ => outcome) input p store) as [[p' store'] c].
Qed.

(** While each call settles before the next answer is submitted, the
    position of the stored [highest_difficulty] after more turns is never
    below its position after fewer; the turns intermediate, foundational,
    advanced played so on a fresh session leave it at intermediate after the
    second and at advanced after the third. *)
Lemma ratchet_one_at_a_time :
  (forall sid turns more p store s1,
      getSession sid (snd (playTurns sid turns p store)) = Some s1 ->
      exists s2,
        getSession sid (snd (playTurns sid (turns ++ more) p store)) = Some s2
        /\ rank s1 <= rank s2)
  /\ option_map highest_difficulty
       (getSession "s1"
          (snd (playTurns "s1"
                  [ ("a", Succeeded (Some (turnData 20 "intermediate")));
                    ("b", Succeeded (Some (turnData 30 "foundational"))) ]
                  initialPage sampleStore)))
     = Some "intermediate"
  /\ option_map highest_difficulty
       (getSession "s1"
          (snd (playTurns "s1"
                  [ ("a", Succeeded (Some (turnData 20 "intermediate")));
                    ("b", Succeeded (Some (turnData 30 "foundational")));
                    ("c", Succeeded (Some (turnData 40 "advanced"))) ]
                  initialPage sampleStore)))
     = Some "advanced".
Proof.
  split; [|split; reflexivity].
  intros sid turns more p store s1 H.
  rewrite playTurns_app. now apply playTurns_rank.
Qed.

(** C3 (what the code does). The four levels stand in the order
    foundational, intermediate, advanced, mastery.  On a fresh session the
    answer [a] is submitted and, while its call is pending, the answer [b];
    the calls settle in the order of the queue, the first with a turn at the
    advanced level, the second with one at the intermediate level.  After
    the first reply the stored [highest_difficulty] is advanced; after the
    second it is intermediate: the second handler compares with, and writes
    from, the session it read before the first reply was stored.  With the
    same answers and replies, the second answer submitted after the first
    reply, it stays at advanced. *)
Theorem C3_overlapping_answers_lower_highest_difficulty :
  let fresh := mkRunning initialPage sampleStore [] in
  let first := Succeeded (Some (turnData 20 "advanced")) in
  let second := Succeeded (Some (turnData 30 "intermediate")) in
  map (arrIndexOf difficultyOrder) difficultyOrder = [0; 1; 2; 3]
  /\ getSession "s1" (stored (pageRun "s1" fresh [Submit "a"; Submit "b"; Settle 0 first]))
     = Some sampleAfterAdvanced
  /\ highest_difficulty sampleAfterAdvanced = "advanced"
  /\ option_map highest_difficulty
       (getSession "s1"
          (stored (pageRun "s1" fresh [Submit "a"; Submit "b"; Settle 0 first; Settle 0 second])))
     = Some "intermediate"
  /\ option_map highest_difficulty
       (getSession "s1"
          (stored (pageRun "s1" fresh [Submit "a"; Settle 0 first; Submit "b"; Settle 0 second])))
     = Some "advanced".
Proof. repeat split. Qed.

(** *** Insight sets *)

Lemma arrIncludes_In (l : list string) (x : string) :
  arrIncludes l x = true <-> In x l.
Proof.
  unfold arrIncludes. rewrite existsb_exists. split.
  - intros (y & Hy & E). apply String.eqb_eq in E. now subst.
  - intros H. exists x. split; [exact H | apply String.eqb_refl].
Qed.

Lemma pushNew_cons (all : list string) (x : string) (items : list string) :
  pushNew all (x :: items)
  = pushNew (if arrIncludes all x then all else (all ++ [x])%list) items.
Proof. reflexivity. Qed.


Lemma pushNew_In (items : list string) : forall all x,
  In x (pushNew all items) <-> In x all \/ In x items.
Proof.
  induction items as [|i items IH]; intros all x.
  - simpl. tauto.
  - rewrite pushNew_cons, IH. destruct (arrIncludes all i) eqn:E.
    + apply arrIncludes_In in E. simpl. split; [tauto|].
      intros [H|[<-|H]]; tauto.
    + rewrite in_app_iff. simpl. tauto.
Qed.


Lemma pushNew_absorb (items : list string) : forall all,
  (forall x, In x items -> In x all) -> pushNew all items = all.
Proof.
  induction items as [|i items IH]; intros all H; [reflexivity|].
  rewrite pushNew_cons.
  assert (E : arrIncludes all i = true) by (apply arrIncludes_In, H; now left).
  rewrite E. apply IH. intros x Hx. apply H. now right.
Qed.

Lemma pushNew_idem (all items : list string) :
  pushNew (pushNew all items) items = pushNew all items.
Proof. apply pushNew_absorb. intros x Hx. apply pushNew_In. now right. Qed.

Lemma updateUI_idem (aiData : AiData) (p : Page) :
  updateUI aiData (updateUI aiData p) = updateUI aiData p.
Proof.
  unfold updateUI. simpl.
  destruct (correct_insights _), (misconceptions _), (gaps _);
    rewrite ?pushNew_idem; reflexivity.
Qed.




(** *** The end of a session *)

(** A summary whose score is present and not zero overwrites the stored
    score, and the session is no longer active. *)
Lemma handleEndSession_overwrites (sid : string) (api : Call -> Outcome (option Summary))
      (endedAt : string) (store : Store) (s : SessionRec) (data : Summary) (v : Z) :
  getSession sid store = Some s ->
  api (mkCall (topic s) (conversation_history s) EmptyString store) = Succeeded (Some data) ->
  overall_understanding data = Some v ->
  v <> 0 ->
  exists s',
    getSession sid (fst (handleEndSession sid api endedAt store)) = Some s'
    /\ final_understanding_score s' = v /\ is_active s' = false
    /\ summary s' = Some data.
Proof.
  intros Hs Hapi Hv Hnz. unfold handleEndSession, handleEndSession_submit. rewrite Hs.
  cbn [heldCall fst]. rewrite Hapi. unfold handleEndSession_settle. cbn [heldSession].
  eexists. split; [exact (getSession_updateSession _ _ _ _ Hs)|].
  unfold assign. simpl. rewrite Hv. unfold optNumOr.
  apply Z.eqb_neq in Hnz. rewrite Hnz. repeat split.
Qed.

(** C5 (what the code does). The sample session has a running maximum of 65.
    Ended with a summary of [overall_understanding] 80, its score becomes 80
    and it is no longer active.  Ended with a summary of
    [overall_understanding] 0, it is no longer active and its score is still
    65: a score of zero, although present in the summary, does not overwrite
    the stored one. *)
Theorem C5_summary_score_zero_does_not_overwrite :
  scoreAndActivity sampleStore65 = Some (65, true)
  /\ scoreAndActivity
       (fst (handleEndSession "s1" (fun _ => Succeeded (Some (summaryData 80)))
                              "2024-01-01T01:00:00.000Z" sampleStore65))
     = Some (80, false)
  /\ overall_understanding (summaryData 0) = Some 0
  /\ scoreAndActivity
       (fst (handleEndSession "s1" (fun _ => Succeeded (Some (summaryData 0)))
                              "2024-01-01T01:00:00.000Z" sampleStore65))
     = Some (65, false).
Proof. repeat split. Qed.

(** *** The user's answer and the model call *)

(** [handleResponse] up to its [await], on a non-blank answer in a session
    of the store: the handler holds the session as read and the call, whose
    history is the history read with the user turn appended. *)
Lemma handleResponse_submit_held (sid input : string) (store : Store) (s : SessionRec) :
  getSession sid store = Some s ->
  Js.trim input <> EmptyString ->
  handleResponse_submit sid input store
  = Some (mkHeld s (mkCall (topic s)
                           (conversation_history s ++ [mkTurn User (Text (Js.trim input))])%list
                           (Js.trim input) store)).
Proof.
  intros Hs Hne. unfold handleResponse_submit. rewrite Hs.
  destruct (Js.trim input) as [|c r]; [now elim Hne | reflexivity].
Qed.

(** [handleResponse] run on its own, on a non-blank answer in a session of
    the store: the call is made with the store untouched and with the user
    turn appended to the history sent; the store is written when the call has
    returned. *)
Lemma handleResponse_call (sid : string) (api : Call -> Outcome (option AiData))
      (input : string) (p : Page) (store : Store) (s : SessionRec) :
  getSession sid store = Some s ->
  Js.trim input <> EmptyString ->
  let user := mkTurn User (Text (Js.trim input)) in
  let call := mkCall (topic s) (conversation_history s ++ [user])%list (Js.trim input) store in
  snd (handleResponse sid api input p store) = Some call
  /\ (forall error,
         api call = Failed error ->
         getSession sid (snd (fst (handleResponse sid api input p store)))
         = Some (assign s (mkUpdates (Some (conversation_history s ++ [user])%list)
                                     None None None None None None None)))
  /\ (forall aiData,
         api call = Succeeded (Some aiData) ->
         exists s',
           getSession sid (snd (fst (handleResponse sid api input p store))) = Some s'
           /\ conversation_history s'
              = (conversation_history s ++ [user; mkTurn Assistant (Data aiData)])%list).
Proof.
  intros Hs Hne user call. unfold handleResponse.
  rewrite (handleResponse_submit_held sid input store s Hs Hne).
  cbn [heldCall]. fold user. fold call. unfold handleResponse_settle.
  cbn [heldSession heldCall sentHistory call].
  split; [|split].
  - now destruct (api call) as [[d|]|e|].
  - intros error Hf. rewrite Hf. cbn [fst snd].
    exact (getSession_updateSession _ _ _ _ Hs).
  - intros aiData Hok. rewrite Hok. cbn [fst snd].
    eexists. split; [exact (getSession_updateSession _ _ _ _ Hs)|].
    simpl. now rewrite <- app_assoc.
Qed.

(** C7 (as stated, refuted). A fresh session, the answer [my answer], a call
    that fails: at the moment of the call the persisted history of the
    session does not hold the user turn. *)
Lemma C7_user_turn_not_persisted_before_call :
  exists call,
    snd (handleResponse "s1" (fun _ => Failed "quota") "my answer" initialPage sampleStore)
    = Some call
    /\ ~ userTurnPersistedAtCall "s1" "my answer" call.
Proof.
  eexists. split; [reflexivity|].
  intros (s & Hs & Hin). simpl in Hs. injection Hs as <-. exact Hin.
Qed.

(** C7 (amended). For a non-blank answer in a session of the store, the user
    turn is appended to the history that is sent with the model call, and
    submitting writes nothing to the store.  When the call returns a failure
    result, the session of that moment is then persisted with the history
    read at the submission followed by the user turn alone, nothing else
    changed; when it returns a success carrying a per-turn object, with that
    history followed by the user turn and the assistant turn.  This holds
    whatever was stored while the call was pending. *)
Theorem C7_user_turn_persisted_after_call
    (sid input : string) (store : Store) (s : SessionRec) :
  getSession sid store = Some s ->
  Js.trim input <> EmptyString ->
  let user := mkTurn User (Text (Js.trim input)) in
  exists held,
    handleResponse_submit sid input store = Some held
    /\ storeAtCall (heldCall held) = store
    /\ sentHistory (heldCall held) = (conversation_history s ++ [user])%list
    /\ (forall r, stored (pageStep sid r (Submit input)) = stored r)
    /\ (forall error p store' s',
           getSession sid store' = Some s' ->
           getSession sid (snd (handleResponse_settle sid held (Failed error) p store'))
           = Some (assign s' (mkUpdates (Some (conversation_history s ++ [user])%list)
                                        None None None None None None None)))
    /\ (forall aiData p store' s',
           getSession sid store' = Some s' ->
           exists s'',
             getSession sid
               (snd (handleResponse_settle sid held (Succeeded (Some aiData)) p store'))
             = Some s''
             /\ conversation_history s''
                = (conversation_history s ++ [user; mkTurn Assistant (Data aiData)])%list).
Proof.
  intros Hs Hne user.
  eexists. split; [exact (handleResponse_submit_held sid input store s Hs Hne)|].
  split; [reflexivity|]. split; [reflexivity|].
  split.
  { intros r. unfold pageStep.
    now destruct (handleResponse_submit sid input (stored r)). }
  split.
  - intros error p store' s' Hs'. unfold handleResponse_settle.
    cbn [heldSession heldCall sentHistory snd].
    exact (getSession_updateSession _ _ _ _ Hs').
  - intros aiData p store' s' Hs'. unfold handleResponse_settle.
    cbn [heldSession heldCall sentHistory snd].
    eexists. split; [exact (getSession_updateSession _ _ _ _ Hs')|].
    subst user. simpl. now rewrite <- app_assoc.
Qed.

Lemma C7_user_turn_persisted_after_call_witness :
  getSession "s1" sampleStore65 <> None
  /\ Js.trim "  my answer " <> EmptyString
  /\ exists held,
       handleResponse_submit "s1" "  my answer " sampleStore65 = Some held
       /\ storeAtCall (heldCall held) = sampleStore65
       /\ option_map conversation_history
            (getSession "s1" (snd (handleResponse_settle "s1" held (Failed "quota")
                                                         initialPage sampleStore65)))
          = option_map (fun s => (conversation_history s
                                  ++ [mkTurn User (Text "my answer")])%list)
                       (getSession "s1" sampleStore65).
Proof.
  split; [discriminate|]. split; [discriminate|].
  destruct (C7_user_turn_persisted_after_call "s1" "  my answer " sampleStore65 _ eq_refl)
    as (held & Hsub & Hst & _ & _ & Hfail & _); [discriminate|].
  exists held. split; [exact Hsub|]. split; [exact Hst|].
  now rewrite (Hfail "quota" initialPage sampleStore65 _ eq_refl).
Defined.

End SessionFacts.

(** ** What is sent to the model *)

Module ClientFacts.

Import Session Client.

Lemma sliceLast_app {A : Type} (k : nat) (older recent : list A) :
  List.length recent = k -> sliceLast k (older ++ recent) = recent.
Proof.
  intros <-. unfold sliceLast. rewrite length_app.
  replace (List.length older + List.length recent - List.length recent)%nat
    with (List.length older + 0)%nat by lia.
  now rewrite skipn_app, Nat.add_0_r, skipn_all, Nat.sub_diag.
Qed.

Lemma sliceLast_length_le {A : Type} (k : nat) (l : list A) :
  (List.length (sliceLast k l) <= k)%nat.
Proof. unfold sliceLast. rewrite length_skipn. lia. Qed.

Lemma sliceLast_suffix {A : Type} (k : nat) (l : list A) :
  exists older, l = (older ++ sliceLast k l)%list.
Proof.
  exists (firstn (List.length l - k) l). unfold sliceLast.
  now rewrite firstn_skipn.
Qed.

Lemma sliceLast_all {A : Type} (k : nat) (l : list A) :
  (List.length l <= k)%nat -> sliceLast k l = l.
Proof.
  intros H. unfold sliceLast.
  replace (List.length l - k)%nat with 0%nat by lia. reflexivity.
Qed.

(** A prompt built line by line is its first lines followed by the lines. *)
Lemma fold_left_lines {A : Type} (line : A -> string) (l : list A) :
  forall init,
    fold_left (fun ctx e => ctx ++ line e) l init
    = init ++ fold_right (fun e rest => line e ++ rest) EmptyString l.
Proof.
  induction l as [|e l IH]; intros init; simpl.
  - now rewrite JsFacts.append_empty_r.
  - now rewrite IH, JsFacts.append_assoc.
Qed.

(** C10. Of a history that ends with ten turns [recent], [continueDialogue]
    (in the OpenRouter and in the Gemini client) sends exactly: the topic
    line, the opening stub, each of the ten turns in order -- a user turn as
    its text, an assistant turn as its question (as its whole object in JSON
    when it has none) -- and the latest answer; thirteen messages, none of
    them from the turns [older] before.  A history of at most ten turns is
    sent whole.  [generateSessionSummary] sends the topic line and one line
    for each of the last twelve turns, [Q:] with the question or [A:] with
    the answer, and nothing of the turns before.  The store meanwhile keeps
    the whole history: a successful answer is persisted with all the turns
    read at its submission, the user turn and the assistant turn. *)
Theorem C10_only_recent_turns_are_sent
    (JSON_stringify : AiData -> string) (topic response : string)
    (older recent : list Turn) :
  List.length recent = 10%nat ->
  continueDialogue_A JSON_stringify topic (older ++ recent) response
  = (mkMessage "user" ("Topic: " ++ topic)
     :: mkMessage "assistant" openingStub
     :: map (renderEntry JSON_stringify "assistant") recent
     ++ [mkMessage "user" response])%list
  /\ continueDialogue_B JSON_stringify topic (older ++ recent) response
     = (mkMessage "user" ("Topic: " ++ topic)
        :: mkMessage "model" openingStub
        :: map (renderEntry JSON_stringify "model") recent
        ++ [mkMessage "user" response])%list
  /\ (forall assistantRole,
         (forall text,
             renderEntry JSON_stringify assistantRole (mkTurn User (Text text))
             = mkMessage "user" text)
         /\ (forall text,
                renderEntry JSON_stringify assistantRole (mkTurn Assistant (Text text))
                = mkMessage assistantRole text)
         /\ (forall d q,
                question d = Some q -> q <> EmptyString ->
                renderEntry JSON_stringify assistantRole (mkTurn Assistant (Data d))
                = mkMessage assistantRole q)
         /\ (forall d,
                question d = None \/ question d = Some EmptyString ->
                renderEntry JSON_stringify assistantRole (mkTurn Assistant (Data d))
                = mkMessage assistantRole (JSON_stringify d)))
  /\ continueDialogue_A JSON_stringify topic (older ++ recent) response
     = continueDialogue_A JSON_stringify topic recent response
  /\ continueDialogue_B JSON_stringify topic (older ++ recent) response
     = continueDialogue_B JSON_stringify topic recent response
  /\ List.length (continueDialogue_A JSON_stringify topic (older ++ recent) response)
     = 13%nat
  /\ List.length (continueDialogue_B JSON_stringify topic (older ++ recent) response)
     = 13%nat
  /\ (forall assistantRole history,
         (List.length history <= 10)%nat ->
         continueDialogueWith JSON_stringify assistantRole topic history response
         = (mkMessage "user" ("Topic: " ++ topic)
            :: mkMessage assistantRole openingStub
            :: map (renderEntry JSON_stringify assistantRole) history
            ++ [mkMessage "user" response])%list)
  /\ (forall recent12,
         List.length recent12 = 12%nat ->
         generateSessionSummary topic (older ++ recent12)
         = ("Topic: " ++ topic ++ nl)
           ++ fold_right (fun e rest => summaryLine e ++ rest) EmptyString recent12
         /\ generateSessionSummary topic (older ++ recent12)
            = generateSessionSummary topic recent12)
  /\ ((forall text, summaryLine (mkTurn User (Text text)) = "A: " ++ text ++ nl)
      /\ (forall text, summaryLine (mkTurn Assistant (Text text)) = "Q: " ++ text ++ nl)
      /\ (forall d q, question d = Some q ->
                      summaryLine (mkTurn Assistant (Data d)) = "Q: " ++ q ++ nl)
      /\ (forall d, question d = None ->
                    summaryLine (mkTurn Assistant (Data d)) = "Q: " ++ nl))
  /\ (forall history,
         (List.length history <= 12)%nat ->
         generateSessionSummary topic history
         = ("Topic: " ++ topic ++ nl)
           ++ fold_right (fun e rest => summaryLine e ++ rest) EmptyString history)
  /\ (forall sid input store s,
         getSession sid store = Some s ->
         conversation_history s = (older ++ recent)%list ->
         Js.trim input <> EmptyString ->
         exists held,
           handleResponse_submit sid input store = Some held
           /\ forall aiData p store' s',
                getSession sid store' = Some s' ->
                exists s'',
                  getSession sid
                    (snd (handleResponse_settle sid held (Succeeded (Some aiData)) p store'))
                  = Some s''
                  /\ conversation_history s''
                     = (older ++ recent
                        ++ [mkTurn User (Text (Js.trim input));
                            mkTurn Assistant (Data aiData)])%list).
Proof.
  intros Hlen.
  assert (Hslice : sliceLast _maxHistory (older ++ recent) = recent)
    by now apply sliceLast_app.
  assert (Hself : sliceLast _maxHistory recent = recent)
    by (apply (sliceLast_app _ [] recent); exact Hlen).
  unfold continueDialogue_A, continueDialogue_B, continueDialogueWith.
  rewrite Hslice, Hself.
  split; [reflexivity|]. split; [reflexivity|].
  split.
  { intros assistantRole. unfold renderEntry. cbn [role content stringOf].
    split; [reflexivity|]. split; [reflexivity|]. split.
    - intros d q Hq Hne. rewrite Hq. cbn [optStrOr].
      destruct q; [now elim Hne | reflexivity].
    - intros d [Hq|Hq]; now rewrite Hq. }
  split; [reflexivity|]. split; [reflexivity|].
  split; [simpl; rewrite length_app, length_map, Hlen; reflexivity|].
  split; [simpl; rewrite length_app, length_map, Hlen; reflexivity|].
  split.
  { intros assistantRole history Hh. unfold _maxHistory.
    now rewrite (sliceLast_all 10 history Hh). }
  split.
  { intros recent12 H12. unfold generateSessionSummary.
    rewrite (sliceLast_app 12 older recent12 H12).
    pose proof (sliceLast_app 12 [] recent12 H12) as Hself12.
    simpl app in Hself12. rewrite Hself12.
    split; [apply fold_left_lines | reflexivity]. }
  split.
  { unfold summaryLine. cbn [role content].
    split; [reflexivity|]. split; [reflexivity|]. split.
    - intros d q Hq. rewrite Hq. now destruct q.
    - intros d Hq. now rewrite Hq. }
  split.
  { intros history Hh. unfold generateSessionSummary.
    rewrite (sliceLast_all 12 history Hh). apply fold_left_lines. }
  intros sid input store s Hs Hh Hne.
  eexists. split; [exact (SessionFacts.handleResponse_submit_held sid input store s Hs Hne)|].
  intros aiData p store' s' Hs'. unfold handleResponse_settle.
  cbn [heldSession heldCall sentHistory snd].
  eexists. split; [exact (SessionFacts.getSession_updateSession _ _ _ _ Hs')|].
  simpl. now rewrite Hh, <- !app_assoc.
Qed.

Lemma C10_only_recent_turns_are_sent_witness :
  List.length sampleRecent = 10%nat
  /\ continueDialogue_A (fun _ => EmptyString) "Recursion"
                        (sampleOlder ++ sampleRecent) "Because."
     = [ mkMessage "user" "Topic: Recursion";
         mkMessage "assistant" openingStub;
         mkMessage "user" "Because."; mkMessage "assistant" "Why?";
         mkMessage "user" "Because."; mkMessage "assistant" "Why?";
         mkMessage "user" "Because."; mkMessage "assistant" "Why?";
         mkMessage "user" "Because."; mkMessage "assistant" "Why?";
         mkMessage "user" "Because."; mkMessage "assistant" "Why?";
         mkMessage "user" "Because." ].
Proof.
  split; [reflexivity|].
  rewrite (proj1 (C10_only_recent_turns_are_sent
                    (fun _ => EmptyString) "Recursion" "Because." sampleOlder sampleRecent
                    eq_refl)).
  reflexivity.
Defined.

End ClientFacts.

(** ** More on the fallback clients *)

Module InvokerMore.

Import Json Invoker InvokerFacts.

Lemma retryable_terminalOf (r : Reply) :
  retryable r = true <-> terminalOf r = None.
Proof.
  destruct r as [m|text|status message]; simpl.
  - tauto.
  - destruct (Parser._parseJSON text); simpl; split; congruence.
  - destruct (_isRateLimitError status (errMsgOf status message)); simpl;
      split; congruence.
Qed.

Lemma slept_app (a b : list Event) : slept (a ++ b) = (slept a ++ slept b)%list.
Proof.
  induction a as [|e a IH]; [reflexivity|].
  destruct e; simpl; now rewrite IH.
Qed.

Lemma sumZ_app (a b : list Z) : sumZ (a ++ b) = sumZ a + sumZ b.
Proof. induction a as [|x a IH]; simpl; [reflexivity | rewrite IH; lia]. Qed.

Section Runs.

Variable fetch : nat -> string -> Reply.
Variable syntaxErrorMessage : string -> string.
Variable typeErrorMessage : string.

#[local] Abbreviation attemptsA := (attempts fetch syntaxErrorMessage).
#[local] Abbreviation runA := (tryModelsA fetch syntaxErrorMessage).
#[local] Abbreviation runB := (tryModelsB fetch syntaxErrorMessage typeErrorMessage).
#[local] Abbreviation caught := (caughtMessage syntaxErrorMessage).

Ltac reply H F :=
  match type of H with
  | context [fetch ?k ?m] =>
      destruct (fetch k m) as [?msg|?text|?status ?message] eqn:F
  end;
  [ | match type of H with
      | context [Parser._parseJSON ?t] =>
          let P := fresh "P" in destruct (Parser._parseJSON t) eqn:P
      end
    | match type of H with
      | context [_isRateLimitError ?a ?b] =>
          let R := fresh "R" in destruct (_isRateLimitError a b) eqn:R
      end ].

Ltac finish k F0 F1 F2 :=
  exists k; split; [lia|]; split; [reflexivity|]; split; [reflexivity|];
  split; [reflexivity|]; split;
  [ intros [|[|i]] Hi; try lia; simpl;
    first [rewrite F0 | rewrite F1]; simpl;
    repeat match goal with E : _ = _ |- _ => rewrite E end; reflexivity
  | simpl; first [rewrite F2 | rewrite F1 | rewrite F0]; simpl;
    repeat match goal with E : _ = _ |- _ => rewrite E end; auto ].

(** The inner loop of policy A, in full: [k] requests to the one model, the
    waits 2000 and 4000 between them, every reply but the last one that the
    loop goes on from; it returns what the last reply ends the run with, or
    breaks after a third reply it would go on from. *)
Lemma attempts_three (model : string) (n : nat) (lastError : string) :
  forall ex le n' evs,
  attemptsA 3 1 model n lastError = (ex, le, n', evs) ->
  exists k,
    (1 <= k <= 3)%nat /\ n' = (k + n)%nat
    /\ fetched evs = repeat model k
    /\ slept evs = firstn (k - 1) [2000; 4000]
    /\ (forall i, (S i < k)%nat -> retryable (fetch (i + n)%nat model) = true)
    /\ match ex with
       | Return res => terminalOf (fetch (k - 1 + n)%nat model) = Some res
       | Break => k = 3%nat
                  /\ retryable (fetch (2 + n)%nat model) = true
                  /\ le = caught (fetch (2 + n)%nat model)
       end.
Proof.
  intros ex le n' evs H. cbn in H.
  reply H F0.
  all: try (injection H as <- <- <- <-; finish 1%nat F0 F0 F0; fail).
  all: reply H F1.
  all: try (injection H as <- <- <- <-; finish 2%nat F0 F1 F1; fail).
  all: reply H F2.
  all: try (injection H as <- <- <- <-; finish 3%nat F0 F1 F2; fail).
Qed.

Lemma nth_error_repeat_last (model : string) (k : nat) :
  (1 <= k)%nat -> nth_error (repeat model k) (k - 1) = Some model.
Proof.
  intros Hk. induction k as [|k IH]; [lia|].
  destruct k as [|k]; [reflexivity|].
  replace (S (S k) - 1)%nat with (S (S k - 1)) by lia. simpl. apply IH. lia.
Qed.

(** A run of policy A, in full. *)
Lemma tryModelsA_full (models : list string) : forall n lastError r n' evs,
  runA models n lastError = (r, n', evs) ->
  n' = (List.length (fetched evs) + n)%nat
  /\ (List.length (fetched evs) <= 3 * List.length models)%nat
  /\ sumZ (slept evs) <= 6000 * Z.of_nat (List.length models)
  /\ Forall (fun ms => ms = 2000 \/ ms = 4000) (slept evs)
  /\ (forall i m res,
         nth_error (fetched evs) i = Some m ->
         terminalOf (fetch (i + n)%nat m) = Some res ->
         S i = List.length (fetched evs) /\ r = res)
  /\ ((forall i m, nth_error (fetched evs) i = Some m ->
                   retryable (fetch (i + n)%nat m) = true) ->
      fetched evs = flat_map (fun m => [m; m; m]) models
      /\ slept evs = flat_map (fun _ => [2000; 4000]) models
      /\ r = Failure (exhaustedA
                        (finalErrorA fetch syntaxErrorMessage models n lastError))).
Proof.
  induction models as [|model rest IH]; intros n lastError r n' evs H.
  - injection H as <- <- <-. simpl.
    split; [reflexivity|]. split; [lia|]. split; [lia|]. split; [constructor|].
    split; [intros [|i]; discriminate|]. intros _. repeat split.
  - rewrite (tryModelsA_cons fetch syntaxErrorMessage) in H.
    change (Z.to_nat _maxRetries) with 3%nat in H.
    destruct (attemptsA 3 1 model n lastError) as [[[ex le1] n1] evs1] eqn:E.
    destruct (attempts_three _ _ _ _ _ _ _ E) as (k & Hk & Hn & Hf & Hs & Hgo & Hex).
    assert (Hsum : sumZ (firstn (k - 1) [2000; 4000]) <= 6000
                   /\ Forall (fun ms => ms = 2000 \/ ms = 4000)
                             (firstn (k - 1) [2000; 4000])).
    { destruct k as [|[|[|[|k]]]]; try (exfalso; lia);
        cbn [firstn Nat.sub sumZ];
        (split; [lia | repeat (apply Forall_cons; [auto|]); apply Forall_nil]). }
    destruct ex as [res|].
    + injection H as <- <- <-. rewrite Hf, Hs, repeat_length.
      split; [exact Hn|]. split; [simpl List.length; lia|].
      split; [simpl List.length; lia|]. split; [apply Hsum|].
      split.
      * intros i m res' Hi Ht. apply nth_error_repeat in Hi. destruct Hi as [-> Hi].
        destruct (Nat.eq_dec (S i) k) as [Heq|Hne].
        -- replace (k - 1 + n)%nat with (i + n)%nat in Hex by lia.
           split; [exact Heq | congruence].
        -- assert (Hr : retryable (fetch (i + n)%nat model) = true) by (apply Hgo; lia).
           apply retryable_terminalOf in Hr. congruence.
      * intros Hall.
        assert (Hr : retryable (fetch (k - 1 + n)%nat model) = true).
        { apply Hall. apply nth_error_repeat_last. lia. }
        apply retryable_terminalOf in Hr. congruence.
    + destruct Hex as (-> & Hr2 & ->).
      destruct (runA rest n1 (caught (fetch (2 + n)%nat model))) as [[r2 n2] evs2] eqn:E2.
      injection H as <- <- <-.
      destruct (IH _ _ _ _ _ E2) as (Hn2 & Hlen & Hsum2 & Hall2 & Hterm & Hexh).
      rewrite fetched_app, slept_app, Hf, Hs, length_app, sumZ_app. simpl repeat.
      simpl firstn. simpl List.length.
      split; [lia|]. split; [lia|]. split; [simpl sumZ; lia|].
      split; [apply Forall_app; split;
              [repeat (apply Forall_cons; [auto|]); apply Forall_nil | exact Hall2]|].
      split.
      * intros i m res Hi Ht.
        destruct i as [|[|[|i]]]; simpl in Hi.
        -- injection Hi as <-.
           assert (Hr : retryable (fetch (0 + n)%nat model) = true) by (apply Hgo; lia).
           apply retryable_terminalOf in Hr. congruence.
        -- injection Hi as <-.
           assert (Hr : retryable (fetch (1 + n)%nat model) = true) by (apply Hgo; lia).
           apply retryable_terminalOf in Hr. congruence.
        -- injection Hi as <-. apply retryable_terminalOf in Hr2. congruence.
        -- replace (S (S (S i)) + n)%nat with (i + n1)%nat in Ht by lia.
           destruct (Hterm _ _ _ Hi Ht) as [H1 H2]. split; [lia | exact H2].
      * intros Hall.
        destruct Hexh as (Hf2 & Hs2 & Hr).
        { intros i m Hi. replace (i + n1)%nat with (S (S (S i)) + n)%nat by lia.
          apply Hall. exact Hi. }
        rewrite Hf2, Hs2, Hr. subst n1. repeat split.
Qed.

(** A run of policy B: a failed response that is not a throttle signal ends
    it with that failure, and replies the loop goes on from take it through
    the whole list to the aggregated failure. *)
Lemma tryModelsB_full (preferred : string) (models : list string) :
  forall n lastError r n' evs,
  runB preferred models n lastError = (r, n', evs) ->
  (forall i m msg,
      nth_error (fetched evs) i = Some m ->
      hardFailure (fetch (i + n)%nat m) = Some msg ->
      S i = List.length (fetched evs) /\ r = Failure msg)
  /\ ((forall i m, nth_error (fetched evs) i = Some m ->
                   retryable (fetch (i + n)%nat m) = true) ->
      fetched evs = models
      /\ r = Failure (exhaustedB
                        (finalErrorB fetch syntaxErrorMessage models n lastError))).
Proof.
  induction models as [|model rest IH]; intros n lastError r n' evs H.
  - injection H as <- <- <-. simpl. split; [intros [|i]; discriminate|].
    intros _. split; reflexivity.
  - assert (Hstop : forall r0,
               retryable (fetch n model) = false ->
               (forall msg, hardFailure (fetch n model) = Some msg -> r0 = Failure msg) ->
               (r0, S n, [Fetch model]) = (r, n', evs) ->
               (forall i m msg,
                   nth_error (fetched evs) i = Some m ->
                   hardFailure (fetch (i + n)%nat m) = Some msg ->
                   S i = List.length (fetched evs) /\ r = Failure msg)
               /\ ((forall i m, nth_error (fetched evs) i = Some m ->
                                retryable (fetch (i + n)%nat m) = true) ->
                   fetched evs = model :: rest
                   /\ r = Failure (exhaustedB
                                     (finalErrorB fetch syntaxErrorMessage
                                                  (model :: rest) n lastError)))).
    { intros r0 Hnr Hhard E. injection E as <- <- <-. simpl. split.
      - intros [|i] m msg Hi Hh; simpl in Hi; [|destruct i; discriminate].
        injection Hi as <-. split; [reflexivity | now apply Hhard].
      - intros Hall. specialize (Hall 0%nat model eq_refl). simpl in Hall. congruence. }
    assert (Hgo : forall le0 between,
               hardFailure (fetch n model) = None ->
               (retryable (fetch n model) = true ->
                le0 = caught (fetch n model)) ->
               fetched between = [] ->
               (let '(r1, n1, evs1) := runB preferred rest (S n) le0 in
                (r1, n1, (Fetch model :: between ++ evs1)%list)) = (r, n', evs) ->
               (forall i m msg,
                   nth_error (fetched evs) i = Some m ->
                   hardFailure (fetch (i + n)%nat m) = Some msg ->
                   S i = List.length (fetched evs) /\ r = Failure msg)
               /\ ((forall i m, nth_error (fetched evs) i = Some m ->
                                retryable (fetch (i + n)%nat m) = true) ->
                   fetched evs = model :: rest
                   /\ r = Failure (exhaustedB
                                     (finalErrorB fetch syntaxErrorMessage
                                                  (model :: rest) n lastError)))).
    { intros le0 between Hnh Hle Hb E.
      destruct (runB preferred rest (S n) le0) as [[r1 n1] evs1] eqn:E1.
      injection E as <- <- <-.
      destruct (IH _ _ _ _ _ E1) as (Hhard1 & Hexh1).
      simpl. rewrite fetched_app, Hb. simpl. split.
      - intros [|i] m msg Hi Hh; simpl in Hi.
        + injection Hi as <-. simpl in Hh. congruence.
        + replace (S i + n)%nat with (i + S n)%nat in Hh by lia.
          destruct (Hhard1 _ _ _ Hi Hh) as [H1 H2]. split; [lia | exact H2].
      - intros Hall.
        assert (H0 : retryable (fetch n model) = true) by (apply (Hall 0%nat); reflexivity).
        destruct Hexh1 as [Hf1 Hr1].
        { intros i m Hi. replace (i + S n)%nat with (S i + n)%nat by lia.
          apply Hall. exact Hi. }
        rewrite Hf1, Hr1, (Hle H0). split; reflexivity. }
    simpl in H. destruct (fetch n model) as [msg|text|status message] eqn:F.
    + apply (Hgo (orElse msg "Network error.") []); auto.
    + simpl in Hstop, Hgo.
      destruct (Parser._parseJSON text) as [parsed|] eqn:P.
      * destruct (String.eqb model preferred).
        -- apply (Hstop (Success parsed)); [reflexivity | discriminate | exact H].
        -- destruct (setUsedModel parsed model) as [parsed'|].
           ++ apply (Hstop (Success parsed')); [reflexivity | discriminate | exact H].
           ++ apply (Hgo (orElse typeErrorMessage "Network error.") []);
                [reflexivity | discriminate | reflexivity | exact H].
      * apply (Hgo (orElse (syntaxErrorMessage text) "Network error.") []); auto.
    + simpl in Hstop, Hgo.
      destruct (_isRateLimitError status (errMsgOf status message)) eqn:R.
      * apply (Hgo (errMsgOf status message) [Notify 0 model 1]); auto.
      * apply (Hstop (Failure (errMsgOf status message)));
          [reflexivity | intros msg Hm; congruence | exact H].
Qed.

End Runs.

Lemma finalErrorA_last fetch syntaxErrorMessage (models : list string) (model : string) :
  forall n lastError,
  finalErrorA fetch syntaxErrorMessage (models ++ [model]) n lastError
  = caughtMessage syntaxErrorMessage (fetch (2 + 3 * List.length models + n)%nat model).
Proof.
  induction models as [|m rest IH]; intros n lastError; [reflexivity|].
  simpl app. simpl finalErrorA. rewrite IH. simpl List.length.
  do 2 f_equal. lia.
Qed.

Lemma finalErrorB_last fetch syntaxErrorMessage (models : list string) (model : string) :
  forall n lastError,
  finalErrorB fetch syntaxErrorMessage (models ++ [model]) n lastError
  = caughtMessage syntaxErrorMessage (fetch (List.length models + n)%nat model).
Proof.
  induction models as [|m rest IH]; intros n lastError; [reflexivity|].
  simpl app. simpl finalErrorB. rewrite IH. simpl List.length.
  do 2 f_equal. lia.
Qed.

Lemma InOrder_length (most : nat) (trace models : list string) :
  InOrder most trace models ->
  (List.length trace <= most * List.length models)%nat.
Proof.
  induction 1 as [models|model k trace models Hk _ IH]; [simpl; lia|].
  rewrite length_app, repeat_length. simpl List.length.
  rewrite Nat.mul_succ_r. destruct Hk as [_ Hk].
  rewrite (Nat.add_comm k). apply Nat.add_le_mono; [exact IH | exact Hk].
Qed.

(** X1. [_callAPI] asks the models in the order of the list, each one to
    three times in a row, and the first reply that parses is the last request
    of the run and is what the run returns. *)
Theorem callAPI_order_and_short_circuit
    (fetch : nat -> string -> Reply) (syntaxErrorMessage : string -> string)
    (apiKey : string) (models : list string) (r : Result) (evs : list Event) :
  _callAPI fetch syntaxErrorMessage apiKey models = (r, evs) ->
  InOrder 3 (fetched evs) models
  /\ forall i m d,
       nth_error (fetched evs) i = Some m ->
       parsedData (fetch i m) = Some d ->
       S i = List.length (fetched evs) /\ r = Success d.
Proof.
  unfold _callAPI. destruct apiKey as [|c key].
  - intros H. injection H as <- <-. split; [constructor | intros [|i]; discriminate].
  - destruct (tryModelsA fetch syntaxErrorMessage models 0 EmptyString)
      as [[r0 n0] evs0] eqn:E.
    intros H. injection H as <- <-.
    destruct (tryModelsA_run _ _ _ _ _ _ _ _ E) as (_ & Hord & Hs).
    split; [exact Hord | exact Hs].
Qed.

Lemma callAPI_order_and_short_circuit_witness :
  _callAPI throttledThenNull (fun _ => EmptyString) "key" ["m1"; "m2"]
  = (Success JNull, [Fetch "m1"; Notify 2 "m1" 1; Sleep 2000; Fetch "m1"])
  /\ InOrder 3 ["m1"; "m1"] ["m1"; "m2"].
Proof.
  split; [reflexivity|].
  apply (proj1 (callAPI_order_and_short_circuit
                  throttledThenNull (fun _ => EmptyString) "key" ["m1"; "m2"]
                  _ _ eq_refl)).
Defined.

(** X2. [_callGemini] asks the preferred model first and then the working
    models other than it, in order and at most once each, and never waits; a
    reply that parses -- to something other than [null], or from the
    preferred model -- is the last request of the run, and the run succeeds. *)
Theorem callGemini_order_and_short_circuit
    (fetch : nat -> string -> Reply) (syntaxErrorMessage : string -> string)
    (typeErrorMessage apiKey preferred : string) (working : list string)
    (r : Result) (evs : list Event) :
  _callGemini fetch syntaxErrorMessage typeErrorMessage apiKey preferred working = (r, evs) ->
  (exists rest, modelsToTryB preferred working = (fetched evs ++ rest)%list)
  /\ slept evs = []
  /\ forall i m d,
       nth_error (fetched evs) i = Some m ->
       parsedData (fetch i m) = Some d ->
       m = preferred \/ d <> JNull ->
       S i = List.length (fetched evs) /\ exists d', r = Success d'.
Proof.
  unfold _callGemini. destruct apiKey as [|c key].
  - intros H. injection H as <- <-.
    split; [now exists (modelsToTryB preferred working)|].
    split; [reflexivity | intros [|i]; discriminate].
  - pose proof (tryModelsB_never_sleeps fetch syntaxErrorMessage typeErrorMessage
                  preferred (modelsToTryB preferred working) 0 EmptyString) as Hsl.
    destruct (tryModelsB fetch syntaxErrorMessage typeErrorMessage preferred
                (modelsToTryB preferred working) 0 EmptyString)
      as [[r0 n0] evs0] eqn:E.
    intros H. injection H as <- <-.
    destruct (tryModelsB_run _ _ _ _ _ _ _ _ _ _ E) as (_ & Hpre & Hs).
    split; [exact Hpre|]. split; [exact Hsl | exact Hs].
Qed.

Lemma callGemini_order_and_short_circuit_witness :
  _callGemini throttledThenNull (fun _ => EmptyString) EmptyString
              "key" "gemini-2.5-flash-lite" ALL_MODELS_B
  = (Success (JObject [ ("a", JNumber 1 0);
                        ("_usedModel", JString "gemini-2.0-flash-lite") ]),
     [ Fetch "gemini-2.5-flash-lite"; Notify 0 "gemini-2.5-flash-lite" 1;
       Fetch "gemini-2.5-flash"; Fetch "gemini-2.0-flash-lite" ])
  /\ slept [ Fetch "gemini-2.5-flash-lite"; Notify 0 "gemini-2.5-flash-lite" 1;
             Fetch "gemini-2.5-flash"; Fetch "gemini-2.0-flash-lite" ] = [].
Proof.
  split; [reflexivity|].
  apply (proj1 (proj2 (callGemini_order_and_short_circuit
                         throttledThenNull (fun _ => EmptyString) EmptyString
                         "key" "gemini-2.5-flash-lite" ALL_MODELS_B _ _ eq_refl))).
Defined.

(** X3. In both fallback clients a failed response that is not a throttle
    signal ends the run at once: it is the last request, no other model is
    asked, and the run fails with the server's message (or [API error
    (status)] when there is none). *)
Theorem hard_failure_ends_the_run
    (fetch : nat -> string -> Reply) (syntaxErrorMessage : string -> string)
    (typeErrorMessage apiKey preferred : string) (models : list string) :
  (forall r evs i m msg,
      _callAPI fetch syntaxErrorMessage apiKey models = (r, evs) ->
      nth_error (fetched evs) i = Some m ->
      hardFailure (fetch i m) = Some msg ->
      S i = List.length (fetched evs) /\ r = Failure msg)
  /\ (forall r evs i m msg,
         _callGemini fetch syntaxErrorMessage typeErrorMessage apiKey preferred models
         = (r, evs) ->
         nth_error (fetched evs) i = Some m ->
         hardFailure (fetch i m) = Some msg ->
         S i = List.length (fetched evs) /\ r = Failure msg).
Proof.
  split; intros r evs i m msg H Hi Hh.
  - unfold _callAPI in H. destruct apiKey as [|c key].
    + injection H as <- <-. destruct i; discriminate.
    + destruct (tryModelsA fetch syntaxErrorMessage models 0 EmptyString)
        as [[r0 n0] evs0] eqn:E.
      injection H as <- <-.
      destruct (tryModelsA_full _ _ _ _ _ _ _ _ E) as (_ & _ & _ & _ & Hterm & _).
      apply (Hterm i m (Failure msg) Hi).
      rewrite Nat.add_0_r. destruct (fetch i m); try discriminate.
      simpl in *. now rewrite Hh.
  - unfold _callGemini in H. destruct apiKey as [|c key].
    + injection H as <- <-. destruct i; discriminate.
    + destruct (tryModelsB fetch syntaxErrorMessage typeErrorMessage preferred
                  (modelsToTryB preferred models) 0 EmptyString)
        as [[r0 n0] evs0] eqn:E.
      injection H as <- <-.
      destruct (tryModelsB_full _ _ _ _ _ _ _ _ _ _ E) as (Hhard & _).
      apply (Hhard i m msg Hi). now rewrite Nat.add_0_r.
Qed.

Lemma hard_failure_ends_the_run_witness :
  _callAPI serverError (fun _ => EmptyString) "key" ALL_MODELS_A
  = (Failure "Internal error", [Fetch "google/gemini-2.5-flash"])
  /\ hardFailure (serverError 0 "google/gemini-2.5-flash") = Some "Internal error"
  /\ 1%nat = List.length (fetched [Fetch "google/gemini-2.5-flash"])
  /\ Failure "Internal error" = Failure "Internal error".
Proof.
  split; [reflexivity|]. split; [reflexivity|].
  apply (proj1 (hard_failure_ends_the_run
                  serverError (fun _ => EmptyString) EmptyString "key" EmptyString
                  ALL_MODELS_A)
           _ _ 0%nat "google/gemini-2.5-flash" "Internal error"
           eq_refl eq_refl eq_refl).
Defined.

(** X4. One call of [_callAPI] sends at most three requests per model and
    waits at most 6000 ms per model, in waits of 2000 or 4000 ms; one call of
    [_callGemini] sends at most one request per working model and one more
    for the preferred model. *)
Theorem requests_and_waits_are_bounded
    (fetch : nat -> string -> Reply) (syntaxErrorMessage : string -> string)
    (typeErrorMessage apiKey preferred : string) (models : list string) :
  (let evs := snd (_callAPI fetch syntaxErrorMessage apiKey models) in
   (List.length (fetched evs) <= 3 * List.length models)%nat
   /\ sumZ (slept evs) <= 6000 * Z.of_nat (List.length models)
   /\ Forall (fun ms => ms = 2000 \/ ms = 4000) (slept evs))
  /\ (let evs := snd (_callGemini fetch syntaxErrorMessage typeErrorMessage
                                  apiKey preferred models) in
      (List.length (fetched evs) <= 1 + List.length models)%nat).
Proof.
  split; cbv zeta.
  - unfold _callAPI. destruct apiKey as [|c key].
    + cbn [snd fetched slept sumZ List.length].
      split; [lia|]. split; [lia | constructor].
    + destruct (tryModelsA fetch syntaxErrorMessage models 0 EmptyString)
        as [[r0 n0] evs0] eqn:E. cbn [snd].
      destruct (tryModelsA_full _ _ _ _ _ _ _ _ E) as (_ & H1 & H2 & H3 & _).
      split; [exact H1|]. split; [exact H2 | exact H3].
  - destruct (_callGemini fetch syntaxErrorMessage typeErrorMessage
                          apiKey preferred models) as [r evs] eqn:E. simpl.
    destruct (callGemini_order_and_short_circuit _ _ _ _ _ _ _ _ E) as ([rest Hrest] & _).
    assert (Hlen : List.length (modelsToTryB preferred models)
                   = (List.length (fetched evs) + List.length rest)%nat)
      by (rewrite Hrest; apply length_app).
    unfold modelsToTryB in Hlen. simpl in Hlen.
    pose proof (filter_length_le (fun m => negb (String.eqb m preferred)) models).
    lia.
Qed.

(** X5. When every reply is one the loops go on from (an exception, a 2xx
    that does not parse, a throttle signal), [_callAPI] asks every model of
    the list three times, in order, with waits of 2000 and 4000 ms for each,
    and [_callGemini] asks every model once; both end with their aggregated
    failure, which names the message of the last reply. *)
Theorem exhaustion_names_the_last_error
    (fetch : nat -> string -> Reply) (syntaxErrorMessage : string -> string)
    (typeErrorMessage apiKey preferred : string) (models : list string) (last : string) :
  (forall k m, retryable (fetch k m) = true) ->
  apiKey <> EmptyString ->
  (exists evs,
      _callAPI fetch syntaxErrorMessage apiKey (models ++ [last])
      = (Failure (exhaustedA
                    (caughtMessage syntaxErrorMessage
                       (fetch (2 + 3 * List.length models)%nat last))),
         evs)
      /\ fetched evs = flat_map (fun m => [m; m; m]) (models ++ [last])
      /\ slept evs = flat_map (fun _ => [2000; 4000]) (models ++ [last]))
  /\ (exists evs,
         _callGemini fetch syntaxErrorMessage typeErrorMessage apiKey preferred models
         = (Failure (exhaustedB
                       (finalErrorB fetch syntaxErrorMessage
                                    (modelsToTryB preferred models) 0 EmptyString)),
            evs)
         /\ fetched evs = modelsToTryB preferred models).
Proof.
  intros Hall Hkey. split.
  - unfold _callAPI. destruct apiKey as [|c key]; [now elim Hkey|].
    destruct (tryModelsA fetch syntaxErrorMessage (models ++ [last]) 0 EmptyString)
      as [[r0 n0] evs0] eqn:E.
    destruct (tryModelsA_full _ _ _ _ _ _ _ _ E) as (_ & _ & _ & _ & _ & Hexh).
    destruct Hexh as (Hf & Hs & Hr); [intros i m _; apply Hall|].
    exists evs0. rewrite Hr, finalErrorA_last, Nat.add_0_r. repeat split; assumption.
  - unfold _callGemini. destruct apiKey as [|c key]; [now elim Hkey|].
    destruct (tryModelsB fetch syntaxErrorMessage typeErrorMessage preferred
                (modelsToTryB preferred models) 0 EmptyString)
      as [[r0 n0] evs0] eqn:E.
    destruct (tryModelsB_full _ _ _ _ _ _ _ _ _ _ E) as (_ & Hexh).
    destruct Hexh as (Hf & Hr); [intros i m _; apply Hall|].
    exists evs0. rewrite Hr. split; [reflexivity | exact Hf].
Qed.

Lemma exhaustion_names_the_last_error_witness :
  (forall k m, retryable (alwaysOffline k m) = true)
  /\ "key" <> EmptyString
  /\ exists evs,
       _callAPI alwaysOffline (fun _ => EmptyString) "key" (["m1"] ++ ["m2"])
       = (Failure (exhaustedA "Failed to fetch"), evs)
       /\ fetched evs = ["m1"; "m1"; "m1"; "m2"; "m2"; "m2"]
       /\ slept evs = [2000; 4000; 2000; 4000].
Proof.
  split; [reflexivity|]. split; [discriminate|].
  apply (proj1 (exhaustion_names_the_last_error
                  alwaysOffline (fun _ => EmptyString) EmptyString "key" EmptyString
                  ["m1"] "m2" (fun _ _ => eq_refl) ltac:(discriminate))).
Defined.

(** *** The throttle vocabulary *)

Lemma toLowerCase_append (a b : string) :
  Js.toLowerCase (a ++ b) = Js.toLowerCase a ++ Js.toLowerCase b.
Proof. induction a as [|c a IH]; simpl; [reflexivity | now rewrite IH]. Qed.

Lemma prefix_append (w b : string) : String.prefix w (w ++ b) = true.
Proof.
  induction w as [|c w IH]; simpl; [apply JsFacts.prefix_empty|].
  destruct (ascii_dec c c) as [_|E]; [exact IH | now elim E].
Qed.

Lemma includes_infix (a w b : string) : Js.includes (a ++ w ++ b) w = true.
Proof.
  unfold Js.includes. apply Z.leb_le.
  induction a as [|c a IH]; rewrite JsFacts.indexOf_unfold.
  - simpl append. rewrite prefix_append. lia.
  - destruct (String.prefix w (String c a ++ w ++ b)); [lia|].
    change (String c a ++ w ++ b) with (String c (a ++ w ++ b)). cbv beta iota zeta.
    destruct (Js.indexOf (a ++ w ++ b) w <? 0) eqn:E; [apply Z.ltb_lt in E|]; lia.
Qed.

(** X6. A failed response whose message holds [quota], [rate] or
    [resource_exhausted] anywhere, in any letter case -- also inside another
    word, as in [generate] -- is a throttle signal, whatever its status. *)
Theorem throttle_vocabulary_matches_anywhere
    (status : Z) (before word after : string) :
  Js.toLowerCase word = "quota" \/ Js.toLowerCase word = "rate"
  \/ Js.toLowerCase word = "resource_exhausted" ->
  _isRateLimitError status (before ++ word ++ after) = true
  /\ throttled (Failed status (before ++ word ++ after)) = true.
Proof.
  intros H.
  assert (Hany : _isRateLimitError status (before ++ word ++ after) = true).
  { apply isRateLimitError_vocabulary. rewrite !toLowerCase_append.
    destruct H as [H|[H|H]]; rewrite H;
      [left | right; left | right; right]; apply includes_infix. }
  split; [exact Hany|].
  simpl. unfold errMsgOf.
  destruct (before ++ word ++ after) eqn:E; [|exact Hany].
  destruct before; [|discriminate]. destruct word; [|discriminate].
  destruct H as [H|[H|H]]; discriminate.
Qed.

Lemma throttle_vocabulary_matches_anywhere_witness :
  (Js.toLowerCase "Rate" = "quota" \/ Js.toLowerCase "Rate" = "rate"
   \/ Js.toLowerCase "Rate" = "resource_exhausted")
  /\ _isRateLimitError 500 ("Unable to gene" ++ "Rate" ++ " content") = true.
Proof.
  split; [right; left; reflexivity|].
  apply (proj1 (throttle_vocabulary_matches_anywhere
                  500 "Unable to gene" "Rate" " content"
                  (or_intror (or_introl eq_refl)))).
Defined.

(** *** The list of models of the Gemini client *)

(** X7. When the working models hold no model twice, one call of
    [_callGemini] asks no model twice, and every model it asks is the
    preferred one or a working one. *)
Theorem callGemini_asks_no_model_twice
    (fetch : nat -> string -> Reply) (syntaxErrorMessage : string -> string)
    (typeErrorMessage apiKey preferred : string) (working : list string)
    (r : Result) (evs : list Event) :
  NoDup working ->
  _callGemini fetch syntaxErrorMessage typeErrorMessage apiKey preferred working = (r, evs) ->
  NoDup (fetched evs)
  /\ forall m, In m (fetched evs) -> m = preferred \/ In m working.
Proof.
  intros Hnd H.
  destruct (callGemini_order_and_short_circuit _ _ _ _ _ _ _ _ H) as ([rest Hrest] & _).
  assert (Hall : NoDup (modelsToTryB preferred working)).
  { unfold modelsToTryB. constructor.
    - rewrite filter_In. intros [_ Hp]. now rewrite String.eqb_refl in Hp.
    - now apply NoDup_filter. }
  rewrite Hrest in Hall. split; [now apply NoDup_app_remove_r in Hall|].
  intros m Hm.
  assert (Hin : In m (modelsToTryB preferred working))
    by (rewrite Hrest; apply in_or_app; now left).
  unfold modelsToTryB in Hin. destruct Hin as [<-|Hin]; [now left|].
  right. now apply filter_In in Hin.
Qed.

Lemma callGemini_asks_no_model_twice_witness :
  NoDup ALL_MODELS_B
  /\ NoDup (fetched [ Fetch "gemini-2.5-flash"; Notify 0 "gemini-2.5-flash" 1;
                      Fetch "gemini-2.5-flash-lite"; Fetch "gemini-2.0-flash-lite" ]).
Proof.
  assert (Hnd : NoDup ALL_MODELS_B).
  { unfold ALL_MODELS_B.
    repeat (constructor; [simpl; intuition discriminate|]). constructor. }
  split; [exact Hnd|].
  apply (proj1 (callGemini_asks_no_model_twice
                  throttledThenNull (fun _ => EmptyString) EmptyString
                  "key" "gemini-2.5-flash" ALL_MODELS_B _ _ Hnd eq_refl)).
Defined.

(** *** Probing the models *)

Section Probes.

Variable probe : nat -> string -> Reply.

Lemma probeModels_spec (models : list string) : forall i working evs,
  probeModels probe models i = (working, evs) ->
  fetched evs = models
  /\ Forall (fun ms => ms = 1500) (slept evs)
  /\ (forall m, In m working -> In m models)
  /\ (forall k m, nth_error models k = Some m ->
                  probeKeeps (probe (k + i)%nat m) = true -> In m working)
  /\ (NoDup models ->
      NoDup working
      /\ forall k m, nth_error models k = Some m -> In m working ->
                     probeKeeps (probe (k + i)%nat m) = true).
Proof.
  induction models as [|model rest IH]; intros i working evs H.
  - injection H as <- <-. simpl. split; [reflexivity|]. split; [constructor|].
    split; [tauto|]. split; [intros [|k]; discriminate|].
    intros _. split; [constructor | intros [|k]; discriminate].
  - simpl in H.
    destruct (probeModels probe rest (S i)) as [working1 evs1] eqn:E.
    destruct (IH _ _ _ E) as (Hf & Hsl & Hin & Hkeep & Hnd).
    assert (Hshift : forall k, (S k + i)%nat = (k + S i)%nat) by (intros; lia).
    assert (Hkept : forall evs0,
               probeKeeps (probe i model) = true ->
               fetched evs0 = model :: rest ->
               Forall (fun ms => ms = 1500) (slept evs0) ->
               (model :: working1, evs0) = (working, evs) ->
               fetched evs = model :: rest
               /\ Forall (fun ms => ms = 1500) (slept evs)
               /\ (forall m, In m working -> In m (model :: rest))
               /\ (forall k m, nth_error (model :: rest) k = Some m ->
                               probeKeeps (probe (k + i)%nat m) = true -> In m working)
               /\ (NoDup (model :: rest) ->
                   NoDup working
                   /\ forall k m, nth_error (model :: rest) k = Some m -> In m working ->
                                  probeKeeps (probe (k + i)%nat m) = true)).
    { intros evs0 Hk Hf0 Hs0 E0. injection E0 as <- <-.
      split; [exact Hf0|]. split; [exact Hs0|].
      split; [intros m [<-|Hm]; [now left | right; now apply Hin]|].
      split.
      - intros [|k] m Hn Hp; simpl in Hn.
        + injection Hn as <-. now left.
        + right. apply (Hkeep k m Hn). now rewrite <- Hshift.
      - intros Hnodup. inversion Hnodup as [|x l Hnotin Hrest]; subst.
        destruct (Hnd Hrest) as [Hnd1 Hback]. split.
        + constructor; [intros Hm; apply Hnotin, Hin, Hm | exact Hnd1].
        + intros [|k] m Hn Hm; simpl in Hn.
          * injection Hn as <-. exact Hk.
          * rewrite Hshift. apply Hback; [exact Hn|].
            destruct Hm as [<-|Hm]; [|exact Hm].
            elim Hnotin. eapply nth_error_In. exact Hn. }
    assert (Hdropped : forall evs0,
               probeKeeps (probe i model) = false ->
               fetched evs0 = model :: rest ->
               Forall (fun ms => ms = 1500) (slept evs0) ->
               (working1, evs0) = (working, evs) ->
               fetched evs = model :: rest
               /\ Forall (fun ms => ms = 1500) (slept evs)
               /\ (forall m, In m working -> In m (model :: rest))
               /\ (forall k m, nth_error (model :: rest) k = Some m ->
                               probeKeeps (probe (k + i)%nat m) = true -> In m working)
               /\ (NoDup (model :: rest) ->
                   NoDup working
                   /\ forall k m, nth_error (model :: rest) k = Some m -> In m working ->
                                  probeKeeps (probe (k + i)%nat m) = true)).
    { intros evs0 Hk Hf0 Hs0 E0. injection E0 as <- <-.
      split; [exact Hf0|]. split; [exact Hs0|].
      split; [intros m Hm; right; now apply Hin|].
      split.
      - intros [|k] m Hn Hp; simpl in Hn.
        + injection Hn as <-. simpl in Hp. congruence.
        + apply (Hkeep k m Hn). now rewrite <- Hshift.
      - intros Hnodup. inversion Hnodup as [|x l Hnotin Hrest]; subst.
        destruct (Hnd Hrest) as [Hnd1 Hback]. split; [exact Hnd1|].
        intros [|k] m Hn Hm; simpl in Hn.
        + injection Hn as <-. elim Hnotin. now apply Hin.
        + rewrite Hshift. now apply Hback. }
    destruct (probe i model) as [msg|text|status msg] eqn:P.
    + eapply Hkept; [reflexivity | | | exact H];
        [simpl; now rewrite Hf | exact Hsl].
    + eapply Hkept; [reflexivity | | | exact H];
        [simpl; now rewrite Hf | simpl; constructor; [reflexivity | exact Hsl]].
    + simpl in Hkept, Hdropped. destruct (mightWorkLater status msg) eqn:M.
      * eapply Hkept; [reflexivity | | | exact H];
          [simpl; now rewrite Hf | simpl; constructor; [reflexivity | exact Hsl]].
      * eapply Hdropped; [reflexivity | | | exact H];
          [simpl; now rewrite Hf | simpl; constructor; [reflexivity | exact Hsl]].
Qed.

(** X8. Once the key itself is accepted, [validateApiKey] of the Gemini
    client probes every model of the list once, in order, with pauses of
    1500 ms.  It succeeds exactly when it keeps some model; the models it
    stores are models of the list, and, the list holding no model twice, they
    are exactly those whose probe answered 2xx, failed without a word of
    quota and without status 429, or threw -- none of them twice. *)
Theorem validateApiKey_probes_every_model
    (body : string) (models : list string) (v : Validation) (evs : list Event) :
  NoDup models ->
  validateApiKey_B probe (Ok2xx body) models = (v, evs) ->
  fetched evs = models
  /\ Forall (fun ms => ms = 1500) (slept evs)
  /\ (forall working,
         v = Valid (Some working) ->
         working <> [] /\ NoDup working
         /\ forall k m, nth_error models k = Some m ->
                        (In m working <-> probeKeeps (probe k m) = true))
  /\ (forall error,
         v = Invalid error ->
         error = noQuotaError
         /\ forall k m, nth_error models k = Some m -> probeKeeps (probe k m) = false)
  /\ v <> Valid None.
Proof.
  intros Hnodup H. unfold validateApiKey_B in H.
  destruct (probeModels probe models 0) as [working evs0] eqn:E.
  destruct (probeModels_spec _ _ _ _ E) as (Hf & Hsl & Hin & Hkeep & Hnd).
  destruct (Hnd Hnodup) as [Hnd1 Hback].
  assert (Hiff : forall k m, nth_error models k = Some m ->
                             (In m working <-> probeKeeps (probe k m) = true)).
  { intros k m Hn. specialize (Hkeep k m Hn). specialize (Hback k m Hn).
    rewrite Nat.add_0_r in Hkeep, Hback. split; assumption. }
  destruct working as [|w ws]; injection H as <- <-;
    (split; [exact Hf|]; split; [exact Hsl|]; split; [|split]); try discriminate.
  - intros error He. injection He as <-. split; [reflexivity|].
    intros k m Hn. destruct (probeKeeps (probe k m)) eqn:K; [|reflexivity].
    apply (Hiff k m Hn) in K. destruct K.
  - intros working Hw. injection Hw as <-.
    split; [discriminate|]. split; [exact Hnd1 | exact Hiff].
Qed.

End Probes.

Lemma validateApiKey_probes_every_model_witness :
  NoDup ALL_MODELS_B
  /\ validateApiKey_B secondThrottled (Ok2xx EmptyString) ALL_MODELS_B
     = (Valid (Some [ "gemini-2.5-flash-lite"; "gemini-2.0-flash-lite"; "gemini-2.0-flash" ]),
        [ Fetch "gemini-2.5-flash-lite"; Sleep 1500; Fetch "gemini-2.5-flash"; Sleep 1500;
          Fetch "gemini-2.0-flash-lite"; Sleep 1500; Fetch "gemini-2.0-flash"; Sleep 1500 ])
  /\ fetched [ Fetch "gemini-2.5-flash-lite"; Sleep 1500; Fetch "gemini-2.5-flash"; Sleep 1500;
               Fetch "gemini-2.0-flash-lite"; Sleep 1500; Fetch "gemini-2.0-flash"; Sleep 1500 ]
     = ALL_MODELS_B.
Proof.
  assert (Hnd : NoDup ALL_MODELS_B).
  { unfold ALL_MODELS_B.
    repeat (constructor; [simpl; intuition discriminate|]). constructor. }
  split; [exact Hnd|]. split; [reflexivity|].
  apply (proj1 (validateApiKey_probes_every_model
                  secondThrottled EmptyString ALL_MODELS_B _ _ Hnd eq_refl)).
Defined.

(** *** Key validation of the OpenRouter client *)

(** X24. Key validation and calls of the OpenRouter client read a reply
    alike.  A reply on which [validateApiKey] accepts the key never makes
    [_callAPI] give up: it is a 2xx or a throttle signal.  A failed response
    that ends a call at once makes validation fail too, with the same
    message unless the status is 401 or 402, which have texts of their own. *)
Theorem accepted_key_is_no_hard_failure (r : Reply) :
  (validateApiKey_A r = Valid None ->
   hardFailure r = None
   /\ ((exists text, r = Ok2xx text) \/ throttled r = true))
  /\ (forall msg,
        hardFailure r = Some msg ->
        exists error,
          validateApiKey_A r = Invalid error
          /\ (error = msg
              \/ exists status message,
                   r = Failed status message /\ (status = 401 \/ status = 402))).
Proof.
  destruct r as [m|text|status message].
  - split; [discriminate|]. intros msg H. discriminate H.
  - split; [|intros msg H; discriminate H].
    intros _. split; [reflexivity|]. left. now exists text.
  - unfold validateApiKey_A, hardFailure, throttled.
    destruct (status =? 401) eqn:E1.
    { split; [discriminate|]. intros msg _. eexists. split; [reflexivity|].
      right. exists status, message. split; [reflexivity|]. left. now apply Z.eqb_eq. }
    destruct (status =? 402) eqn:E2.
    { split; [discriminate|]. intros msg _. eexists. split; [reflexivity|].
      right. exists status, message. split; [reflexivity|]. right. now apply Z.eqb_eq. }
    destruct (status =? 429) eqn:E3.
    { apply Z.eqb_eq in E3. subst status. rewrite isRateLimitError_429.
      split; [intros _; split; [reflexivity | now right]|].
      intros msg H. discriminate H. }
    split; [discriminate|].
    intros msg H.
    destruct (_isRateLimitError status (errMsgOf status message)); [discriminate H|].
    injection H as <-. eexists. split; [reflexivity | now left].
Qed.

Lemma accepted_key_is_no_hard_failure_witness :
  validateApiKey_A (Failed 429 EmptyString) = Valid None
  /\ hardFailure (Failed 429 EmptyString) = None.
Proof.
  split; [reflexivity|].
  exact (proj1 (proj1 (accepted_key_is_no_hard_failure (Failed 429 EmptyString)) eq_refl)).
Defined.

End InvokerMore.

(** ** More on the parser *)

Module ParserMore.

Import Js JsFacts Json Parser.

Lemma trimStart_blank (s : string) : allWhiteSpace s = true -> trimStart s = EmptyString.
Proof.
  induction s as [|c s IH]; simpl; [reflexivity|].
  intros H. apply andb_prop in H. destruct H as [Hc Hs]. rewrite Hc. now apply IH.
Qed.

Lemma trimEnd_blank (s : string) : allWhiteSpace s = true -> trimEnd s = EmptyString.
Proof.
  induction s as [|c s IH]; simpl; [reflexivity|].
  intros H. apply andb_prop in H. destruct H as [Hc Hs]. rewrite (IH Hs). now rewrite Hc.
Qed.

Lemma trimStart_padded (pad s : string) :
  allWhiteSpace pad = true -> trimStart (pad ++ s) = trimStart s.
Proof.
  induction pad as [|c pad IH]; simpl; [reflexivity|].
  intros H. apply andb_prop in H. destruct H as [Hc Hp]. rewrite Hc. now apply IH.
Qed.

Lemma trimEnd_padded (s pad : string) :
  allWhiteSpace pad = true -> trimEnd (s ++ pad) = trimEnd s.
Proof.
  intros H. induction s as [|c s IH]; simpl.
  - now apply trimEnd_blank.
  - now rewrite IH.
Qed.

Lemma trim_padded_right (s pad : string) :
  allWhiteSpace pad = true -> trim (s ++ pad) = trim s.
Proof.
  intros H. unfold trim. induction s as [|c s IH].
  - simpl append. rewrite (trimStart_blank pad H). reflexivity.
  - simpl. destruct (isWhiteSpace c); [exact IH|].
    change (String c (s ++ pad)) with (String c s ++ pad).
    now apply trimEnd_padded.
Qed.

Lemma trim_padded (before s after : string) :
  allWhiteSpace before = true -> allWhiteSpace after = true ->
  trim (before ++ s ++ after) = trim s.
Proof.
  intros Hb Ha. unfold trim. rewrite (trimStart_padded _ _ Hb).
  exact (trim_padded_right s after Ha).
Qed.

(** X9. White space and line breaks around the model's text do not matter to
    [_parseJSON]: padded with blanks and line breaks on either side, a text
    is normalised and parsed to the same. *)
Theorem parseJSON_ignores_surrounding_space (before text after : string) :
  allWhiteSpace before = true -> allWhiteSpace after = true ->
  normalize (before ++ text ++ after) = normalize text
  /\ _parseJSON (before ++ text ++ after) = _parseJSON text.
Proof.
  intros Hb Ha. unfold _parseJSON, normalize.
  now rewrite (trim_padded before text after Hb Ha).
Qed.

Lemma parseJSON_ignores_surrounding_space_witness :
  allWhiteSpace (newline ++ "  ") = true
  /\ allWhiteSpace (" " ++ newline) = true
  /\ _parseJSON ((newline ++ "  ") ++ ParserSamples.fenced_object_a_1 ++ (" " ++ newline))
     = _parseJSON ParserSamples.fenced_object_a_1.
Proof.
  split; [reflexivity|]. split; [reflexivity|].
  apply (proj2 (parseJSON_ignores_surrounding_space
                  (newline ++ "  ") ParserSamples.fenced_object_a_1 (" " ++ newline)
                  eq_refl eq_refl)).
Defined.

End ParserMore.

(** ** More on the scheduler *)

Module SchedulerMore.

Import Scheduler SchedulerFacts.

Lemma submitted_app (a b : list Action) :
  submitted (a ++ b) = (submitted a ++ submitted b)%list.
Proof.
  induction a as [|x a IH]; [reflexivity|].
  destruct x; simpl; now rewrite IH.
Qed.

Lemma exec_app (gap : Z) (a b : list Action) (s : State) :
  exec gap s (a ++ b) = exec gap (exec gap s a) b.
Proof. unfold exec. apply fold_left_app. Qed.

(** Running the callbacks: each run takes the oldest pending one. *)
Lemma exec_runs (gap : Z) (timings : list (N * N)) : forall s,
  _requestQueue (exec gap s (map (fun t => RunNext (fst t) (snd t)) timings))
  = skipn (List.length timings) (_requestQueue s).
Proof.
  induction timings as [|[late duration] timings IH]; intros s; [reflexivity|].
  simpl. unfold exec in *. rewrite IH. simpl.
  destruct (_requestQueue s) as [|fn pending] eqn:E.
  - rewrite E. now rewrite skipn_nil.
  - reflexivity.
Qed.

Lemma submitted_runs (timings : list (N * N)) :
  submitted (map (fun t => RunNext (fst t) (snd t)) timings) = [].
Proof. induction timings as [|t timings IH]; [reflexivity | exact IH]. Qed.

(** X10. No submitted task is lost or run twice: after any history of the
    scheduler, letting as many callbacks run as are pending empties the
    queue, and the tasks that have run are then exactly the tasks submitted,
    in the order of submission -- still paced by the minimum gap. *)
Theorem every_submitted_task_runs_once
    (gap t0 : Z) (acts : list Action) (timings : list (N * N)) :
  List.length timings = List.length (_requestQueue (exec gap (init t0) acts)) ->
  let s := exec gap (init t0)
                (acts ++ map (fun t => RunNext (fst t) (snd t)) timings) in
  _requestQueue s = []
  /\ map task (runs s) = submitted acts
  /\ Paced gap (runs s).
Proof.
  intros Hlen s. subst s. rewrite exec_app.
  assert (Hq : _requestQueue
                 (exec gap (exec gap (init t0) acts)
                       (map (fun t => RunNext (fst t) (snd t)) timings)) = []).
  { rewrite exec_runs, Hlen. apply skipn_all. }
  split; [exact Hq|]. split.
  - pose proof (exec_fifo gap (acts ++ map (fun t => RunNext (fst t) (snd t)) timings)
                          (init t0)) as H.
    rewrite exec_app, Hq, app_nil_r in H. rewrite H. simpl.
    now rewrite submitted_app, submitted_runs, app_nil_r.
  - rewrite <- exec_app. apply Inv_exec, Inv_init.
Qed.

Lemma every_submitted_task_runs_once_witness :
  List.length [(0%N, 200%N); (5%N, 300%N)]
  = List.length (_requestQueue (exec 1000 (init 5000) [Enqueue 7; Elapse 10; Enqueue 8]))
  /\ map task (runs (exec 1000 (init 5000)
                          ([Enqueue 7; Elapse 10; Enqueue 8]
                           ++ map (fun t => RunNext (fst t) (snd t))
                                  [(0%N, 200%N); (5%N, 300%N)])))
     = [7%nat; 8%nat].
Proof.
  split; [reflexivity|].
  apply (proj1 (proj2 (every_submitted_task_runs_once
                         1000 5000 [Enqueue 7; Elapse 10; Enqueue 8]
                         [(0%N, 200%N); (5%N, 300%N)] eq_refl))).
Defined.

End SchedulerMore.

(** ** More on the store and the pages *)

Module SessionMore.

Import Session SessionFacts.

(** *** The storage service *)

Lemma getSession_updateSession_other (sid sid' : string) (u : Updates) (store : Store) :
  sid' <> sid ->
  getSession sid' (updateSession sid u store) = getSession sid' store.
Proof.
  intros Hne. unfold getSession. induction store as [|s0 rest IH]; [reflexivity|].
  simpl. destruct (String.eqb (id s0) sid) eqn:E; simpl.
  - apply String.eqb_eq in E.
    assert (E' : String.eqb (id s0) sid' = false)
      by (apply String.eqb_neq; congruence).
    now rewrite E'.
  - now rewrite IH.
Qed.

Lemma updateSession_missing (sid : string) (u : Updates) (store : Store) :
  getSession sid store = None -> updateSession sid u store = store.
Proof.
  unfold getSession. induction store as [|s0 rest IH]; [reflexivity|].
  simpl. destruct (String.eqb (id s0) sid); [discriminate|].
  intros H. now rewrite IH.
Qed.

Lemma updateSession_ids (sid : string) (u : Updates) (store : Store) :
  map id (updateSession sid u store) = map id store.
Proof.
  induction store as [|s0 rest IH]; [reflexivity|].
  simpl. destruct (String.eqb (id s0) sid); simpl; [reflexivity | now rewrite IH].
Qed.

(** X11. [Storage.updateSession] merges the updates into the session of the
    given id and into nothing else: that session reads back merged, every
    session of another id reads back as before, the ids of the store and
    their order stay, and with no session of that id the store is left as it
    is. *)
Theorem updateSession_touches_one_session
    (sid : string) (u : Updates) (store : Store) :
  (forall s, getSession sid store = Some s ->
             getSession sid (updateSession sid u store) = Some (assign s u))
  /\ (getSession sid store = None -> updateSession sid u store = store)
  /\ (forall sid', sid' <> sid ->
                   getSession sid' (updateSession sid u store) = getSession sid' store)
  /\ map id (updateSession sid u store) = map id store.
Proof.
  split; [intros s; apply getSession_updateSession|].
  split; [apply updateSession_missing|].
  split; [intros sid'; apply getSession_updateSession_other|].
  apply updateSession_ids.
Qed.

Lemma updateSession_touches_one_session_witness :
  getSession "s2" sampleStore65 = None
  /\ updateSession "s2" (mkUpdates None (Some 9) None None None None None None) sampleStore65
     = sampleStore65.
Proof.
  split; [reflexivity|].
  apply (proj1 (proj2 (updateSession_touches_one_session
                         "s2" (mkUpdates None (Some 9) None None None None None None)
                         sampleStore65))).
  reflexivity.
Defined.

Lemma getSession_deleteSession (sid : string) (store : Store) :
  getSession sid (deleteSession sid store) = None.
Proof.
  unfold getSession, deleteSession. induction store as [|s0 rest IH]; [reflexivity|].
  simpl. destruct (String.eqb (id s0) sid) eqn:E; simpl; [exact IH|].
  now rewrite E.
Qed.

Lemma getSession_deleteSession_other (sid sid' : string) (store : Store) :
  sid' <> sid ->
  getSession sid' (deleteSession sid store) = getSession sid' store.
Proof.
  intros Hne. unfold getSession, deleteSession.
  induction store as [|s0 rest IH]; [reflexivity|].
  simpl. destruct (String.eqb (id s0) sid) eqn:E; simpl.
  - apply String.eqb_eq in E.
    assert (E' : String.eqb (id s0) sid' = false)
      by (apply String.eqb_neq; congruence).
    now rewrite E'.
  - now rewrite IH.
Qed.

Lemma deleteSession_missing (sid : string) (store : Store) :
  getSession sid store = None -> deleteSession sid store = store.
Proof.
  unfold getSession, deleteSession. induction store as [|s0 rest IH]; [reflexivity|].
  simpl. destruct (String.eqb (id s0) sid); [discriminate|].
  intros H. simpl. now rewrite IH.
Qed.

(** X12. A session just created reads back with its fresh values and leaves
    the sessions of other ids as they were; a deleted id reads back as
    absent, again without touching other ids; and creating a session under an
    unused id and deleting it again gives back the store. *)
Theorem create_get_delete
    (sid topic context startedAt : string) (store : Store) :
  getSession sid (snd (createSession sid topic context startedAt store))
  = Some (mkSession sid topic context startedAt None true 0 0 "foundational" 0 None [])
  /\ (forall sid', sid' <> sid ->
        getSession sid' (snd (createSession sid topic context startedAt store))
        = getSession sid' store)
  /\ getSession sid (deleteSession sid store) = None
  /\ (forall sid', sid' <> sid ->
        getSession sid' (deleteSession sid store) = getSession sid' store)
  /\ (getSession sid store = None ->
      deleteSession sid (snd (createSession sid topic context startedAt store)) = store).
Proof.
  split; [unfold getSession; simpl; now rewrite String.eqb_refl|].
  split.
  { intros sid' Hne. unfold getSession. simpl.
    assert (E : String.eqb sid sid' = false) by (apply String.eqb_neq; congruence).
    now rewrite E. }
  split; [apply getSession_deleteSession|].
  split; [intros sid'; apply getSession_deleteSession_other|].
  intros Hnone. unfold deleteSession. simpl. rewrite String.eqb_refl. simpl.
  now apply deleteSession_missing.
Qed.

Lemma create_get_delete_witness :
  getSession "s9" sampleStore65 = None
  /\ deleteSession "s9" (snd (createSession "s9" "Sets" EmptyString "t" sampleStore65))
     = sampleStore65.
Proof.
  split; [reflexivity|].
  apply (proj2 (proj2 (proj2 (proj2 (create_get_delete
                                       "s9" "Sets" EmptyString "t" sampleStore65))))).
  reflexivity.
Defined.

(** *** What the turns of a session add up to *)

Lemma countZ_cons {A : Type} (f : A -> bool) (x : A) (l : list A) :
  countZ f (x :: l) = (if f x then 1 else 0) + countZ f l.
Proof. unfold countZ. simpl. destruct (f x); simpl List.length; lia. Qed.

Lemma countZ_nonneg {A : Type} (f : A -> bool) (l : list A) : 0 <= countZ f l.
Proof. unfold countZ. lia. Qed.

Lemma loadSession_sync (sid : string) (p : Page) (store : Store) (s : SessionRec) :
  getSession sid store = Some s ->
  exchangeCount (loadSession sid p store) = total_exchanges s
  /\ hintsUsed (loadSession sid p store) = hints_used s.
Proof.
  intros Hs. unfold loadSession. rewrite Hs.
  destruct (lastAssistant (conversation_history s)) as [t|]; [|now split].
  destruct (content t) as [[|c r]|d]; now split.
Qed.

(** One reply, on whatever the store has become while the call was pending:
    the session as it is stored afterwards. *)
Lemma handleResponse_settle_stored (sid : string) (held : Held)
      (outcome : Outcome (option AiData)) (p : Page) (store : Store) (s : SessionRec) :
  getSession sid store = Some s ->
  getSession sid (snd (handleResponse_settle sid held outcome p store))
  = Some match outcome with
         | Succeeded (Some aiData) =>
             assign s (responseUpdates (heldSession held) (exchangeCount p + 1)
                         (sentHistory (heldCall held) ++ [mkTurn Assistant (Data aiData)])
                         aiData)
         | Failed _ =>
             assign s (mkUpdates (Some (sentHistory (heldCall held)))
                                 None None None None None None None)
         | _ => s
         end.
Proof.
  intros Hs. unfold handleResponse_settle.
  destruct outcome as [[aiData|]|error|]; cbn [snd]; try exact Hs;
    exact (getSession_updateSession _ _ _ _ Hs).
Qed.

(** ... and the page's counter afterwards. *)
Lemma handleResponse_settle_count (sid : string) (held : Held)
      (outcome : Outcome (option AiData)) (p : Page) (store : Store) :
  exchangeCount (fst (handleResponse_settle sid held outcome p store))
  = exchangeCount p + match outcome with Succeeded _ => 1 | _ => 0 end.
Proof.
  unfold handleResponse_settle.
  destruct outcome as [[aiData|]|error|]; cbn [fst updateUI exchangeCount]; lia.
Qed.

Lemma pageStep_settle (sid : string) (r : Running) (k : nat)
      (outcome : Outcome (option AiData)) (held : Held) :
  nth_error (pending r) k = Some held ->
  pageStep sid r (Settle k outcome)
  = mkRunning (fst (handleResponse_settle sid held outcome (page r) (stored r)))
              (snd (handleResponse_settle sid held outcome (page r) (stored r)))
              (dropNth k (pending r)).
Proof.
  intros H. unfold pageStep. rewrite H.
  now destruct (handleResponse_settle sid held outcome (page r) (stored r)).
Qed.

Lemma pageStep_submit_stored (sid : string) (r : Running) (input : string) :
  stored (pageStep sid r (Submit input)) = stored r
  /\ page (pageStep sid r (Submit input)) = page r.
Proof.
  unfold pageStep. now destruct (handleResponse_submit sid input (stored r)).
Qed.

(** A page in step with the store stays so through a happening that is not a
    success carrying [null]. *)
Lemma pageStep_in_step (sid : string) (r : Running) (h : Happening) (s : SessionRec) :
  getSession sid (stored r) = Some s ->
  exchangeCount (page r) = total_exchanges s ->
  (forall k, h <> Settle k (Succeeded None)) ->
  exists s',
    getSession sid (stored (pageStep sid r h)) = Some s'
    /\ exchangeCount (page (pageStep sid r h)) = total_exchanges s'
    /\ total_exchanges s <= total_exchanges s'.
Proof.
  intros Hs Hsync Hnull. destruct h as [input|k outcome].
  - destruct (pageStep_submit_stored sid r input) as [-> ->].
    exists s. split; [exact Hs|]. split; [exact Hsync | lia].
  - destruct (nth_error (pending r) k) as [held|] eqn:Hk.
    + rewrite (pageStep_settle sid r k outcome held Hk). cbn [stored page].
      rewrite (handleResponse_settle_stored sid held outcome _ _ s Hs).
      rewrite handleResponse_settle_count.
      eexists. split; [reflexivity|].
      destruct outcome as [[aiData|]|error|]; cbn [assign responseUpdates total_exchanges
                                                  u_total_exchanges orDefault].
      * split; lia.
      * now elim (Hnull k).
      * split; lia.
      * split; lia.
    + unfold pageStep. rewrite Hk.
      exists s. split; [exact Hs|]. split; [exact Hsync | lia].
Qed.

Lemma pageRun_in_step (sid : string) (hs : list Happening) :
  forall r s,
  getSession sid (stored r) = Some s ->
  exchangeCount (page r) = total_exchanges s ->
  (forall k, ~ In (Settle k (Succeeded None)) hs) ->
  exists s',
    getSession sid (stored (pageRun sid r hs)) = Some s'
    /\ exchangeCount (page (pageRun sid r hs)) = total_exchanges s'
    /\ total_exchanges s <= total_exchanges s'.
Proof.
  induction hs as [|h hs IH]; intros r s Hs Hsync Hnull.
  - exists s. split; [exact Hs|]. split; [exact Hsync | lia].
  - destruct (pageStep_in_step sid r h s Hs Hsync) as (s1 & Hs1 & Hsync1 & Hle1).
    { intros k E. apply (Hnull k). left. now symmetry. }
    destruct (IH (pageStep sid r h) s1 Hs1 Hsync1) as (s2 & Hs2 & Hsync2 & Hle2).
    { intros k Hin. apply (Hnull k). now right. }
    exists s2. split; [exact Hs2|]. split; [exact Hsync2 | lia].
Qed.

(** One turn handled on its own. *)
Lemma handleResponse_step (sid : string) (outcome : Outcome (option AiData)) (input : string)
      (p : Page) (store : Store) (s : SessionRec) :
  getSession sid store = Some s ->
  exists s',
    getSession sid (snd (fst (handleResponse sid (fun _ => outcome) input p store))) = Some s'
    /\ exchangeCount (fst (fst (handleResponse sid (fun _ => outcome) input p store)))
       = exchangeCount p + (if completed (input, outcome) then 1 else 0)
         + (if nullSuccess (input, outcome) then 1 else 0)
    /\ (exchangeCount p = total_exchanges s ->
        nullSuccess (input, outcome) = false ->
        exchangeCount (fst (fst (handleResponse sid (fun _ => outcome) input p store)))
        = total_exchanges s'
        /\ total_exchanges s'
           = total_exchanges s + (if completed (input, outcome) then 1 else 0))
    /\ final_understanding_score s' = bestScore [(input, outcome)] (final_understanding_score s)
    /\ exists added,
         conversation_history s' = (conversation_history s ++ added)%list
         /\ Z.of_nat (List.length added)
            = 2 * (if completed (input, outcome) then 1 else 0)
              + (if failedTurn (input, outcome) then 1 else 0).
Proof.
  intros Hs.
  assert (Hblank : isBlank input = match Js.trim input with EmptyString => true | _ => false end)
    by reflexivity.
  unfold handleResponse, handleResponse_submit, completed, nullSuccess, failedTurn, bestScore.
  cbn [fold_left].
  destruct (Js.trim input) as [|c r] eqn:E; rewrite Hblank; clear Hblank.
  - exists s.
    split; [exact Hs|].
    split; [destruct outcome as [[d|]|e|]; cbn [negb fst snd]; lia|].
    split; [intros Hsync _; split; [exact Hsync|];
            destruct outcome as [[d|]|e|]; cbn [negb fst snd]; lia|].
    split; [destruct outcome as [[d|]|e|]; reflexivity|].
    exists []. rewrite app_nil_r.
    split; [reflexivity | destruct outcome as [[d|]|e|]; reflexivity].
  - rewrite Hs. unfold handleResponse_settle. cbn [heldSession heldCall sentHistory].
    destruct outcome as [[aiData|]|e|]; cbn [negb fst snd].
    + eexists. split; [exact (getSession_updateSession _ _ _ _ Hs)|].
      simpl. split; [lia|]. split; [intros Hsync _; split; [reflexivity | lia]|].
      split; [reflexivity|].
      eexists. split; [now rewrite <- app_assoc | reflexivity].
    + exists s. split; [exact Hs|]. simpl. split; [lia|].
      split; [intros _ H; discriminate H|].
      split; [reflexivity|]. exists []. now rewrite app_nil_r.
    + eexists. split; [exact (getSession_updateSession _ _ _ _ Hs)|].
      simpl. split; [lia|]. split; [intros Hsync _; split; [exact Hsync | lia]|].
      split; [reflexivity|].
      eexists. split; reflexivity.
    + exists s. split; [exact Hs|]. split; [lia|].
      split; [intros Hsync _; split; [exact Hsync | lia]|].
      split; [reflexivity|]. exists []. now rewrite app_nil_r.
Qed.

Lemma playTurns_totals (sid : string) (turns : list (string * Outcome (option AiData))) :
  forall p store s,
  getSession sid store = Some s ->
  exists s',
    getSession sid (snd (playTurns sid turns p store)) = Some s'
    /\ exchangeCount (fst (playTurns sid turns p store))
       = exchangeCount p + countZ completed turns + countZ nullSuccess turns
    /\ (exchangeCount p = total_exchanges s ->
        countZ nullSuccess turns = 0 ->
        exchangeCount (fst (playTurns sid turns p store)) = total_exchanges s'
        /\ total_exchanges s' = total_exchanges s + countZ completed turns)
    /\ final_understanding_score s' = bestScore turns (final_understanding_score s)
    /\ exists added,
         conversation_history s' = (conversation_history s ++ added)%list
         /\ Z.of_nat (List.length added)
            = 2 * countZ completed turns + countZ failedTurn turns.
Proof.
  induction turns as [|[input outcome] turns IH]; intros p store s Hs.
  - exists s. simpl. split; [exact Hs|].
    split; [unfold countZ; simpl; lia|].
    split; [intros Hsync _; split; [exact Hsync | unfold countZ; simpl; lia]|].
    split; [reflexivity|].
    exists []. now rewrite app_nil_r.
  - destruct (handleResponse_step sid outcome input p store s Hs)
      as (s1 & Hs1 & Hpage1 & Hcount1 & Hbest1 & added1 & Hadd1 & Hlen1).
    simpl playTurns.
    destruct (handleResponse sid (fun _ => outcome) input p store) as [[p1 store1] c1].
    cbn [fst snd] in Hs1, Hpage1, Hcount1.
    destruct (IH p1 store1 s1 Hs1)
      as (s2 & Hs2 & Hpage2 & Hcount2 & Hbest2 & added2 & Hadd2 & Hlen2).
    exists s2. split; [exact Hs2|].
    split; [rewrite Hpage2, Hpage1, !countZ_cons; lia|].
    split.
    { intros Hsync Hnone. rewrite countZ_cons in Hnone.
      pose proof (countZ_nonneg nullSuccess turns) as Hnn.
      assert (Hn1 : nullSuccess (input, outcome) = false)
        by (destruct (nullSuccess (input, outcome)); [lia | reflexivity]).
      assert (Hn2 : countZ nullSuccess turns = 0)
        by (destruct (nullSuccess (input, outcome)); lia).
      destruct (Hcount1 Hsync Hn1) as [Hsync1 Htot1].
      destruct (Hcount2 Hsync1 Hn2) as [Hsync2 Htot2].
      split; [exact Hsync2 | rewrite Htot2, Htot1, countZ_cons; lia]. }
    split; [rewrite Hbest2, Hbest1; reflexivity|].
    exists (added1 ++ added2)%list.
    split; [now rewrite Hadd2, Hadd1, <- app_assoc|].
    rewrite length_app, !countZ_cons. lia.
Qed.

Lemma bestScore_grows (turns : list (string * Outcome (option AiData))) :
  forall start, start <= bestScore turns start.
Proof.
  unfold bestScore.
  induction turns as [|[input outcome] turns IH]; intros start; simpl; [lia|].
  destruct outcome as [[aiData|]|e|]; try apply IH.
  destruct (isBlank input); [apply IH|].
  etransitivity; [|apply IH]. lia.
Qed.

(** X13. The stored [total_exchanges] is the page's counter as it stood at
    the last reply that was stored.  Every success raises the counter by
    one; a success carrying an object writes the raised counter to the
    store, a success carrying [null] writes nothing and leaves the counter
    one ahead, a failure or a rejected call changes neither.  So on a page
    in step with the store the two stay equal through any answers and
    replies, overlapping or not, among which no success carries [null]; and
    on a page just loaded, answers handled one at a time leave the counter at
    the loaded count plus the successes, and the stored count, when no
    success carried [null], at the loaded count plus the completed
    exchanges. *)
Theorem total_exchanges_follows_the_page_counter (sid : string) :
  (forall held p store s,
      getSession sid store = Some s ->
      (forall aiData,
          let after := handleResponse_settle sid held (Succeeded (Some aiData)) p store in
          exchangeCount (fst after) = exchangeCount p + 1
          /\ option_map total_exchanges (getSession sid (snd after))
             = Some (exchangeCount p + 1))
      /\ (let after := handleResponse_settle sid held (Succeeded None) p store in
          exchangeCount (fst after) = exchangeCount p + 1 /\ snd after = store)
      /\ (forall error,
             let after := handleResponse_settle sid held (Failed error) p store in
             fst after = p
             /\ option_map total_exchanges (getSession sid (snd after))
                = Some (total_exchanges s))
      /\ handleResponse_settle sid held Rejected p store = (p, store))
  /\ (forall r hs s,
         getSession sid (stored r) = Some s ->
         exchangeCount (page r) = total_exchanges s ->
         (forall k, ~ In (Settle k (Succeeded None)) hs) ->
         exists s',
           getSession sid (stored (pageRun sid r hs)) = Some s'
           /\ exchangeCount (page (pageRun sid r hs)) = total_exchanges s'
           /\ total_exchanges s <= total_exchanges s')
  /\ (forall turns p store s,
         getSession sid store = Some s ->
         let after := playTurns sid turns (loadSession sid p store) store in
         exchangeCount (fst after)
         = total_exchanges s + countZ completed turns + countZ nullSuccess turns
         /\ (countZ nullSuccess turns = 0 ->
             exists s',
               getSession sid (snd after) = Some s'
               /\ total_exchanges s' = total_exchanges s + countZ completed turns
               /\ exchangeCount (fst after) = total_exchanges s')).
Proof.
  split.
  { intros held p store s Hs.
    split.
    { intros aiData after. subst after.
      rewrite handleResponse_settle_count.
      rewrite (handleResponse_settle_stored sid held _ p store s Hs).
      split; reflexivity. }
    split; [split; [apply handleResponse_settle_count | reflexivity]|].
    split; [|reflexivity].
    intros error after. subst after.
    rewrite (handleResponse_settle_stored sid held _ p store s Hs).
    split; reflexivity. }
  split; [intros r hs s; apply pageRun_in_step|].
  intros turns p store s Hs after. subst after.
  destruct (playTurns_totals sid turns (loadSession sid p store) store s Hs)
    as (s' & Hs' & Hpage & Hcount & _).
  destruct (loadSession_sync sid p store s Hs) as [Hsync _].
  split; [rewrite Hpage, Hsync; reflexivity|].
  intros Hnone. destruct (Hcount Hsync Hnone) as [Hagree Htot].
  exists s'. split; [exact Hs'|]. split; [exact Htot | exact Hagree].
Qed.

Lemma total_exchanges_follows_the_page_counter_witness :
  getSession "s1" sampleStore65 <> None
  /\ exchangeCount
       (fst (playTurns "s1"
               [ ("a", Succeeded (Some (turnData 10 "advanced"))); ("b", Failed "quota");
                 (" ", Succeeded (Some (turnData 99 "mastery"))); ("c", Succeeded None) ]
               (loadSession "s1" initialPage sampleStore65) sampleStore65))
     = 2 + 1 + 1
  /\ option_map total_exchanges
       (getSession "s1"
          (snd (playTurns "s1"
                  [ ("a", Succeeded (Some (turnData 10 "advanced"))); ("b", Failed "quota");
                    (" ", Succeeded (Some (turnData 99 "mastery"))); ("c", Succeeded None) ]
                  (loadSession "s1" initialPage sampleStore65) sampleStore65)))
     = Some 3.
Proof.
  split; [discriminate|].
  split; [|reflexivity].
  exact (proj1 (proj2 (proj2 (total_exchanges_follows_the_page_counter "s1"))
                  [ ("a", Succeeded (Some (turnData 10 "advanced"))); ("b", Failed "quota");
                    (" ", Succeeded (Some (turnData 99 "mastery"))); ("c", Succeeded None) ]
                  initialPage sampleStore65 _ eq_refl)).
Defined.

(** X14. A reply with an object stores as [final_understanding_score] the
    larger of the reply's score (a missing score counting as 0) and the
    score of the session as the handler read it when the answer was
    submitted; a failure leaves the stored score.  While each call settles
    before the next answer is submitted this makes the score the running
    maximum of the completed exchanges, never going down.  With two answers
    pending at once it does go down: the second reply is compared with the
    score read before the first was stored, and 90 becomes 40. *)
Theorem final_score_is_maximum_of_read_and_reply (sid : string) :
  (forall held p store s,
      getSession sid store = Some s ->
      (forall aiData,
          option_map final_understanding_score
            (getSession sid
               (snd (handleResponse_settle sid held (Succeeded (Some aiData)) p store)))
          = Some (Z.max (final_understanding_score (heldSession held))
                        (optNumOr (understanding_score aiData) 0)))
      /\ (forall error,
             option_map final_understanding_score
               (getSession sid (snd (handleResponse_settle sid held (Failed error) p store)))
             = Some (final_understanding_score s)))
  /\ (forall turns p store s,
         getSession sid store = Some s ->
         exists s',
           getSession sid (snd (playTurns sid turns p store)) = Some s'
           /\ final_understanding_score s' = bestScore turns (final_understanding_score s)
           /\ final_understanding_score s <= final_understanding_score s')
  /\ (let fresh := mkRunning initialPage sampleStore [] in
      let first := Succeeded (Some (turnData 90 "advanced")) in
      let second := Succeeded (Some (turnData 40 "advanced")) in
      option_map final_understanding_score
        (getSession "s1"
           (stored (pageRun "s1" fresh [Submit "a"; Submit "b"; Settle 0 first])))
      = Some 90
      /\ option_map final_understanding_score
           (getSession "s1"
              (stored (pageRun "s1" fresh
                         [Submit "a"; Submit "b"; Settle 0 first; Settle 0 second])))
         = Some 40
      /\ option_map final_understanding_score
           (getSession "s1"
              (stored (pageRun "s1" fresh
                         [Submit "a"; Settle 0 first; Submit "b"; Settle 0 second])))
         = Some 90).
Proof.
  split.
  { intros held p store s Hs. split.
    - intros aiData.
      now rewrite (handleResponse_settle_stored sid held _ p store s Hs).
    - intros error.
      now rewrite (handleResponse_settle_stored sid held _ p store s Hs). }
  split; [|repeat split].
  intros turns p store s Hs.
  destruct (playTurns_totals sid turns p store s Hs)
    as (s' & Hs' & _ & _ & Hbest & _).
  exists s'. split; [exact Hs'|]. split; [exact Hbest|].
  rewrite Hbest. apply bestScore_grows.
Qed.

Lemma final_score_is_maximum_of_read_and_reply_witness :
  getSession "s1" sampleStore65 <> None
  /\ exists s',
       getSession "s1"
         (snd (playTurns "s1"
                 [ ("a", Succeeded (Some (turnData 40 "advanced")));
                   ("b", Succeeded (Some (turnData 70 "advanced")));
                   ("c", Succeeded (Some (turnData 10 "advanced"))) ]
                 (mkPage 2 "intermediate" 0 [] [] []) sampleStore65)) = Some s'
       /\ final_understanding_score s' = 70.
Proof.
  split; [discriminate|].
  destruct (proj1 (proj2 (final_score_is_maximum_of_read_and_reply "s1"))
              [ ("a", Succeeded (Some (turnData 40 "advanced")));
                ("b", Succeeded (Some (turnData 70 "advanced")));
                ("c", Succeeded (Some (turnData 10 "advanced"))) ]
              (mkPage 2 "intermediate" 0 [] [] []) sampleStore65 _ eq_refl)
    as (s' & Hs' & Hbest & _).
  exists s'. split; [exact Hs' | exact Hbest].
Defined.

(** X15. A reply is stored with the handler's own copy of the history: a
    success carrying an object stores the history as it was sent -- the
    history read when the answer was submitted, with the user turn -- and
    the assistant turn after it; a failure stores the history as it was
    sent; a success carrying [null] and a rejected call store nothing.
    While each call settles before the next answer is submitted the
    persisted history is therefore only appended to, by two turns for each
    completed exchange and one for each answer whose call failed.  With two
    answers pending at once the second reply overwrites what the first
    stored: the first exchange is gone from the history, though counted. *)
Theorem history_is_written_from_the_copy (sid : string) :
  (forall input store0 s0 held,
      getSession sid store0 = Some s0 ->
      handleResponse_submit sid input store0 = Some held ->
      sentHistory (heldCall held)
      = (conversation_history s0 ++ [mkTurn User (Text (Js.trim input))])%list
      /\ forall p store s,
           getSession sid store = Some s ->
           (forall aiData,
               option_map conversation_history
                 (getSession sid
                    (snd (handleResponse_settle sid held (Succeeded (Some aiData)) p store)))
               = Some (conversation_history s0
                       ++ [mkTurn User (Text (Js.trim input));
                           mkTurn Assistant (Data aiData)])%list)
           /\ (forall error,
                  option_map conversation_history
                    (getSession sid
                       (snd (handleResponse_settle sid held (Failed error) p store)))
                  = Some (conversation_history s0
                          ++ [mkTurn User (Text (Js.trim input))])%list)
           /\ snd (handleResponse_settle sid held (Succeeded None) p store) = store
           /\ snd (handleResponse_settle sid held Rejected p store) = store)
  /\ (forall turns p store s,
         getSession sid store = Some s ->
         exists s' added,
           getSession sid (snd (playTurns sid turns p store)) = Some s'
           /\ conversation_history s' = (conversation_history s ++ added)%list
           /\ Z.of_nat (List.length added)
              = 2 * countZ completed turns + countZ failedTurn turns)
  /\ (let fresh := mkRunning initialPage sampleStore [] in
      let first := turnData 90 "advanced" in
      let second := turnData 40 "advanced" in
      option_map conversation_history
        (getSession "s1"
           (stored (pageRun "s1" fresh
                      [Submit "a"; Submit "b"; Settle 0 (Succeeded (Some first))])))
      = Some [mkTurn User (Text "a"); mkTurn Assistant (Data first)]
      /\ option_map (fun s => (conversation_history s, total_exchanges s))
           (getSession "s1"
              (stored (pageRun "s1" fresh
                         [Submit "a"; Submit "b"; Settle 0 (Succeeded (Some first));
                          Settle 0 (Succeeded (Some second))])))
         = Some ([mkTurn User (Text "b"); mkTurn Assistant (Data second)], 2)).
Proof.
  split.
  { intros input store0 s0 held Hs0 Hsub.
    assert (Hne : Js.trim input <> EmptyString).
    { intros E. unfold handleResponse_submit in Hsub. rewrite E in Hsub. discriminate Hsub. }
    rewrite (handleResponse_submit_held sid input store0 s0 Hs0 Hne) in Hsub.
    injection Hsub as <-. cbn [heldCall sentHistory].
    split; [reflexivity|].
    intros p store s Hs.
    split.
    { intros aiData.
      rewrite (handleResponse_settle_stored sid _ _ p store s Hs).
      cbn [option_map heldCall sentHistory assign responseUpdates conversation_history
           u_conversation_history orDefault].
      now rewrite <- app_assoc. }
    split; [|split; reflexivity].
    intros error.
    now rewrite (handleResponse_settle_stored sid _ _ p store s Hs). }
  split; [|repeat split].
  intros turns p store s Hs.
  destruct (playTurns_totals sid turns p store s Hs)
    as (s' & Hs' & _ & _ & _ & added & Hadd & Hlen).
  exists s', added. split; [exact Hs'|]. split; [exact Hadd | exact Hlen].
Qed.

Lemma history_is_written_from_the_copy_witness :
  getSession "s1" sampleStore65 <> None
  /\ exists (s' : SessionRec) (added : list Turn),
       getSession "s1"
         (snd (playTurns "s1"
                 [ ("a", Succeeded (Some (turnData 40 "advanced"))); ("b", Failed "quota");
                   ("c", Succeeded None) ]
                 (mkPage 2 "intermediate" 0 [] [] []) sampleStore65)) = Some s'
       /\ option_map conversation_history (Some s')
          = option_map (fun s => (conversation_history s ++ added)%list)
              (getSession "s1" sampleStore65)
       /\ Z.of_nat (List.length added) = 3.
Proof.
  split; [discriminate|].
  destruct (proj1 (proj2 (history_is_written_from_the_copy "s1"))
              [ ("a", Succeeded (Some (turnData 40 "advanced"))); ("b", Failed "quota");
                ("c", Succeeded None) ]
              (mkPage 2 "intermediate" 0 [] [] []) sampleStore65 _ eq_refl)
    as (s' & added & Hs' & Hadd & Hlen).
  exists s', added. split; [exact Hs'|]. split; [|exact Hlen].
  cbn [option_map]. now rewrite Hadd.
Defined.

(** *** What the turns leave alone *)

Lemma pageStep_rest (sid : string) (r : Running) (h : Happening) (s : SessionRec) :
  getSession sid (stored r) = Some s ->
  (exists s',
     getSession sid (stored (pageStep sid r h)) = Some s'
     /\ topic s' = topic s /\ context s' = context s /\ started_at s' = started_at s
     /\ ended_at s' = ended_at s /\ is_active s' = is_active s
     /\ hints_used s' = hints_used s /\ summary s' = summary s)
  /\ (forall sid', sid' <> sid ->
        getSession sid' (stored (pageStep sid r h)) = getSession sid' (stored r))
  /\ hintsUsed (page (pageStep sid r h)) = hintsUsed (page r).
Proof.
  intros Hs. destruct h as [input|k outcome].
  - destruct (pageStep_submit_stored sid r input) as [-> ->].
    split; [exists s; now repeat split|]. split; reflexivity.
  - destruct (nth_error (pending r) k) as [held|] eqn:Hk.
    + rewrite (pageStep_settle sid r k outcome held Hk). cbn [stored page].
      split.
      { rewrite (handleResponse_settle_stored sid held outcome _ _ s Hs).
        eexists. split; [reflexivity|].
        destruct outcome as [[aiData|]|error|]; now repeat split. }
      unfold handleResponse_settle.
      destruct outcome as [[aiData|]|error|]; cbn [fst snd];
        (split; [intros sid' Hne; try reflexivity;
                 now apply getSession_updateSession_other
                | reflexivity]).
    + unfold pageStep. rewrite Hk.
      split; [exists s; now repeat split|]. split; reflexivity.
Qed.

Lemma pageRun_rest (sid : string) (hs : list Happening) :
  forall r s,
  getSession sid (stored r) = Some s ->
  (exists s',
     getSession sid (stored (pageRun sid r hs)) = Some s'
     /\ topic s' = topic s /\ context s' = context s /\ started_at s' = started_at s
     /\ ended_at s' = ended_at s /\ is_active s' = is_active s
     /\ hints_used s' = hints_used s /\ summary s' = summary s)
  /\ (forall sid', sid' <> sid ->
        getSession sid' (stored (pageRun sid r hs)) = getSession sid' (stored r))
  /\ hintsUsed (page (pageRun sid r hs)) = hintsUsed (page r).
Proof.
  induction hs as [|h hs IH]; intros r s Hs.
  - split; [exists s; now repeat split|]. split; reflexivity.
  - destruct (pageStep_rest sid r h s Hs)
      as ((s1 & Hs1 & Ht1 & Hc1 & Hb1 & He1 & Ha1 & Hh1 & Hm1) & Hother1 & Hpage1).
    destruct (IH (pageStep sid r h) s1 Hs1)
      as ((s2 & Hs2 & Ht2 & Hc2 & Hb2 & He2 & Ha2 & Hh2 & Hm2) & Hother2 & Hpage2).
    change (pageRun sid r (h :: hs)) with (pageRun sid (pageStep sid r h) hs).
    split.
    { exists s2. split; [exact Hs2|]. repeat split; congruence. }
    split; [|congruence].
    intros sid' Hne. rewrite (Hother2 sid' Hne). now apply Hother1.
Qed.

(** X16. Answering never touches anything but the history, the count, the
    score and the difficulty of its own session: after any turns the topic,
    the context, the times, the activity flag, the hints and the summary of
    the session are as before -- an ended session stays ended -- and every
    session of another id reads back as before.  This holds as well when
    answers are submitted while calls are pending, whatever the order in
    which the calls settle and whatever they carry. *)
Theorem turns_leave_the_rest_alone
    (sid : string) (turns : list (string * Outcome (option AiData)))
    (p : Page) (store : Store) (s : SessionRec) :
  getSession sid store = Some s ->
  (exists s',
     getSession sid (snd (playTurns sid turns p store)) = Some s'
     /\ topic s' = topic s /\ context s' = context s /\ started_at s' = started_at s
     /\ ended_at s' = ended_at s /\ is_active s' = is_active s
     /\ hints_used s' = hints_used s /\ summary s' = summary s)
  /\ (forall sid', sid' <> sid ->
        getSession sid' (snd (playTurns sid turns p store)) = getSession sid' store)
  /\ hintsUsed (fst (playTurns sid turns p store)) = hintsUsed p
  /\ (forall held hs,
        let after := pageRun sid (mkRunning p store held) hs in
        (exists s',
           getSession sid (stored after) = Some s'
           /\ topic s' = topic s /\ context s' = context s /\ started_at s' = started_at s
           /\ ended_at s' = ended_at s /\ is_active s' = is_active s
           /\ hints_used s' = hints_used s /\ summary s' = summary s)
        /\ (forall sid', sid' <> sid -> getSession sid' (stored after) = getSession sid' store)
        /\ hintsUsed (page after) = hintsUsed p).
Proof.
  intros Hs.
  pose proof (pageRun_rest sid (oneAtATime turns) (mkRunning p store []) s Hs) as Hone.
  rewrite pageRun_oneAtATime in Hone. cbn [stored page] in Hone.
  destruct Hone as (Hsame & Hother & Hpage).
  split; [exact Hsame|]. split; [exact Hother|]. split; [exact Hpage|].
  intros held hs after. subst after.
  exact (pageRun_rest sid hs (mkRunning p store held) s Hs).
Qed.

Lemma turns_leave_the_rest_alone_witness :
  getSession "s1" sampleStore65 <> None
  /\ exists s',
       getSession "s1"
         (snd (playTurns "s1"
                 [ ("a", Succeeded (Some (turnData 40 "advanced"))); ("b", Failed "quota") ]
                 initialPage sampleStore65)) = Some s'
       /\ is_active s' = true /\ hints_used s' = 0.
Proof.
  split; [discriminate|].
  destruct (proj1 (turns_leave_the_rest_alone
                     "s1"
                     [ ("a", Succeeded (Some (turnData 40 "advanced"))); ("b", Failed "quota") ]
                     initialPage sampleStore65 _ eq_refl))
    as (s' & Hs' & _ & _ & _ & _ & Ha & Hh & _).
  exists s'. split; [exact Hs'|]. split; [exact Ha | exact Hh].
Defined.

(** *** The end of a session, hints, and the start of a session *)

(** X17. [handleEndSession] hands the whole persisted history to the summary
    call.  When the call has settled -- on whatever the store has become
    meanwhile -- a rejected call and a success carrying [null] leave the
    store as it is, the session still active.  A failure and a success
    carrying a summary close the session: inactive, with the time of the
    end, its history, count, difficulty and hints as they are stored.  The
    failure leaves summary and score; the success stores the summary and, as
    score, its [overall_understanding] or, when that is absent or zero, the
    score read before the call.  No other session is touched. *)
Theorem handleEndSession_closes_the_session
    (sid endedAt : string) (store : Store) (s : SessionRec) :
  getSession sid store = Some s ->
  exists held,
    handleEndSession_submit sid store = Some held
    /\ heldCall held = mkCall (topic s) (conversation_history s) EmptyString store
    /\ forall store' s',
         getSession sid store' = Some s' ->
         handleEndSession_settle sid held Rejected endedAt store' = store'
         /\ handleEndSession_settle sid held (Succeeded None) endedAt store' = store'
         /\ (forall outcome,
                outcome <> Rejected -> outcome <> Succeeded None ->
                exists s'',
                  getSession sid (handleEndSession_settle sid held outcome endedAt store')
                  = Some s''
                  /\ is_active s'' = false /\ ended_at s'' = Some endedAt
                  /\ conversation_history s'' = conversation_history s'
                  /\ total_exchanges s'' = total_exchanges s'
                  /\ highest_difficulty s'' = highest_difficulty s'
                  /\ hints_used s'' = hints_used s'
                  /\ (forall error, outcome = Failed error ->
                        summary s'' = summary s'
                        /\ final_understanding_score s'' = final_understanding_score s')
                  /\ (forall data, outcome = Succeeded (Some data) ->
                        summary s'' = Some data
                        /\ final_understanding_score s''
                           = optNumOr (overall_understanding data)
                                      (final_understanding_score s)))
         /\ (forall outcome sid', sid' <> sid ->
                getSession sid' (handleEndSession_settle sid held outcome endedAt store')
                = getSession sid' store').
Proof.
  intros Hs. unfold handleEndSession_submit. rewrite Hs.
  eexists. split; [reflexivity|]. split; [reflexivity|].
  intros store' s' Hs'. unfold handleEndSession_settle. cbn [heldSession].
  split; [reflexivity|]. split; [reflexivity|]. split.
  - intros outcome Hr Hn. destruct outcome as [[data|]|error|];
      [| now elim Hn | | now elim Hr].
    + eexists. split; [exact (getSession_updateSession _ _ _ _ Hs')|].
      do 6 (split; [reflexivity|]). split.
      * intros error E. discriminate E.
      * intros data' E. injection E as <-. split; reflexivity.
    + eexists. split; [exact (getSession_updateSession _ _ _ _ Hs')|].
      do 6 (split; [reflexivity|]). split.
      * intros error' _. split; reflexivity.
      * intros data' E. discriminate E.
  - intros outcome sid' Hne. destruct outcome as [[data|]|error|]; try reflexivity;
      now apply getSession_updateSession_other.
Qed.

Lemma handleEndSession_closes_the_session_witness :
  getSession "s1" sampleStore65 <> None
  /\ exists held,
       handleEndSession_submit "s1" sampleStore65 = Some held
       /\ handleEndSession_settle "s1" held (Succeeded None)
                                  "2024-01-01T01:00:00.000Z" sampleStore65
          = sampleStore65
       /\ option_map (fun s => (is_active s, final_understanding_score s))
            (getSession "s1" (handleEndSession_settle "s1" held (Failed "quota")
                                                      "2024-01-01T01:00:00.000Z"
                                                      sampleStore65))
          = Some (false, 65).
Proof.
  split; [discriminate|].
  destruct (handleEndSession_closes_the_session
              "s1" "2024-01-01T01:00:00.000Z" sampleStore65 _ eq_refl)
    as (held & Hsub & _ & Hsettle).
  destruct (Hsettle sampleStore65 _ eq_refl) as (_ & Hnull & Hclose & _).
  exists held. split; [exact Hsub|]. split; [exact Hnull|].
  destruct (Hclose (Failed "quota")) as (s'' & Hs'' & Ha & _ & _ & _ & _ & _ & Hfail & _);
    [discriminate | discriminate |].
  rewrite Hs''. cbn [option_map]. rewrite Ha.
  now rewrite (proj2 (Hfail "quota" eq_refl)).
Defined.

Lemma find_append {A : Type} (f : A -> bool) (a b : list A) :
  find f (a ++ b)%list = match find f a with Some x => Some x | None => find f b end.
Proof.
  induction a as [|x a IH]; [reflexivity|]. simpl. destruct (f x); [reflexivity | exact IH].
Qed.

Lemma find_rev_users (users : list Turn) :
  forallb (fun u => negb (isAssistant u)) users = true ->
  find isAssistant (rev users) = None.
Proof.
  induction users as [|u users IH]; [reflexivity|]. simpl. intros H.
  apply andb_prop in H as [Hu Hrest].
  rewrite find_append, (IH Hrest). simpl.
  destruct (isAssistant u); [discriminate | reflexivity].
Qed.

(** The last assistant turn of a history is the one only user turns follow. *)
Lemma lastAssistant_last (older users : list Turn) (t : Turn) :
  isAssistant t = true ->
  forallb (fun u => negb (isAssistant u)) users = true ->
  lastAssistant (older ++ t :: users) = Some t.
Proof.
  intros Ht Hu. unfold lastAssistant. rewrite rev_app_distr. simpl rev.
  rewrite <- app_assoc, find_append, (find_rev_users _ Hu). simpl. now rewrite Ht.
Qed.

Lemma lastAssistant_none (users : list Turn) :
  forallb (fun u => negb (isAssistant u)) users = true ->
  lastAssistant users = None.
Proof. apply find_rev_users. Qed.

(** X18. [handleHint] asks for a hint on the question of the last assistant
    turn -- the one only user turns follow -- and hands over the whole
    persisted history.  A successful call with data raises the page's
    counter by one and stores it as [hints_used], leaving every other field
    of the session; any other outcome leaves page and store as they are. *)
Theorem handleHint_counts_hints
    (sid : string) (api : Call -> Outcome HintData) (p : Page) (store : Store)
    (s : SessionRec) (older users : list Turn) (t : Turn) :
  getSession sid store = Some s ->
  conversation_history s = (older ++ t :: users)%list ->
  isAssistant t = true ->
  forallb (fun u => negb (isAssistant u)) users = true ->
  let call := mkCall (topic s) (conversation_history s) (questionOf (content t)) store in
  snd (handleHint sid api p store) = Some call
  /\ (forall hint, api call = Succeeded (Some hint) ->
        hintsUsed (fst (fst (handleHint sid api p store))) = hintsUsed p + 1
        /\ getSession sid (snd (fst (handleHint sid api p store)))
           = Some (assign s (mkUpdates None None None None (Some (hintsUsed p + 1))
                                       None None None)))
  /\ ((forall hint, api call <> Succeeded (Some hint)) ->
        fst (handleHint sid api p store) = (p, store)).
Proof.
  intros Hs Hh Ht Hu call.
  assert (Hlast : lastAssistant (conversation_history s) = Some t)
    by (rewrite Hh; now apply lastAssistant_last).
  unfold handleHint. rewrite Hs, Hlast. fold call.
  destruct (api call) as [[hint|]|error|] eqn:Hapi; cbn [fst snd].
  - split; [reflexivity|]. split.
    + intros hint' _. split; [reflexivity|].
      exact (getSession_updateSession _ _ _ _ Hs).
    + intros Hno. now elim (Hno hint).
  - split; [reflexivity|]. split; [discriminate | reflexivity].
  - split; [reflexivity|]. split; [discriminate | reflexivity].
  - split; [reflexivity|]. split; [discriminate | reflexivity].
Qed.

Lemma handleHint_counts_hints_witness :
  option_map sentResponse
    (snd (handleHint "s1" (fun _ => Succeeded (Some (Some "Think of a base case.")))
                     (mkPage 2 "intermediate" 0 [] [] []) sampleStore65))
  = Some "Why?"
  /\ option_map hints_used
       (getSession "s1"
          (snd (fst (handleHint "s1" (fun _ => Succeeded (Some (Some "Think of a base case.")))
                                (mkPage 2 "intermediate" 0 [] [] []) sampleStore65))))
     = Some 1.
Proof.
  pose proof (handleHint_counts_hints
                "s1" (fun _ => Succeeded (Some (Some "Think of a base case.")))
                (mkPage 2 "intermediate" 0 [] [] []) sampleStore65 _
                [ mkTurn User (Text "a"); mkTurn Assistant (Data (turnData 20 "foundational"));
                  mkTurn User (Text "b") ]
                [] (mkTurn Assistant (Data (turnData 65 "intermediate")))
                eq_refl eq_refl eq_refl eq_refl) as (Hcall & Hok & _).
  split; [now rewrite Hcall|].
  now rewrite (proj2 (Hok _ eq_refl)).
Defined.

(** X19. [handleStartSession] of the landing page either leaves the store as
    it is and goes nowhere, or puts one new session in front of the others
    and goes to it.  It does the latter exactly when the key is configured,
    the trimmed topic is not empty and the opening call succeeds; the new
    session then carries the trimmed topic and context, the fresh counters,
    and a history of one assistant turn holding the reply. *)
Theorem handleStartSession_creates_or_leaves
    (apiKey : string) (api : string -> string -> Outcome AiData)
    (sessionId startedAt topicInput contextInput : string) (store : Store) :
  let result :=
    handleStartSession apiKey api sessionId startedAt topicInput contextInput store in
  (snd result = None -> fst result = store)
  /\ (forall sid, snd result = Some sid ->
        sid = sessionId
        /\ isApiKeyConfigured apiKey = true
        /\ Js.trim topicInput <> EmptyString
        /\ exists aiData,
             api (Js.trim topicInput) (Js.trim contextInput) = Succeeded aiData
             /\ fst result
                = mkSession sessionId (Js.trim topicInput) (Js.trim contextInput) startedAt
                            None true 0 0 "foundational" 0 None
                            [mkTurn Assistant (Data aiData)]
                  :: store)
  /\ (isApiKeyConfigured apiKey = true ->
      Js.trim topicInput <> EmptyString ->
      forall aiData,
        api (Js.trim topicInput) (Js.trim contextInput) = Succeeded aiData ->
        snd result = Some sessionId).
Proof.
  unfold handleStartSession.
  destruct (isApiKeyConfigured apiKey); cbn [negb].
  2:{ split; [reflexivity|]. split; [discriminate|]. discriminate. }
  destruct (Js.trim topicInput) as [|c r] eqn:E.
  { split; [reflexivity|]. split; [discriminate|]. intros _ H; now elim H. }
  destruct (api (String c r) (Js.trim contextInput)) as [aiData|error|] eqn:Hapi.
  - cbn [createSession fst snd updateSession id]. rewrite String.eqb_refl. cbn [fst snd].
    split; [discriminate|]. split.
    + intros sid H. injection H as <-. split; [reflexivity|]. split; [reflexivity|].
      split; [discriminate|]. exists aiData. split; reflexivity.
    + reflexivity.
  - split; [reflexivity|]. split; [discriminate|]. intros _ _ aiData H. discriminate H.
  - split; [reflexivity|]. split; [discriminate|]. intros _ _ aiData H. discriminate H.
Qed.

Lemma handleStartSession_creates_or_leaves_witness :
  snd (handleStartSession "sk-or-1" (fun _ _ => Succeeded (turnData 0 "foundational"))
                          "s2" "2024-01-02T00:00:00.000Z" "  Sets " EmptyString sampleStore65)
  = Some "s2"
  /\ snd (handleStartSession placeholderKey (fun _ _ => Succeeded (turnData 0 "foundational"))
                             "s2" "2024-01-02T00:00:00.000Z" "  Sets " EmptyString sampleStore65)
     = None.
Proof.
  split; [|reflexivity].
  refine (proj2 (proj2 (handleStartSession_creates_or_leaves
                          "sk-or-1" (fun _ _ => Succeeded (turnData 0 "foundational"))
                          "s2" "2024-01-02T00:00:00.000Z" "  Sets " EmptyString sampleStore65))
                eq_refl _ (turnData 0 "foundational") eq_refl).
  discriminate.
Defined.

(** *** Loading the page, and the filters of the history page *)

Lemma loadSession_again (sid : string) (p : Page) (store : Store) :
  loadSession sid (loadSession sid p store) store = loadSession sid p store.
Proof.
  unfold loadSession at 1 3.
  destruct (getSession sid store) as [s|] eqn:Hs; [|unfold loadSession; now rewrite Hs].
  unfold loadSession. rewrite Hs.
  destruct (lastAssistant (conversation_history s)) as [t|]; [|reflexivity].
  destruct (content t) as [[|c r]|d]; [reflexivity| |].
  - set (p1 := mkPage (total_exchanges s) (currentDifficulty p) (hints_used s)
                      (allCorrectInsights p) (allMisconceptions p) (allGaps p)).
    change (updateUI noData (updateUI noData p1) = updateUI noData p1).
    apply updateUI_idem.
  - set (p1 := mkPage (total_exchanges s) (currentDifficulty p) (hints_used s)
                      (allCorrectInsights p) (allMisconceptions p) (allGaps p)).
    change (updateUI d (updateUI d p1) = updateUI d p1).
    apply updateUI_idem.
Qed.

(** X20. [loadSession] takes the two counters of the page from the store and
    everything else from the last assistant turn alone: with such a turn
    carrying an object, the page is what [updateUI] makes of that object, so
    the insights of earlier turns are not brought back.  With no session of
    that id the page stays as it is, and loading twice is loading once. *)
Theorem loadSession_restores_from_last_turn
    (sid : string) (p : Page) (store : Store) :
  loadSession sid (loadSession sid p store) store = loadSession sid p store
  /\ (getSession sid store = None -> loadSession sid p store = p)
  /\ forall s,
       getSession sid store = Some s ->
       exchangeCount (loadSession sid p store) = total_exchanges s
       /\ hintsUsed (loadSession sid p store) = hints_used s
       /\ (forall older users t d,
             conversation_history s = (older ++ t :: users)%list ->
             isAssistant t = true ->
             content t = Data d ->
             forallb (fun u => negb (isAssistant u)) users = true ->
             loadSession sid p store
             = updateUI d (mkPage (total_exchanges s) (currentDifficulty p) (hints_used s)
                                  (allCorrectInsights p) (allMisconceptions p) (allGaps p)))
       /\ (forallb (fun u => negb (isAssistant u)) (conversation_history s) = true ->
           loadSession sid p store
           = mkPage (total_exchanges s) (currentDifficulty p) (hints_used s)
                    (allCorrectInsights p) (allMisconceptions p) (allGaps p)).
Proof.
  split; [apply loadSession_again|].
  split; [intros Hn; unfold loadSession; now rewrite Hn|].
  intros s Hs.
  split; [apply (loadSession_sync sid p store s Hs)|].
  split; [apply (loadSession_sync sid p store s Hs)|].
  split.
  - intros older users t d Hh Ht Hd Hu. unfold loadSession. rewrite Hs, Hh.
    rewrite (lastAssistant_last older users t Ht Hu). now rewrite Hd.
  - intros Hu. unfold loadSession. rewrite Hs. now rewrite (lastAssistant_none _ Hu).
Qed.

Lemma loadSession_restores_from_last_turn_witness :
  getSession "s1" sampleStore65 <> None
  /\ loadSession "s1" initialPage sampleStore65 = mkPage 2 "intermediate" 0 [] [] [].
Proof.
  split; [discriminate|].
  rewrite (proj1 (proj2 (proj2 (proj2 (proj2 (loadSession_restores_from_last_turn
                                               "s1" initialPage sampleStore65)) _ eq_refl)))
             [ mkTurn User (Text "a"); mkTurn Assistant (Data (turnData 20 "foundational"));
               mkTurn User (Text "b") ]
             [] (mkTurn Assistant (Data (turnData 65 "intermediate")))
             (turnData 65 "intermediate") eq_refl eq_refl eq_refl eq_refl).
  reflexivity.
Defined.

Lemma filter_partition (f : SessionRec -> bool) (l : list SessionRec) :
  Permutation (filter f l ++ filter (fun s => negb (f s)) l) l.
Proof.
  induction l as [|x l IH]; [constructor|]. simpl.
  destruct (f x); simpl.
  - now constructor.
  - symmetry. apply Permutation_cons_app. now symmetry.
Qed.

(** X21. The filters of the history page split the sessions in two: a
    session is listed under [active] exactly when it is active and under
    [completed] exactly when it is not, both lists keep the order of the
    sessions, together they hold every session once, and any other filter
    lists all of them. *)
Theorem renderSessions_partitions (allSessions : list SessionRec) :
  Permutation (renderSessions "active" allSessions ++ renderSessions "completed" allSessions)
              allSessions
  /\ (forall s, In s (renderSessions "active" allSessions)
                <-> In s allSessions /\ is_active s = true)
  /\ (forall s, In s (renderSessions "completed" allSessions)
                <-> In s allSessions /\ is_active s = false)
  /\ (forall name, name <> "active" -> name <> "completed" ->
                   renderSessions name allSessions = allSessions).
Proof.
  assert (Ha : renderSessions "active" allSessions = filter is_active allSessions)
    by reflexivity.
  assert (Hc : renderSessions "completed" allSessions
               = filter (fun s => negb (is_active s)) allSessions) by reflexivity.
  rewrite Ha, Hc.
  split; [apply filter_partition|].
  split; [intros s; apply filter_In|].
  split.
  - intros s. rewrite filter_In. now rewrite negb_true_iff.
  - intros name H1 H2. unfold renderSessions.
    apply String.eqb_neq in H1, H2. now rewrite H1, H2.
Qed.

Lemma renderSessions_partitions_witness :
  renderSessions "all" sampleStore65 = sampleStore65.
Proof.
  apply (proj2 (proj2 (proj2 (renderSessions_partitions sampleStore65)))); discriminate.
Defined.

End SessionMore.
(** ** More on the clients' public methods *)

Module ClientMore.

Import Session Client JsFacts SessionFacts ClientFacts.

Lemma sliceLast_snoc {A : Type} (k : nat) (l : list A) (x : A) :
  sliceLast (S k) (l ++ [x]) = (sliceLast k l ++ [x])%list.
Proof.
  unfold sliceLast. rewrite length_app. simpl List.length.
  replace (List.length l + 1 - S k)%nat with (List.length l - k)%nat by lia.
  rewrite skipn_app.
  replace (List.length l - k - List.length l)%nat with 0%nat by lia.
  reflexivity.
Qed.

Lemma sliceLast_length {A : Type} (k : nat) (l : list A) :
  List.length (sliceLast k l) = Nat.min k (List.length l).
Proof. unfold sliceLast. rewrite length_skipn. lia. Qed.

(** The call [handleResponse] makes, read off its result. *)
Lemma handleResponse_made_call (sid : string) (api : Call -> Outcome (option AiData))
      (input : string) (p : Page) (store : Store) (s : SessionRec) (c : Call) :
  getSession sid store = Some s ->
  snd (handleResponse sid api input p store) = Some c ->
  c = mkCall (topic s) (conversation_history s ++ [mkTurn User (Text (Js.trim input))])%list
             (Js.trim input) store.
Proof.
  intros Hs Hc.
  assert (Hne : Js.trim input <> EmptyString).
  { intros E. unfold handleResponse, handleResponse_submit in Hc. rewrite E in Hc.
    discriminate Hc. }
  pose proof (proj1 (handleResponse_call sid api input p store s Hs Hne)) as Hcall.
  cbv zeta in Hcall. rewrite Hcall in Hc. now injection Hc as <-.
Qed.

(** X22. The answer reaches the model twice.  [handleResponse] pushes the
    user turn onto the history it hands to [continueDialogue], and
    [continueDialogue] appends the answer once more after the turns it
    keeps: the messages of every call made from the page end with the same
    user message two times over.  With the opening pair there are between
    four and thirteen of them. *)
Theorem answer_is_sent_twice
    (JSON_stringify : AiData -> string) (assistantRole sid : string)
    (api : Call -> Outcome (option AiData)) (input : string) (p : Page) (store : Store)
    (s : SessionRec) (c : Call) :
  getSession sid store = Some s ->
  snd (handleResponse sid api input p store) = Some c ->
  let answer := mkMessage "user" (Js.trim input) in
  let messages :=
    continueDialogueWith JSON_stringify assistantRole
                         (sentTopic c) (sentHistory c) (sentResponse c) in
  (exists front, messages = (front ++ [answer; answer])%list)
  /\ List.length messages
     = (3 + Nat.min 10 (List.length (conversation_history s) + 1))%nat
  /\ (4 <= List.length messages <= 13)%nat.
Proof.
  intros Hs Hc answer messages.
  pose proof (handleResponse_made_call sid api input p store s c Hs Hc) as ->.
  subst messages. cbn [sentTopic sentHistory sentResponse].
  unfold continueDialogueWith.
  split.
  - change _maxHistory with (S 9). rewrite sliceLast_snoc, map_app.
    exists ([ mkMessage "user" ("Topic: " ++ topic s);
              mkMessage assistantRole openingStub ]
            ++ map (renderEntry JSON_stringify assistantRole)
                   (sliceLast 9 (conversation_history s)))%list.
    rewrite <- !app_assoc. reflexivity.
  - rewrite !length_app, length_map, sliceLast_length, length_app.
    unfold _maxHistory. simpl List.length. lia.
Qed.

Lemma answer_is_sent_twice_witness :
  getSession "s1" Session.sampleStore65 <> None
  /\ exists front,
       continueDialogue_A (fun _ => EmptyString) "Recursion"
         [ mkTurn User (Text "a"); mkTurn Assistant (Data (turnData 20 "foundational"));
           mkTurn User (Text "b"); mkTurn Assistant (Data (turnData 65 "intermediate"));
           mkTurn User (Text "c") ]
         "c"
       = (front ++ [mkMessage "user" "c"; mkMessage "user" "c"])%list.
Proof.
  split; [discriminate|].
  exact (proj1 (answer_is_sent_twice
                  (fun _ => EmptyString) "assistant" "s1" (fun _ => Rejected) " c "
                  initialPage sampleStore65 _ _ eq_refl eq_refl)).
Defined.

(** X23. The prompt of [getHint] is its two header lines followed by one
    line for each of the last four turns, in order, and nothing of the turns
    before them: with four recent turns, whatever comes earlier in the
    history does not change the prompt. *)
Theorem getHint_reads_last_four
    (topic currentQuestion : string) (older recent : list Turn) :
  List.length recent = 4%nat ->
  getHint topic (older ++ recent) currentQuestion = getHint topic recent currentQuestion
  /\ getHint topic (older ++ recent) currentQuestion
     = ("Topic: " ++ topic ++ nl ++ "Question: " ++ currentQuestion ++ nl)
       ++ fold_right (fun e rest => hintLine e ++ rest) EmptyString recent.
Proof.
  intros Hlen. unfold getHint.
  rewrite (sliceLast_app 4 older recent Hlen).
  pose proof (sliceLast_app 4 [] recent Hlen) as Hself. simpl app in Hself.
  rewrite Hself. split; [reflexivity|]. apply fold_left_lines.
Qed.

Lemma getHint_reads_last_four_witness :
  getHint "Recursion" (sampleOlder ++ firstn 4 sampleRecent) "Why?"
  = getHint "Recursion" (firstn 4 sampleRecent) "Why?".
Proof.
  exact (proj1 (getHint_reads_last_four "Recursion" "Why?" sampleOlder
                                        (firstn 4 sampleRecent) eq_refl)).
Defined.

End ClientMore.
